(** * Verification of the alignment VAE objective (alignments/models/vae.py)

    Shallow embedding of [InferenceNetwork.forward], [AlignmentVAE.__init__],
    [AlignmentVAE.prior], [AlignmentVAE._create_hardkuma_prior_table],
    [AlignmentVAE.forward], [AlignmentVAE.update_baselines],
    [AlignmentVAE.loss] and [AlignmentVAE.ppo_loss], and of the alignment
    decision of [validate] (alignments/alignmentvae_helper.py).

    Numbers.  Tensor elements and Python floats are modelled as real numbers:
    rounding and overflow of IEEE arithmetic are abstracted away, so every
    equation below is an equation of exact arithmetic.  Two float values that
    are no real number are modelled where the source produces them:
    [float("inf")] in the prior table scan, and the NaN that
    [update_baselines] stores in the running baselines when the batch
    statistics are undefined.  Both are the absence of a value; an operation
    with an absent operand has no value either.

    Tensors.  A tensor is its shape together with an indexing function; the
    value of the function outside the shape is irrelevant and never read by
    a reduction.  The tensors of one call are taken to have consistent
    shapes.

    Exceptions.  Every operation that can raise returns a [result]. *)

From stdpp Require Import gmap strings list.
From Stdlib Require Import Reals Lra ZArith Lia Sorted.

Local Open Scope R_scope.

(** ** Exceptions *)

Inductive exn : Type :=
| NotImplementedError
| Exception (msg : string)
| ValueError
| NameError (name : string)
| KeyError (key : Z)
| AttributeError (attr : string)
| AssertionError (msg : string)
| IndexError.

(** The outcome of a call: a value, an exception, or [NotANumber]: the call
    returns, but floats of the value it returns are NaN (or infinite), which
    the real numbers of the model cannot hold. *)
Inductive result (A : Type) : Type :=
| Ok (a : A)
| Raise (e : exn)
| NotANumber.
Arguments Ok {A} a.
Arguments Raise {A} e.
Arguments NotANumber {A}.

(** Sequencing: the first exception raised aborts the computation; what is
    computed from NaN is NaN. *)
#[global] Instance result_bind : MBind result :=
  fun A B (k : A -> result B) (r : result A) =>
    match r with
    | Ok a => k a
    | Raise e => Raise e
    | NotANumber => NotANumber
    end.

#[global] Instance result_ret : MRet result := fun A a => Ok a.

(** ** Tensors *)

Record tensor1 (A : Type) : Type := T1 { size1 : nat; at1 : nat -> A }.
Record tensor2 (A : Type) : Type :=
  T2 { rows2 : nat; cols2 : nat; at2 : nat -> nat -> A }.
Record tensor3 (A : Type) : Type :=
  T3 { dim0 : nat; dim1 : nat; dim2 : nat; at3 : nat -> nat -> nat -> A }.
Arguments T1 {A} _ _.
Arguments size1 {A} _.
Arguments at1 {A} _ _.
Arguments T2 {A} _ _ _.
Arguments rows2 {A} _.
Arguments cols2 {A} _.
Arguments at2 {A} _ _ _.
Arguments T3 {A} _ _ _ _.
Arguments dim0 {A} _.
Arguments dim1 {A} _.
Arguments dim2 {A} _.
Arguments at3 {A} _ _ _ _.

(** [sumn n f] is f 0 + ... + f (n-1), the reduction behind [Tensor.sum]. *)
Fixpoint sumn (n : nat) (f : nat -> R) : R :=
  match n with
  | O => 0
  | S k => sumn k f + f k
  end.

(** [t.sum(dim=-1)] on a rank-3 and on a rank-2 tensor. *)
Definition sum_last3 (t : tensor3 R) : tensor2 R :=
  T2 (dim0 t) (dim1 t) (fun b j => sumn (dim2 t) (fun i => at3 t b j i)).

Definition sum_last2 (t : tensor2 R) : tensor1 R :=
  T1 (rows2 t) (fun b => sumn (cols2 t) (fun j => at2 t b j)).

(** [t.mean()] and [t.sum()] over every element. *)
Definition sum1 (t : tensor1 R) : R := sumn (size1 t) (at1 t).
Definition mean1 (t : tensor1 R) : R := sum1 t / INR (size1 t).
Definition mean2 (t : tensor2 R) : R :=
  sumn (rows2 t) (fun b => sumn (cols2 t) (fun j => at2 t b j))
  / INR (rows2 t * cols2 t).

(** *** Floats that may be no number

    The statistics of [update_baselines] are undefined on some batches, and
    the floats it stores are then NaN (or, for a quotient by zero, an
    infinity).  Such a float is an [option R], [None] being the absence of a
    number; NaN and the infinities are absorbing in every operation below, so
    that an absent operand gives an absent result. *)

(** The sum of [f 0], ..., [f (n-1)]: no number as soon as one term is
    none. *)
Fixpoint fsumn (n : nat) (f : nat -> option R) : option R :=
  match n with
  | O => Some 0
  | S k => a ← fsumn k f; x ← f k; Some (a + x)
  end.

(** [t.mean()] on such floats: the mean of no element is [0 / 0], NaN. *)
Definition fmean1 (t : tensor1 (option R)) : option R :=
  total ← fsumn (size1 t) (at1 t);
  if Nat.eqb (size1 t) 0 then None else Some (total / INR (size1 t)).

(** [t.std()]: the sample standard deviation, with Bessel's correction.  The
    squared deviations are divided by [size - 1]; on one element that is
    [0 / 0], NaN, and on none the mean is already NaN. *)
Definition std1 (t : tensor1 (option R)) : option R :=
  mu ← fmean1 t;
  squares ← fsumn (size1 t)
                  (fun b => x ← at1 t b; Some ((x - mu) * (x - mu)));
  if Nat.leb (size1 t) 1 then None
  else Some (sqrt (squares / (INR (size1 t) - 1))).

(** Whether a float is a number, and the tensor of numbers behind a tensor
    of floats when every element of its shape is one. *)
Definition is_number (x : option R) : bool :=
  match x with
  | Some _ => true
  | None => false
  end.

Definition numbers2 (t : tensor2 (option R)) : option (tensor2 R) :=
  if forallb (fun b => forallb (fun j => is_number (at2 t b j))
                               (seq 0 (cols2 t)))
             (seq 0 (rows2 t))
  then Some (T2 (rows2 t) (cols2 t) (fun b j => default 0 (at2 t b j)))
  else None.

(** [torch.where(mask, t, 0)] with the mask broadcast along the target axis
    ([seq_mask_x.unsqueeze(-1).transpose(1, 2)], shape [B, 1, T_x]) and along
    the source axis ([seq_mask_y.unsqueeze(-1)], shape [B, T_y, 1]). *)
Definition where_src (mask : tensor2 bool) (t : tensor3 R) : tensor3 R :=
  T3 (dim0 t) (dim1 t) (dim2 t)
     (fun b j i => if at2 mask b i then at3 t b j i else 0).

Definition where_tgt (mask : tensor2 bool) (t : tensor3 R) : tensor3 R :=
  T3 (dim0 t) (dim1 t) (dim2 t)
     (fun b j i => if at2 mask b j then at3 t b j i else 0).

(** [t.clamp(min=lo, max=hi)], [t.clamp(min=lo)] and [torch.clamp(t, max=hi)]
    on one element. *)
Definition clamp (lo hi x : R) : R := Rmin (Rmax x lo) hi.
Definition clamp_min (lo x : R) : R := Rmax x lo.
Definition clamp_max (hi x : R) : R := Rmin x hi.

(** [mask.float()]. *)
Definition float_of_bool (b : bool) : R := if b then 1 else 0.

(** Python comparison [x > 0] on floats. *)
Definition gt0 (x : R) : bool := if Rlt_dec 0 x then true else false.
Definition Rgtb (x y : R) : bool := if Rlt_dec y x then true else false.

(** [range(lo, hi)]. *)
Definition range (lo hi : Z) : list Z :=
  map (fun k => (lo + Z.of_nat k)%Z) (seq 0 (Z.to_nat (hi - lo))).

(** ** Distribution adapters *)

(** A Bernoulli is built from [probs=] or from [logits=]. *)
Inductive bern_param : Type :=
| Probs (t : tensor3 R)
| Logits (t : tensor3 R).

(** The distribution objects that the model constructs.  [HardKuma a b l u]
    stands for [Rectified01(Stretched(Kumaraswamy(a, b), lower=l, upper=u))]. *)
Inductive distribution : Type :=
| BernoulliREINFORCE (p : bern_param)
| BernoulliStraightThrough (p : bern_param)
| BinaryConcrete (temperature : R) (logits : tensor3 R)
| Kumaraswamy (a b : tensor3 R)
| HardKuma (a b : tensor3 R) (lower upper : R).

(** The class of a distribution object, i.e. the family variant. *)
Inductive variant : Type :=
| VBernoulliREINFORCE
| VBernoulliStraightThrough
| VBinaryConcrete
| VKumaraswamy
| VHardKuma.

Inductive family : Type :=
| FBernoulli
| FConcrete
| FKuma
| FHardKuma.

Definition variant_of (d : distribution) : variant :=
  match d with
  | BernoulliREINFORCE _ => VBernoulliREINFORCE
  | BernoulliStraightThrough _ => VBernoulliStraightThrough
  | BinaryConcrete _ _ => VBinaryConcrete
  | Kumaraswamy _ _ => VKumaraswamy
  | HardKuma _ _ _ _ => VHardKuma
  end.

(** The two Bernoulli classes differ in their gradient estimator only. *)
Definition family_of_variant (v : variant) : family :=
  match v with
  | VBernoulliREINFORCE | VBernoulliStraightThrough => FBernoulli
  | VBinaryConcrete => FConcrete
  | VKumaraswamy => FKuma
  | VHardKuma => FHardKuma
  end.

Definition family_of (d : distribution) : family :=
  family_of_variant (variant_of d).

#[global] Instance variant_eq_dec : EqDecision variant.
Proof. solve_decision. Defined.

#[global] Instance family_eq_dec : EqDecision family.
Proof. solve_decision. Defined.

Definition Rleb (x y : R) : bool := if Rle_dec x y then true else false.

(** [constraints.unit_interval] checked on every element of the shape. *)
Definition unit_interval (t : tensor3 R) : bool :=
  forallb (fun b =>
    forallb (fun j =>
      forallb (fun i => Rleb 0 (at3 t b j i) && Rleb (at3 t b j i) 1)
              (seq 0 (dim2 t)))
            (seq 0 (dim1 t)))
          (seq 0 (dim0 t)).

(** Modelled from the spec: the classes [BernoulliREINFORCE] and
    [BernoulliStraightThrough] of [alignments/dist.py] are not part of the
    sources.  The spec makes them the Bernoulli family with two gradient
    estimators, sharing mean, log-density and closed-form KL; they are taken
    to be torch Bernoullis.  Called with [validate_args=True], the
    constructor checks its argument: [probs] must lie in the unit interval,
    [logits] may be any real. *)
Definition validate_bern (p : bern_param) : result bern_param :=
  match p with
  | Probs t => if unit_interval t then Ok p else Raise ValueError
  | Logits _ => Ok p
  end.

Definition BernoulliREINFORCE_new (p : bern_param) : result distribution :=
  p' ← validate_bern p; Ok (BernoulliREINFORCE p').

Definition BernoulliStraightThrough_new (p : bern_param)
  : result distribution :=
  p' ← validate_bern p; Ok (BernoulliStraightThrough p').

Definition sigmoid (x : R) : R := 1 / (1 + exp (- x)).

Definition map3 (f : R -> R) (t : tensor3 R) : tensor3 R :=
  T3 (dim0 t) (dim1 t) (dim2 t) (fun b j i => f (at3 t b j i)).

(** [Bernoulli.probs] and [Bernoulli.logits]; whichever was not given is
    derived from the other ([logits = log p - log (1 - p)]). *)
Definition bern_probs (p : bern_param) : tensor3 R :=
  match p with
  | Probs t => t
  | Logits t => map3 sigmoid t
  end.

Definition bern_logits (p : bern_param) : tensor3 R :=
  match p with
  | Probs t => map3 (fun x => ln x - ln (1 - x)) t
  | Logits t => t
  end.

(** Modelled from the spec: the per-cell log-density [log_prob(A)] of the
    Bernoulli adapters, that of a torch Bernoulli: the negated binary
    cross-entropy with logits, [value * logits - log (1 + exp logits)]. *)
Definition bern_log_prob (p : bern_param) (value : tensor3 R) : tensor3 R :=
  let l := bern_logits p in
  T3 (dim0 l) (dim1 l) (dim2 l)
     (fun b j i =>
        at3 value b j i * at3 l b j i - ln (1 + exp (at3 l b j i))).

(** Modelled from the spec: the closed-form KL(q || p) of two Bernoullis,
    per cell (the cells with a probability in the open unit interval; the
    infinite values at 0 and 1 are outside the model). *)
Definition kl_bernoulli_cell (q p : R) : R :=
  q * ln (q / p) + (1 - q) * ln ((1 - q) / (1 - p)).

Definition kl_bernoulli (q p : bern_param) : tensor3 R :=
  let tq := bern_probs q in
  let tp := bern_probs p in
  T3 (dim0 tq) (dim1 tq) (dim2 tq)
     (fun b j i => kl_bernoulli_cell (at3 tq b j i) (at3 tp b j i)).

(** The operations of the continuous families come from the external
    [probabll] package; they are parameters of the development. *)
Record external_ops : Type := {
  ext_log_prob : distribution -> tensor3 R -> tensor3 R;
  ext_mean : distribution -> tensor3 R;
  ext_kl : distribution -> distribution -> tensor3 R
}.

Definition log_prob (ext : external_ops) (d : distribution)
  (value : tensor3 R) : tensor3 R :=
  match d with
  | BernoulliREINFORCE p | BernoulliStraightThrough p => bern_log_prob p value
  | _ => ext_log_prob ext d value
  end.

Definition dist_mean (ext : external_ops) (d : distribution) : tensor3 R :=
  match d with
  | BernoulliREINFORCE p | BernoulliStraightThrough p => bern_probs p
  | _ => ext_mean ext d
  end.

(** Modelled from the spec: [torch.distributions.kl.kl_divergence] and the
    classes of [alignments/dist.py] are not part of the sources.  The spec
    gives the adapter contract: a closed-form KL, defined only between two
    instances of the same family; no rule is registered for a pair of
    different families, which is a [NotImplementedError]. *)
Definition kl_divergence (ext : external_ops) (q p : distribution)
  : result (tensor3 R) :=
  match q, p with
  | (BernoulliREINFORCE pq | BernoulliStraightThrough pq),
    (BernoulliREINFORCE pp | BernoulliStraightThrough pp) =>
      Ok (kl_bernoulli pq pp)
  | _, _ =>
      if decide (family_of q = family_of p) then Ok (ext_kl ext q p)
      else Raise NotImplementedError
  end.

(** ** The model *)

(** Python [needle in haystack] on strings. *)
Definition str_in (needle haystack : string) : bool :=
  match String.index 0 needle haystack with
  | Some _ => true
  | None => false
  end.

(** Python [s in [s1, ..., sn]]. *)
Definition str_mem (s : string) (l : list string) : bool :=
  existsb (String.eqb s) l.

(** The inference network.  The embedders, the two encoders and the key and
    query layers (lines 50-66, the encoders being collaborators) are one
    function [attention_logits] from the two token tensors to the score
    tensor of shape [B, T_y, T_x]. *)
Record InferenceNetwork : Type := {
  inf_dist : string;
  attention_logits : tensor2 Z -> tensor2 Z -> tensor3 R
}.

(** The attributes that [__init__] registers only for ["bernoulli-RF"]: the
    two float buffers, of type [F], the smoothing factor and the three
    switches. *)
Record Buffers (F : Type) : Type := {
  avg_reward : F;
  std_reward : F;
  alpha : R;
  use_mean_cv : bool;
  use_std_cv : bool;
  use_self_critic_cv : bool
}.
Arguments avg_reward {F} _.
Arguments std_reward {F} _.
Arguments alpha {F} _.
Arguments use_mean_cv {F} _.
Arguments use_std_cv {F} _.
Arguments use_self_critic_cv {F} _.

(** The baselines as the model holds them: each buffer is a number or NaN. *)
Definition Baselines : Type := Buffers (option R).

(** Baselines whose two buffers hold numbers. *)
Definition RFState : Type := Buffers R.

Definition of_numbers (s : RFState) : Baselines :=
  {| avg_reward := Some (avg_reward s);
     std_reward := Some (std_reward s);
     alpha := alpha s;
     use_mean_cv := use_mean_cv s;
     use_std_cv := use_std_cv s;
     use_self_critic_cv := use_self_critic_cv s |}.

Definition to_numbers (s : Baselines) : option RFState :=
  avg ← avg_reward s;
  std ← std_reward s;
  Some {| avg_reward := avg;
          std_reward := std;
          alpha := alpha s;
          use_mean_cv := use_mean_cv s;
          use_std_cv := use_std_cv s;
          use_self_critic_cv := use_self_critic_cv s |}.

Record AlignmentVAE : Type := {
  dist : string;
  pooling : string;
  prior_params : R * R;
  pad_idx : Z;
  emb_size : nat;
  tgt_vocab_size : nat;
  src_embedder : Z -> nat -> R;
  categorical_weight : nat -> nat -> R;
  categorical_bias : nat -> R;
  inf_network : InferenceNetwork;
  baselines : option Baselines;
  hardkuma_prior_table : option (gmap Z (R * R))
}.

(** The baselines of a model when they exist and hold numbers. *)
Definition rf (m : AlignmentVAE) : option RFState :=
  s ← baselines m; to_numbers s.

(** [InferenceNetwork.forward].  Inside the first branch the chain
    [if / elif / elif] ends on ["concrete"], the only remaining member of the
    list. *)
Definition InferenceNetwork_forward (net : InferenceNetwork)
  (x : tensor2 Z) (seq_mask_x : tensor2 bool) (seq_len_x : tensor1 Z)
  (y : tensor2 Z) (seq_mask_y : tensor2 bool) (seq_len_y : tensor1 Z)
  : result distribution :=
  if str_mem (inf_dist net) ["bernoulli-RF"; "bernoulli-ST"; "concrete"]%string
  then
    let logits := attention_logits net x y in
    if String.eqb (inf_dist net) "bernoulli-RF" then
      BernoulliREINFORCE_new (Logits logits)
    else if String.eqb (inf_dist net) "bernoulli-ST" then
      BernoulliStraightThrough_new (Logits logits)
    else
      Ok (BinaryConcrete 1 (map3 (clamp (-5) 5) logits))
  else if str_mem (inf_dist net) ["kuma"; "hardkuma"]%string then
    Raise NotImplementedError
  else
    Raise (Exception ("Unknown dist option: " ++ inf_dist net)).

Definition approximate_posterior (m : AlignmentVAE)
  (x : tensor2 Z) (seq_mask_x : tensor2 bool) (seq_len_x : tensor1 Z)
  (y : tensor2 Z) (seq_mask_y : tensor2 bool) (seq_len_y : tensor1 Z)
  : result distribution :=
  InferenceNetwork_forward (inf_network m) x seq_mask_x seq_len_x
                           y seq_mask_y seq_len_y.

(** [t.new_full(shape, fill_value=v)]. *)
Definition new_full (d0 d1 d2 : nat) (v : R) : tensor3 R :=
  T3 d0 d1 d2 (fun _ _ _ => v).

(** [[table[length][0] for length in seq_len_numpy]]: the first missing key
    raises. *)
Fixpoint table_column (tbl : gmap Z (R * R)) (lens : list Z)
  : result (list R) :=
  match lens with
  | [] => Ok []
  | len :: rest =>
      match tbl !! len with
      | Some (a, _) => col ← table_column tbl rest; Ok (a :: col)
      | None => Raise (KeyError len)
      end
  end.

Definition tensor1_to_list {A : Type} (t : tensor1 A) : list A :=
  map (at1 t) (seq 0 (size1 t)).

(** [nn.Embedding(num_embeddings, emb_size, padding_idx=padding_idx)], as far
    as it can raise.  The constructor asserts that a positive index is below
    [num_embeddings] and a negative one at least [-num_embeddings], counts a
    negative index from the end, and zeroes the row of the weight at the
    index: an index 0 into a weight of no row is out of bounds.  The value is
    the index of the zeroed row. *)
Definition Embedding_new (num_embeddings : nat) (padding_idx : Z) : result Z :=
  if (0 <? padding_idx)%Z then
    if (padding_idx <? Z.of_nat num_embeddings)%Z then Ok padding_idx
    else Raise (AssertionError "Padding_idx must be within num_embeddings")
  else if (padding_idx <? 0)%Z then
    if (- Z.of_nat num_embeddings <=? padding_idx)%Z
    then Ok (Z.of_nat num_embeddings + padding_idx)%Z
    else Raise (AssertionError "Padding_idx must be within num_embeddings")
  else
    if Nat.eqb num_embeddings 0 then Raise IndexError else Ok padding_idx.

Section Model.

(** [alignments.constants.epsilon], a constant defined outside the sources. *)
Variable epsilon : R.

(** The operations of the external distribution package. *)
Variable ext : external_ops.

(** Lines 150-159 of [prior]: the probabilities of the Bernoulli prior. *)
Definition bernoulli_prior_probs (prior_param_1 prior_param_2 : R)
  (seq_mask_x : tensor2 bool) (seq_len_x : tensor1 Z)
  (seq_mask_y : tensor2 bool) : result (tensor3 R) :=
  if gt0 prior_param_1 then
    let probs := fun b i =>
      clamp_max (1 - 0.01)
        (prior_param_1 * (float_of_bool (at2 seq_mask_x b i) + epsilon)
         / (IZR (at1 seq_len_x b) + 1)) in
    Ok (T3 (rows2 seq_mask_x) (cols2 seq_mask_y) (cols2 seq_mask_x)
           (fun b j i => probs b i))
  else if gt0 prior_param_2 then
    Ok (new_full (rows2 seq_mask_x) (cols2 seq_mask_y) (cols2 seq_mask_x)
                 prior_param_2)
  else
    Raise (Exception "Invalid prior params for Bernoulli").

(** [AlignmentVAE.prior].  A [dist] that matches no branch falls off the end
    of the function, which returns [None]. *)
Definition prior (m : AlignmentVAE) (seq_mask_x : tensor2 bool)
  (seq_len_x : tensor1 Z) (seq_mask_y : tensor2 bool)
  : result (option distribution) :=
  let '(prior_param_1, prior_param_2) := prior_params m in
  let d0 := rows2 seq_mask_x in
  let d1 := cols2 seq_mask_y in
  let d2 := cols2 seq_mask_x in
  if str_in "bernoulli" (dist m) then
    probs ← bernoulli_prior_probs prior_param_1 prior_param_2
                                   seq_mask_x seq_len_x seq_mask_y;
    pa ← BernoulliREINFORCE_new (Probs probs);
    Ok (Some pa)
  else if String.eqb (dist m) "concrete" then
    Raise NotImplementedError
  else if str_mem (dist m) ["kuma"; "hardkuma"]%string then
    ab ← (if gt0 prior_param_1 && gt0 prior_param_2 then
            Ok (new_full d0 d1 d2 prior_param_1,
                new_full d0 d1 d2 prior_param_2)
          else if String.eqb (dist m) "hardkuma" && gt0 prior_param_1 then
            match hardkuma_prior_table m with
            | None => Raise (AttributeError "hardkuma_prior_table")
            | Some tbl =>
                col ← table_column tbl (tensor1_to_list seq_len_x);
                Ok (T3 d0 d1 d2 (fun b _ _ => nth b col 0),
                    T3 d0 d1 d2 (fun _ _ _ => 1))
            end
          else Raise (Exception "Invalid Kumaraswamy parameters"));
    if String.eqb (dist m) "kuma" then
      Ok (Some (Kumaraswamy (fst ab) (snd ab)))
    else
      Ok (Some (HardKuma (fst ab) (snd ab) (-0.1) 1.1))
  else
    Ok None.

(** *** The HardKuma prior table *)

(** [torch.linspace(start, end, steps)]. *)
Definition linspace (start stop : R) (steps : nat) : list R :=
  map (fun k => start + INR k * ((stop - start) / (INR steps - 1)))
      (seq 0 steps).

(** [Kumaraswamy(a, b).cdf(x)] of the external package:
    [1 - (1 - x^a)^b]. *)
Definition kuma_cdf (a b x : R) : R := 1 - Rpower (1 - Rpower x a) b.

(** A candidate [(a, b, CDF(0))] of the list [kuma_priors]. *)
Definition candidate : Type := (R * R * R)%type.

Definition cand_a (c : candidate) : R := fst (fst c).
Definition cand_b (c : candidate) : R := snd (fst c).
Definition cand_cdf0 (c : candidate) : R := snd c.

(** [sorted(kuma_priors, key=lambda elem: elem[0])]: a stable sort. *)
Fixpoint insert_by_a (c : candidate) (l : list candidate) : list candidate :=
  match l with
  | [] => [c]
  | d :: rest =>
      if Rgtb (cand_a d) (cand_a c) then c :: d :: rest
      else d :: insert_by_a c rest
  end.

Definition sorted_by_a (l : list candidate) : list candidate :=
  foldr insert_by_a [] (rev l).

(** Lines 187-200: the candidate list. *)
Definition kuma_priors (l r : R) (N : nat) : list candidate :=
  let b := 1 in
  let k0 := - l / (r - l) in
  sorted_by_a (map (fun a => (a, b, kuma_cdf a b k0)) (linspace epsilon 1 N)).

(** Line 206. *)
Definition p0 (length : Z) : R :=
  1 - Rmin ((1 + epsilon) / (IZR length + 1)) (1 - epsilon).

(** Lines 207-211, the [while] loop.  [rest] holds the candidates from
    [idx] on, so that [idx != len(kuma_priors)] is [rest <> []]; [cdf0] is
    [None] for [float("inf")]; [cur] is [None] until the loop body has bound
    [a] and [b] to a candidate. *)
Fixpoint scan (p : R) (cdf0 : option R) (cur : option (R * R))
  (rest : list candidate) : option (R * R) :=
  match rest with
  | [] => cur
  | c :: rest' =>
      if match cdf0 with
         | None => true
         | Some v => Rgtb v p
         end
      then scan p (Some (cand_cdf0 c)) (Some (cand_a c, cand_b c)) rest'
      else cur
  end.

(** Lines 205-212, one iteration of the [for] loop.  When the candidate list
    is empty the loop body never runs and [a] is unbound. *)
Definition tabulate_length (priors : list candidate)
  (tbl : gmap Z (R * R)) (length : Z) : result (gmap Z (R * R)) :=
  match scan (p0 length) None None priors with
  | Some ab => Ok (<[length := ab]> tbl)
  | None => Raise (NameError "a")
  end.

Fixpoint tabulate (priors : list candidate) (tbl : gmap Z (R * R))
  (lengths : list Z) : result (gmap Z (R * R)) :=
  match lengths with
  | [] => Ok tbl
  | length :: rest =>
      tbl' ← tabulate_length priors tbl length;
      tabulate priors tbl' rest
  end.

(** [AlignmentVAE._create_hardkuma_prior_table]; the result is the value
    assigned to [self.hardkuma_prior_table]. *)
Definition _create_hardkuma_prior_table (prior_param_1 : R)
  (max_sentence_length : Z) (l r : R) (N : nat)
  : result (gmap Z (R * R)) :=
  tabulate (kuma_priors l r N) ∅ (range 1 (max_sentence_length + 1)).

(** [AlignmentVAE.__init__] (lines 107-139) with [InferenceNetwork.__init__]
    (lines 14-45).  The values of the learned parameters are given.  The
    model builds its source embedding, then the inference network builds a
    source and a target embedding with the same padding index, and the two
    encoders with the key and query layers: [encoders] is the outcome of
    constructing those collaborators, an exception or the function from the
    two token tensors to the scores.  The baselines exist for
    ["bernoulli-RF"] only and the table for ["hardkuma"] only. *)
Definition AlignmentVAE_init (dist : string) (prior_params : R * R)
  (src_vocab_size tgt_vocab_size emb_size : nat) (pad_idx : Z)
  (pooling : string) (max_sentence_length : Z)
  (use_mean_cv use_std_cv use_self_critic_cv : bool)
  (src_embedder : Z -> nat -> R) (categorical_weight : nat -> nat -> R)
  (categorical_bias : nat -> R)
  (encoders : result (tensor2 Z -> tensor2 Z -> tensor3 R))
  : result AlignmentVAE :=
  _ ← Embedding_new src_vocab_size pad_idx;
  _ ← Embedding_new src_vocab_size pad_idx;
  _ ← Embedding_new tgt_vocab_size pad_idx;
  attention_logits ← encoders;
  tbl ← (if String.eqb dist "hardkuma" then
           t ← _create_hardkuma_prior_table (fst prior_params)
                 max_sentence_length (-0.1) 1.1 (Z.to_nat 10000);
           Ok (Some t)
         else Ok None);
  Ok {| dist := dist;
        pooling := pooling;
        prior_params := prior_params;
        pad_idx := pad_idx;
        emb_size := emb_size;
        tgt_vocab_size := tgt_vocab_size;
        src_embedder := src_embedder;
        categorical_weight := categorical_weight;
        categorical_bias := categorical_bias;
        inf_network := {| inf_dist := dist;
                          attention_logits := attention_logits |};
        baselines :=
          if String.eqb dist "bernoulli-RF" then
            Some {| avg_reward := Some 0;
                    std_reward := Some 1;
                    alpha := 0.05;
                    use_mean_cv := use_mean_cv;
                    use_std_cv := use_std_cv;
                    use_self_critic_cv := use_self_critic_cv |}
          else None;
        hardkuma_prior_table := tbl |}.

(** *** The generative model *)

(** [AlignmentVAE.forward]: pooling of the source embeddings by [A], then
    the categorical layer. *)
Definition forward (m : AlignmentVAE) (x : tensor2 Z) (A : tensor3 R)
  : tensor3 R :=
  let weighted := fun b j e =>
    sumn (dim2 A) (fun i => src_embedder m (at2 x b i) e * at3 A b j i) in
  let pooled := fun b j e =>
    if String.eqb (pooling m) "avg" then
      weighted b j e / (sumn (dim2 A) (fun i => at3 A b j i) + epsilon)
    else weighted b j e in
  T3 (dim0 A) (dim1 A) (tgt_vocab_size m)
     (fun b j v =>
        sumn (emb_size m) (fun e => categorical_weight m v e * pooled b j e)
        + categorical_bias m v).

(** [F.cross_entropy(logits.permute(0, 2, 1), y, ignore_index=pad_idx,
    reduction="none")] on logits of shape [B, T_y, V]: zero at the ignored
    positions, [log (sum_v exp logits_v) - logits_y] elsewhere.  The targets
    are taken to be the ignored index or token indices of the vocabulary,
    [0 <= y < V], the targets on which the library function is defined. *)
Definition cross_entropy (logits : tensor3 R) (y : tensor2 Z) (ignore_index : Z)
  : tensor2 R :=
  T2 (rows2 y) (cols2 y)
     (fun b j =>
        if Z.eqb (at2 y b j) ignore_index then 0
        else ln (sumn (dim2 logits) (fun v => exp (at3 logits b j v)))
             - at3 logits b j (Z.to_nat (at2 y b j))).

(** [Tensor.round()]: to the nearest integer, ties to the even one. *)
Definition round_half_even (x : R) : R :=
  let n := Int_part x in
  let f := frac_part x in
  if Rlt_dec f (1 / 2) then IZR n
  else if Rlt_dec (1 / 2) f then IZR (n + 1)
  else if Z.even n then IZR n else IZR (n + 1).

(** [AlignmentVAE.cv_self_critic]; [detach] leaves the values unchanged. *)
Definition cv_self_critic (m : AlignmentVAE) (x y : tensor2 Z)
  (qa : distribution) : tensor2 R :=
  let A_argmax := map3 round_half_even (dist_mean ext qa) in
  let logits := forward m x A_argmax in
  let ce := cross_entropy logits y (pad_idx m) in
  T2 (rows2 ce) (cols2 ce) (fun b j => - at2 ce b j).

(** The model after the two assignments of [update_baselines]. *)
Definition set_baselines (m : AlignmentVAE) (s : Baselines)
  (avg std : option R) : AlignmentVAE :=
  {| dist := dist m;
     pooling := pooling m;
     prior_params := prior_params m;
     pad_idx := pad_idx m;
     emb_size := emb_size m;
     tgt_vocab_size := tgt_vocab_size m;
     src_embedder := src_embedder m;
     categorical_weight := categorical_weight m;
     categorical_bias := categorical_bias m;
     inf_network := inf_network m;
     baselines := Some {| avg_reward := avg;
                          std_reward := std;
                          alpha := alpha s;
                          use_mean_cv := use_mean_cv s;
                          use_std_cv := use_std_cv s;
                          use_self_critic_cv := use_self_critic_cv s |};
     hardkuma_prior_table := hardkuma_prior_table m |}.

(** Line 261: the length-normalised reward of every batch element, the sum
    over the target positions divided by the target length; the quotient by
    a length of zero is an infinity or NaN. *)
Definition length_normalized (new_reward : tensor2 R) (seq_len_y : tensor1 Z)
  : tensor1 (option R) :=
  T1 (rows2 new_reward)
     (fun b =>
        if Z.eqb (at1 seq_len_y b) 0 then None
        else Some (sumn (cols2 new_reward) (fun j => at2 new_reward b j)
                   / IZR (at1 seq_len_y b))).

(** Lines 263 and 265: [alpha * statistic + (1.0 - alpha) * buffer]. *)
Definition smoothed (alpha : R) (statistic buffer : option R) : option R :=
  x ← statistic; old ← buffer; Some (alpha * x + (1.0 - alpha) * old).

(** [AlignmentVAE.update_baselines]: the model after the two assignments.
    The attributes read exist on a ["bernoulli-RF"] model only. *)
Definition update_baselines (m : AlignmentVAE) (new_reward : tensor2 R)
  (seq_len_y : tensor1 Z) : result AlignmentVAE :=
  match baselines m with
  | None => Raise (AttributeError "alpha")
  | Some s =>
      let new_reward := length_normalized new_reward seq_len_y in
      Ok (set_baselines m s
            (smoothed (alpha s) (fmean1 new_reward) (avg_reward s))
            (smoothed (alpha s) (std1 new_reward) (std_reward s)))
  end.

(** *** The objective *)

(** The value stored under ["loss"]: a scalar after a reduction, one value
    per batch element otherwise. *)
Inductive loss_value : Type :=
| Scalar (v : R)
| PerElement (t : tensor1 R).

(** The [output_dict] of [loss]; the three reward entries exist for
    ["bernoulli-RF"] only, [reward_sc] only with the self-critic. *)
Record loss_output : Type := {
  out_log_py_xa : tensor2 R;
  out_KL : tensor1 R;
  out_ELBO : tensor1 R;
  out_reward_sc : option (tensor2 R);
  out_reward : option (tensor2 R);
  out_normalized_reward : option (tensor2 R);
  out_loss : loss_value
}.

(** Lines 321-329: the reduction over the batch. *)
Definition reduce (reduction : string) (loss : tensor1 R)
  : result loss_value :=
  if String.eqb reduction "mean" then Ok (Scalar (mean1 loss))
  else if String.eqb reduction "sum" then Ok (Scalar (sum1 loss))
  else if String.eqb reduction "none" then Ok (PerElement loss)
  else Raise (Exception ("Unknown reduction option " ++ reduction)).

(** Lines 288-292: both masks, then the sum over the two position axes. *)
Definition masked_KL (seq_mask_x seq_mask_y : tensor2 bool) (KL : tensor3 R)
  : tensor1 R :=
  sum_last2 (sum_last3 (where_tgt seq_mask_y (where_src seq_mask_x KL))).

(** The control variates applied to a reward (lines 304-313 of [loss],
    350-357 of [ppo_loss]): the adjusted reward and the ["reward_sc"]
    entry.  The buffers are floats: subtracting a NaN [avg_reward] and
    dividing by a NaN [std_reward], which [clamp] leaves NaN, make every cell
    of the reward NaN. *)
Definition control_variates (m : AlignmentVAE) (s : Baselines)
  (x y : tensor2 Z) (qa : distribution) (reward : tensor2 R)
  : tensor2 (option R) * option (tensor2 R) :=
  let r1 :=
    if use_self_critic_cv s then
      let sc := cv_self_critic m x y qa in
      T2 (rows2 reward) (cols2 reward)
         (fun b j => at2 reward b j - at2 sc b j)
    else reward in
  let r2 :=
    if use_mean_cv s then
      T2 (rows2 r1) (cols2 r1)
         (fun b j => avg ← avg_reward s; Some (at2 r1 b j - avg))
    else T2 (rows2 r1) (cols2 r1) (fun b j => Some (at2 r1 b j)) in
  let r3 :=
    if use_std_cv s then
      T2 (rows2 r2) (cols2 r2)
         (fun b j => r ← at2 r2 b j;
                     std ← std_reward s;
                     Some (r / clamp_min 1.0 std))
    else r2 in
  (r3, if use_self_critic_cv s then Some r1 else None).

(** The same lines on baselines that hold numbers: every cell of the
    adjusted reward is then a number. *)
Definition apply_control_variates (m : AlignmentVAE) (s : RFState)
  (x y : tensor2 Z) (qa : distribution) (reward : tensor2 R)
  : tensor2 R * option (tensor2 R) :=
  let r1 :=
    if use_self_critic_cv s then
      let sc := cv_self_critic m x y qa in
      T2 (rows2 reward) (cols2 reward)
         (fun b j => at2 reward b j - at2 sc b j)
    else reward in
  let r2 :=
    if use_mean_cv s then
      T2 (rows2 r1) (cols2 r1) (fun b j => at2 r1 b j - avg_reward s)
    else r1 in
  let r3 :=
    if use_std_cv s then
      T2 (rows2 r2) (cols2 r2)
         (fun b j => at2 r2 b j / clamp_min 1.0 (std_reward s))
    else r2 in
  (r3, if use_self_critic_cv s then Some r1 else None).

(** [AlignmentVAE.loss].  When the control variates make the reward NaN,
    the entries ["normalized_reward"] and ["loss"] of the dictionary hold
    NaN: the outcome is [NotANumber]. *)
Definition loss (m : AlignmentVAE) (logits : tensor3 R) (x y : tensor2 Z)
  (A : tensor3 R) (seq_mask_x seq_mask_y : tensor2 bool)
  (pa qa : distribution) (KL_multiplier : R) (reduction : string)
  : result loss_output :=
  let neg_log_py_xa := cross_entropy logits y (pad_idx m) in
  let log_py_xa :=
    T2 (rows2 neg_log_py_xa) (cols2 neg_log_py_xa)
       (fun b j => - at2 neg_log_py_xa b j) in
  KLcells ← kl_divergence ext qa pa;
  let KL := masked_KL seq_mask_x seq_mask_y KLcells in
  let loss0 :=
    T1 (rows2 neg_log_py_xa)
       (fun b => at1 (sum_last2 neg_log_py_xa) b + KL_multiplier * at1 KL b) in
  let ELBO :=
    T1 (size1 loss0)
       (fun b => - at1 loss0 b + KL_multiplier * at1 KL b - at1 KL b) in
  '(loss1, reward_sc, reward, normalized_reward) ←
    (if String.eqb (dist m) "bernoulli-RF" then
       match baselines m with
       | None => Raise (AttributeError "use_self_critic_cv")
       | Some s =>
           let reward := log_py_xa in
           let '(normalized_reward, reward_sc) :=
             control_variates m s x y qa reward in
           match numbers2 normalized_reward with
           | None =>
               (* a NaN reward makes the loss NaN; the reduction of that
                  loss raises on an unknown option all the same *)
               _ ← reduce reduction loss0; NotANumber
           | Some normalized_reward =>
               let log_qa_sample := sum_last3 (log_prob ext qa A) in
               let surrogate :=
                 sum_last2
                   (T2 (rows2 normalized_reward) (cols2 normalized_reward)
                       (fun b j => at2 normalized_reward b j
                                   * at2 log_qa_sample b j)) in
               Ok (T1 (size1 loss0)
                      (fun b => at1 loss0 b - at1 surrogate b),
                   reward_sc, Some reward, Some normalized_reward)
           end
       end
     else Ok (loss0, None, None, None));
  reduced ← reduce reduction loss1;
  Ok {| out_log_py_xa := log_py_xa;
        out_KL := KL;
        out_ELBO := ELBO;
        out_reward_sc := reward_sc;
        out_reward := reward;
        out_normalized_reward := normalized_reward;
        out_loss := reduced |}.

(** The [output_dict] of [ppo_loss]. *)
Record ppo_output : Type := {
  ppo_out_loss : tensor1 R;
  ppo_out_reward : tensor2 R;
  ppo_out_reward_sc : option (tensor2 R)
}.

(** Lines 338-342: the importance ratio and its clipped version. *)
Definition ppo_ratio (log_qa_new log_qa_init : tensor2 R) : tensor2 R :=
  T2 (rows2 log_qa_new) (cols2 log_qa_new)
     (fun b j => exp (at2 log_qa_new b j - at2 log_qa_init b j)).

Definition ppo_ratio_c (eps : R) (ratio : tensor2 R) : tensor2 R :=
  T2 (rows2 ratio) (cols2 ratio)
     (fun b j => clamp (1.0 - eps) (1.0 + eps) (at2 ratio b j)).

(** Line 370, first summand: [torch.max(-reward * ratio,
    -reward * ratio_c).mean()], a mean over every batch element and every
    target position. *)
Definition ppo_surrogate (reward ratio ratio_c : tensor2 R) : R :=
  mean2 (T2 (rows2 ratio) (cols2 ratio)
            (fun b j => Rmax (- at2 reward b j * at2 ratio b j)
                             (- at2 reward b j * at2 ratio_c b j))).

(** [AlignmentVAE.ppo_loss]; [reward] is [None] when the caller passes
    nothing.  A reward that the control variates make NaN makes the entries
    ["reward"] and ["loss"] of the dictionary NaN. *)
Definition ppo_loss (m : AlignmentVAE)
  (x : tensor2 Z) (seq_mask_x : tensor2 bool) (seq_len_x : tensor1 Z)
  (y : tensor2 Z) (seq_mask_y : tensor2 bool) (seq_len_y : tensor1 Z)
  (A : tensor3 R) (pa qa_init : distribution) (log_py_xa : tensor2 R)
  (eps KL_multiplier : R) (reward : option (tensor2 R))
  : result ppo_output :=
  let log_qa_init := sum_last3 (log_prob ext qa_init A) in
  qa_new ← approximate_posterior m x seq_mask_x seq_len_x
                                 y seq_mask_y seq_len_y;
  let log_qa_new := sum_last3 (log_prob ext qa_new A) in
  let ratio := ppo_ratio log_qa_new log_qa_init in
  let ratio_c := ppo_ratio_c eps ratio in
  '(reward, reward_sc) ←
    match reward with
    | Some r => Ok (Some r, None)
    | None =>
        match baselines m with
        | None => Raise (AttributeError "use_self_critic_cv")
        | Some s =>
            let '(reward, reward_sc) :=
              control_variates m s x y qa_new log_py_xa in
            Ok (numbers2 reward, reward_sc)
        end
    end;
  KLcells ← kl_divergence ext qa_new pa;
  let KL := masked_KL seq_mask_x seq_mask_y KLcells in
  match reward with
  | None => NotANumber
  | Some reward =>
      Ok {| ppo_out_loss :=
              T1 (size1 KL)
                 (fun b => ppo_surrogate reward ratio ratio_c
                           + at1 KL b * KL_multiplier);
            ppo_out_reward := reward;
            ppo_out_reward_sc := reward_sc |}
  end.

(** *** Validation: the alignment decision and the links
    ([alignments/alignmentvae_helper.py], [validate], lines 55-75) *)

(** The number of elements of the Python slice [t[:len]] of a sequence of
    [size] elements; a negative [len] counts from the end. *)
Definition slice_len (len : Z) (size : nat) : nat :=
  if (0 <=? len)%Z then Nat.min (Z.to_nat len) size
  else Z.to_nat (Z.max 0 (Z.of_nat size + len)).

(** Lines 55-65: the alignment matrix that validation decides on.  For the
    Bernoulli model types it is the rounded mean of the posterior; for
    ["hardkuma"] it compares the log-densities at one and at zero, on the
    shape of [qa.base.a]; every other model type is not implemented. *)
Definition decide_alignment (model_type : string) (qa : distribution)
  : result (tensor3 R) :=
  if str_in "bernoulli" model_type then
    Ok (map3 round_half_even (dist_mean ext qa))
  else if String.eqb model_type "hardkuma" then
    match qa with
    | HardKuma a _ _ _ =>
        let zeros := new_full (dim0 a) (dim1 a) (dim2 a) 0 in
        let ones := new_full (dim0 a) (dim1 a) (dim2 a) 1 in
        let p0 := log_prob ext qa zeros in
        let p1 := log_prob ext qa ones in
        Ok (T3 (dim0 a) (dim1 a) (dim2 a)
               (fun b j i =>
                  if Rgtb (at3 p1 b j i) (at3 p0 b j i) then 1 else 0))
    | _ => Raise (AttributeError "base")
    end
  else Raise NotImplementedError.

(** Lines 72-74: the inner loop over the first [nx] source positions of the
    target position with index [j]; links are 1-indexed. *)
Definition row_links (A : tensor3 R) (k j nx : nat)
  (links : gset (nat * nat)) : gset (nat * nat) :=
  foldl (fun acc i => if gt0 (at3 A k j i) then {[ (S i, S j) ]} ∪ acc
                      else acc)
        links (seq 0 nx).

(** Lines 70-74: the set of links of sentence pair [k]. *)
Definition sentence_links (A : tensor3 R) (k : nat) (len_x_k len_y_k : Z)
  : gset (nat * nat) :=
  foldl (fun acc j => row_links A k j (slice_len len_x_k (dim2 A)) acc)
        ∅ (seq 0 (slice_len len_y_k (dim1 A))).

(** Lines 69-75: one set of links per sentence pair of the batch, [zip]
    stopping at the shortest of its three arguments. *)
Definition batch_links (seq_len_x seq_len_y : tensor1 Z) (A : tensor3 R)
  : list (gset (nat * nat)) :=
  map (fun k => sentence_links A k (at1 seq_len_x k) (at1 seq_len_y k))
      (seq 0 (Nat.min (Nat.min (size1 seq_len_x) (size1 seq_len_y))
                      (dim0 A))).

(** *** Quantities named in the statements *)

(** The summed reconstruction negative log-likelihood of batch element
    [b] (line 296, [neg_log_py_xa.sum(dim=-1)]). *)
Definition nll_sum (m : AlignmentVAE) (logits : tensor3 R) (y : tensor2 Z)
  (b : nat) : R :=
  at1 (sum_last2 (cross_entropy logits y (pad_idx m))) b.

(** The REINFORCE surrogate of batch element [b] (line 316). *)
Definition reinforce_surrogate (m : AlignmentVAE) (s : RFState)
  (logits : tensor3 R) (x y : tensor2 Z) (A : tensor3 R) (qa : distribution)
  (b : nat) : R :=
  let ce := cross_entropy logits y (pad_idx m) in
  let reward := T2 (rows2 ce) (cols2 ce) (fun b j => - at2 ce b j) in
  let nr := fst (apply_control_variates m s x y qa reward) in
  sumn (cols2 nr)
       (fun j => at2 nr b j * at2 (sum_last3 (log_prob ext qa A)) b j).

(** The per-element loss of line 296, before any surrogate. *)
Definition elbo_loss (m : AlignmentVAE) (logits : tensor3 R) (y : tensor2 Z)
  (seq_mask_x seq_mask_y : tensor2 bool) (K : tensor3 R) (c : R)
  : tensor1 R :=
  T1 (rows2 y)
     (fun b => nll_sum m logits y b
               + c * at1 (masked_KL seq_mask_x seq_mask_y K) b).

(** The reward that [ppo_loss] uses: the one supplied, else the detached
    log-likelihood after the control variates. *)
Definition ppo_reward_used (m : AlignmentVAE) (s : option RFState)
  (x y : tensor2 Z) (qa_new : distribution) (log_py_xa : tensor2 R)
  (reward : option (tensor2 R)) : option (tensor2 R) :=
  match reward, s with
  | Some r, _ => Some r
  | None, Some s => Some (fst (apply_control_variates m s x y qa_new log_py_xa))
  | None, None => None
  end.

(** [n] successive calls of [update_baselines] with the same reward batch,
    as a training loop makes them (one per optimizer step). *)
Fixpoint update_baselines_n (n : nat) (m : AlignmentVAE)
  (new_reward : tensor2 R) (seq_len_y : tensor1 Z) : result AlignmentVAE :=
  match n with
  | O => Ok m
  | S k =>
      m' ← update_baselines m new_reward seq_len_y;
      update_baselines_n k m' new_reward seq_len_y
  end.

(** Successive calls of [update_baselines], one per reward batch. *)
Fixpoint update_baselines_all (m : AlignmentVAE)
  (batches : list (tensor2 R * tensor1 Z)) : result AlignmentVAE :=
  match batches with
  | [] => Ok m
  | (new_reward, seq_len_y) :: rest =>
      m' ← update_baselines m new_reward seq_len_y;
      update_baselines_all m' rest
  end.

(** The statistics of a reward batch on the real numbers: the
    length-normalised reward of batch element [b], the mean of these over
    the batch and their sample standard deviation. *)
Definition batch_reward (new_reward : tensor2 R) (seq_len_y : tensor1 Z)
  (b : nat) : R :=
  sumn (cols2 new_reward) (fun j => at2 new_reward b j)
  / IZR (at1 seq_len_y b).

Definition batch_mean (new_reward : tensor2 R) (seq_len_y : tensor1 Z) : R :=
  sumn (rows2 new_reward) (batch_reward new_reward seq_len_y)
  / INR (rows2 new_reward).

Definition batch_std (new_reward : tensor2 R) (seq_len_y : tensor1 Z) : R :=
  sqrt (sumn (rows2 new_reward)
             (fun b => (batch_reward new_reward seq_len_y b
                        - batch_mean new_reward seq_len_y)
                       * (batch_reward new_reward seq_len_y b
                          - batch_mean new_reward seq_len_y))
        / (INR (rows2 new_reward) - 1)).


(** ** Example inputs

    A batch of one sentence pair with one source and one target position, a
    model whose learned parameters are all zero, and an instance of the
    external operations.  The examples involve Bernoulli distributions only,
    for which the external operations are never called. *)

Definition example_tokens : tensor2 Z := T2 1 1 (fun _ _ => 0%Z).
Definition example_mask : tensor2 bool := T2 1 1 (fun _ _ => true).
Definition example_lengths : tensor1 Z := T1 1 (fun _ => 1%Z).

Definition example_rf : RFState :=
  {| avg_reward := 0;
     std_reward := 1;
     alpha := 0.05;
     use_mean_cv := false;
     use_std_cv := false;
     use_self_critic_cv := false |}.

(** The model that [__init__] builds for a Bernoulli [dist], with padding
    index 1, a target vocabulary of two words and zero weights. *)
Definition example_model (dist : string) (prior_params : R * R)
  : AlignmentVAE :=
  {| dist := dist;
     pooling := "avg";
     prior_params := prior_params;
     pad_idx := 1;
     emb_size := 1;
     tgt_vocab_size := 2;
     src_embedder := fun _ _ => 0;
     categorical_weight := fun _ _ => 0;
     categorical_bias := fun _ => 0;
     inf_network := {| inf_dist := dist;
                       attention_logits := fun x y =>
                         new_full (rows2 x) (cols2 y) (cols2 x) 0 |};
     baselines := if String.eqb dist "bernoulli-RF"
                  then Some (of_numbers example_rf) else None;
     hardkuma_prior_table := None |}.

(** The Bernoulli posterior with all logits zero and the Bernoulli prior
    with all probabilities one half, on a grid of one cell. *)
Definition example_qa : distribution :=
  BernoulliREINFORCE (Logits (new_full 1 1 1 0)).
Definition example_pa : distribution :=
  BernoulliREINFORCE (Probs (new_full 1 1 1 (1 / 2))).

(** A sentence pair with two source and two target positions, the second of
    each being padding: the second target token is the padding index. *)
Definition padded_tokens : tensor2 Z :=
  T2 1 2 (fun _ j => if Nat.eqb j 0 then 0%Z else 1%Z).
Definition padded_mask : tensor2 bool := T2 1 2 (fun _ i => Nat.eqb i 0).

(** A batch of two sentence pairs and a prior whose probabilities differ
    between the two. *)
Definition pair_tokens : tensor2 Z := T2 2 1 (fun _ _ => 0%Z).
Definition pair_mask : tensor2 bool := T2 2 1 (fun _ _ => true).
Definition pair_lengths : tensor1 Z := T1 2 (fun _ => 1%Z).
Definition pair_pa : distribution :=
  BernoulliREINFORCE
    (Probs (T3 2 1 1 (fun b _ _ => if Nat.eqb b 0 then 1 / 2 else 1 / 4))).

(** The ["hardkuma"] model holding a given prior table. *)
Definition example_hardkuma_model (tbl : gmap Z (R * R)) : AlignmentVAE :=
  {| dist := "hardkuma";
     pooling := "avg";
     prior_params := (1, 0);
     pad_idx := 1;
     emb_size := 1;
     tgt_vocab_size := 2;
     src_embedder := fun _ _ => 0;
     categorical_weight := fun _ _ => 0;
     categorical_bias := fun _ => 0;
     inf_network := {| inf_dist := "hardkuma";
                       attention_logits := fun x y =>
                         new_full (rows2 x) (cols2 y) (cols2 x) 0 |};
     baselines := None;
     hardkuma_prior_table := Some tbl |}.

(** Baselines with only the division by the standard deviation on. *)
Definition example_rf_std : RFState :=
  {| avg_reward := 0;
     std_reward := 3;
     alpha := 0.05;
     use_mean_cv := false;
     use_std_cv := true;
     use_self_critic_cv := false |}.

(** The ["bernoulli-RF"] model with those baselines. *)
Definition example_model_std : AlignmentVAE :=
  set_baselines (example_model "bernoulli-RF" (0, 1 / 2))
                (of_numbers example_rf_std) (Some 0) (Some 3).

(** The rewards 2 and 4 of a batch of two sentences with one target
    position each. *)
Definition pair_rewards : tensor2 R :=
  T2 2 1 (fun b _ => if Nat.eqb b 0 then 2 else 4).

(** An inference network of the Bernoulli-REINFORCE family whose scores are
    all equal. *)
Definition example_network (score : R) : InferenceNetwork :=
  {| inf_dist := "bernoulli-RF";
     attention_logits := fun x y =>
       new_full (rows2 x) (cols2 y) (cols2 x) score |}.

Definition example_ext : external_ops :=
  {| ext_log_prob := fun _ value => value;
     ext_mean := fun _ => new_full 0 0 0 0;
     ext_kl := fun _ _ => new_full 0 0 0 0 |}.

(** ** Properties *)

(** *** Comparisons and reductions *)

Lemma gt0_true (x : R) : 0 < x -> gt0 x = true.
Proof. intros H. unfold gt0. destruct (Rlt_dec 0 x); [reflexivity | lra]. Qed.

Lemma gt0_false (x : R) : x <= 0 -> gt0 x = false.
Proof. intros H. unfold gt0. destruct (Rlt_dec 0 x); [lra | reflexivity]. Qed.

Lemma Rgtb_true (x y : R) : y < x -> Rgtb x y = true.
Proof. intros H. unfold Rgtb. destruct (Rlt_dec y x); [reflexivity | lra]. Qed.

Lemma Rgtb_false (x y : R) : x <= y -> Rgtb x y = false.
Proof. intros H. unfold Rgtb. destruct (Rlt_dec y x); [lra | reflexivity]. Qed.

Lemma Rleb_true (x y : R) : x <= y -> Rleb x y = true.
Proof. intros H. unfold Rleb. destruct (Rle_dec x y); [reflexivity | lra]. Qed.

Lemma bind_Ok_inv {A B : Type} (r : result A) (k : A -> result B) (b : B) :
  r ≫= k = Ok b -> exists a, r = Ok a /\ k a = Ok b.
Proof.
  destruct r as [a|e|]; simpl; intros H; [|discriminate H..].
  exists a. split; [reflexivity | exact H].
Qed.

Lemma sumn_ext (n : nat) (f g : nat -> R) :
  (forall k, (k < n)%nat -> f k = g k) -> sumn n f = sumn n g.
Proof.
  induction n as [|n IH]; intros H; simpl; [reflexivity|].
  rewrite IH by (intros k Hk; apply H; lia).
  rewrite (H n) by lia. reflexivity.
Qed.

Lemma sumn_zero (n : nat) (f : nat -> R) :
  (forall k, (k < n)%nat -> f k = 0) -> sumn n f = 0.
Proof.
  induction n as [|n IH]; intros H; simpl; [reflexivity|].
  rewrite IH by (intros k Hk; apply H; lia).
  rewrite (H n) by lia. lra.
Qed.

Lemma sumn_plus (n : nat) (f g : nat -> R) :
  sumn n (fun k => f k + g k) = sumn n f + sumn n g.
Proof. induction n as [|n IH]; simpl; [lra | rewrite IH; lra]. Qed.

Lemma sumn_scal (n : nat) (c : R) (f : nat -> R) :
  sumn n (fun k => c * f k) = c * sumn n f.
Proof. induction n as [|n IH]; simpl; [lra | rewrite IH; lra]. Qed.

(** *** The target zero-probability *)

Lemma p0_monotone (L1 L2 : Z) :
  -1 <= epsilon -> (1 <= L1)%Z -> (L1 < L2)%Z -> p0 L1 <= p0 L2.
Proof.
  intros He H1 H12. unfold p0.
  assert (HL1 : 1 <= IZR L1) by (apply IZR_le in H1; exact H1).
  assert (HL12 : IZR L1 < IZR L2) by (apply IZR_lt; exact H12).
  assert (Hq : (1 + epsilon) / (IZR L2 + 1) <= (1 + epsilon) / (IZR L1 + 1)).
  { unfold Rdiv. apply Rmult_le_compat_l; [lra|].
    apply Rinv_le_contravar; lra. }
  apply Rplus_le_compat_l, Ropp_le_contravar.
  apply Rle_min_compat_r. exact Hq.
Qed.

Lemma p0_strict_1_2 : 0 <= epsilon -> epsilon <= 1 / 3 -> p0 1 < p0 2.
Proof.
  intros H0 H1. unfold p0.
  rewrite Rmin_left by lra. rewrite Rmin_left by lra. lra.
Qed.

(** C2 (amended).  The target zero-probability of the prior table is
    [p0 length = 1 - min ((1 + epsilon) / (length + 1)) (1 - epsilon)], and
    for a stabiliser [epsilon >= -1] it does not decrease as sentences
    lengthen: [p0 L1 <= p0 L2] for all lengths [1 <= L1 < L2]. *)
Theorem c2_p0_nondecreasing (L1 L2 : Z) :
  -1 <= epsilon -> (1 <= L1)%Z -> (L1 < L2)%Z ->
  p0 L1 = 1 - Rmin ((1 + epsilon) / (IZR L1 + 1)) (1 - epsilon) /\
  p0 L2 = 1 - Rmin ((1 + epsilon) / (IZR L2 + 1)) (1 - epsilon) /\
  p0 L1 <= p0 L2.
Proof.
  intros He H1 H12. split; [reflexivity|]. split; [reflexivity|].
  apply p0_monotone; assumption.
Qed.

(** *** The prior table *)

Lemma insert_by_a_Forall (P : candidate -> Prop) (c : candidate)
  (l : list candidate) :
  P c -> Forall P l -> Forall P (insert_by_a c l).
Proof.
  intros Hc Hl. induction Hl as [|d l Hd Hl IH]; simpl.
  - constructor; [exact Hc | constructor].
  - destruct (Rgtb (cand_a d) (cand_a c)).
    + constructor; [exact Hc|]. constructor; assumption.
    + constructor; assumption.
Qed.

Lemma insert_by_a_length (c : candidate) (l : list candidate) :
  length (insert_by_a c l) = S (length l).
Proof.
  induction l as [|d l IH]; simpl; [reflexivity|].
  destruct (Rgtb (cand_a d) (cand_a c)); simpl; [reflexivity|].
  rewrite IH. reflexivity.
Qed.

Lemma sorted_by_a_Forall (P : candidate -> Prop) (l : list candidate) :
  Forall P l -> Forall P (sorted_by_a l).
Proof.
  intros Hl. unfold sorted_by_a.
  assert (Hr : Forall P (rev l)) by (apply Forall_rev; exact Hl).
  induction Hr as [|c r Hc Hr IH]; simpl; [constructor|].
  apply insert_by_a_Forall; assumption.
Qed.

Lemma sorted_by_a_length (l : list candidate) :
  length (sorted_by_a l) = length l.
Proof.
  unfold sorted_by_a. rewrite <- (length_rev l).
  induction (rev l) as [|c r IH]; simpl; [reflexivity|].
  rewrite insert_by_a_length, IH. reflexivity.
Qed.

Lemma kuma_priors_length (l r : R) (N : nat) :
  length (kuma_priors l r N) = N.
Proof.
  unfold kuma_priors, linspace.
  rewrite sorted_by_a_length, !length_map, length_seq. reflexivity.
Qed.

Lemma kuma_priors_b (l r : R) (N : nat) :
  Forall (fun c => cand_b c = 1) (kuma_priors l r N).
Proof.
  unfold kuma_priors. apply sorted_by_a_Forall.
  apply Forall_map. apply Forall_forall. intros a _. reflexivity.
Qed.

(** The scan stops on a candidate of the list, or keeps what it had. *)
Lemma scan_result (p : R) (rest : list candidate) :
  forall cdf0 cur ab,
    scan p cdf0 cur rest = Some ab ->
    cur = Some ab \/ exists c, In c rest /\ ab = (cand_a c, cand_b c).
Proof.
  induction rest as [|c rest IH]; intros cdf0 cur ab H; simpl in H.
  - left. exact H.
  - destruct (match cdf0 with None => true | Some v => Rgtb v p end).
    + apply IH in H. destruct H as [H | (d & Hd & Hab)].
      * right. exists c. split; [left; reflexivity|]. congruence.
      * right. exists d. split; [right; exact Hd | exact Hab].
    + left. exact H.
Qed.

(** From [float("inf")] the loop body runs at least once. *)
Lemma scan_inf_some (p : R) (cur : option (R * R)) (rest : list candidate) :
  rest <> [] -> exists ab, scan p None cur rest = Some ab.
Proof.
  destruct rest as [|c rest]; intros Hne; [congruence|]. simpl.
  clear Hne. generalize (Some (cand_cdf0 c)) as cdf0.
  generalize (cand_a c, cand_b c) as ab.
  induction rest as [|d rest IH]; intros ab cdf0; simpl.
  - exists ab. reflexivity.
  - destruct (match cdf0 with None => true | Some v => Rgtb v p end).
    + apply IH.
    + exists ab. reflexivity.
Qed.

(** When no candidate brings the cumulative at zero down to [p], the scan
    ends on the last candidate. *)
Lemma scan_exhausted (p : R) (rest : list candidate) :
  forall cdf0 cur,
    match cdf0 with None => True | Some v => p < v end ->
    Forall (fun c => p < cand_cdf0 c) rest ->
    scan p cdf0 cur rest =
      match last rest with
      | Some c => Some (cand_a c, cand_b c)
      | None => cur
      end.
Proof.
  induction rest as [|c rest IH]; intros cdf0 cur Hcdf Hall; simpl.
  - reflexivity.
  - inversion Hall as [|c' rest' Hc Hrest]; subst.
    replace (match cdf0 with None => true | Some v => Rgtb v p end)
      with true
      by (destruct cdf0 as [v|]; [symmetry; apply Rgtb_true; exact Hcdf
                                 | reflexivity]).
    rewrite IH by assumption.
    destruct rest as [|d rest]; [reflexivity|].
    change (last (c :: d :: rest)) with (last (d :: rest)).
    destruct (last (d :: rest)) eqn:Hl; [reflexivity|].
    apply last_None in Hl. discriminate Hl.
Qed.

Lemma In_range (lo hi L : Z) : In L (range lo hi) <-> (lo <= L < hi)%Z.
Proof.
  unfold range. rewrite in_map_iff. split.
  - intros (k & Hk & Hin). apply in_seq in Hin. lia.
  - intros H. exists (Z.to_nat (L - lo)). split; [lia|].
    apply in_seq. lia.
Qed.

(** The table after the [for] loop over [lengths]: every length of the loop
    holds the outcome of its scan, every other key is untouched. *)
Lemma tabulate_spec (priors : list candidate) (lengths : list Z) :
  priors <> [] ->
  forall tbl, exists tbl',
    tabulate priors tbl lengths = Ok tbl' /\
    (forall L, In L lengths ->
               tbl' !! L = scan (p0 L) None None priors) /\
    (forall L, ~ In L lengths -> tbl' !! L = tbl !! L).
Proof.
  intros Hne. induction lengths as [|len rest IH]; intros tbl; simpl.
  - exists tbl. split; [reflexivity|]. split; [intros L []|reflexivity].
  - unfold tabulate_length.
    destruct (scan_inf_some (p0 len) None priors Hne) as (ab & Hab).
    rewrite Hab. simpl.
    destruct (IH (<[len := ab]> tbl)) as (tbl' & Htab & Hin & Hout).
    exists tbl'. split; [exact Htab|]. split.
    + intros L HL. destruct (in_dec Z.eq_dec L rest) as [Hr|Hr].
      * apply Hin. exact Hr.
      * destruct HL as [-> | HL]; [|contradiction].
        rewrite Hout by exact Hr. rewrite lookup_insert_eq. congruence.
    + intros L HL. rewrite Hout by tauto.
      apply lookup_insert_ne. tauto.
Qed.

(** C6.  With at least one candidate ([N >= 1]; the constructor uses
    [N = 10000]) the prior table is built without an exception; it holds an
    entry for every length of [1, M], and only for those; the second
    component of every entry is exactly 1; and for a length whose target [p0]
    lies below the cumulative at zero of every candidate, the entry is the
    last candidate's [(a, b)]. *)
Theorem c6_prior_table_complete (prior_param_1 : R) (M : Z) (l r : R)
  (N : nat) :
  (0 < N)%nat ->
  exists tbl : gmap Z (R * R),
    _create_hardkuma_prior_table prior_param_1 M l r N = Ok tbl /\
    (forall L, (1 <= L <= M)%Z -> exists a, tbl !! L = Some (a, 1)) /\
    (forall L, ~ (1 <= L <= M)%Z -> tbl !! L = None) /\
    (forall L, (1 <= L <= M)%Z ->
       Forall (fun c => p0 L < cand_cdf0 c) (kuma_priors l r N) ->
       exists c, last (kuma_priors l r N) = Some c /\
                 tbl !! L = Some (cand_a c, cand_b c)).
Proof.
  intros HN.
  assert (Hne : kuma_priors l r N <> []).
  { intros Heq. pose proof (kuma_priors_length l r N) as Hlen.
    rewrite Heq in Hlen. simpl in Hlen. lia. }
  unfold _create_hardkuma_prior_table.
  destruct (tabulate_spec (kuma_priors l r N) (range 1 (M + 1)) Hne ∅)
    as (tbl & Htab & Hin & Hout).
  exists tbl. split; [exact Htab|]. repeat split.
  - intros L HL.
    assert (HinL : In L (range 1 (M + 1))) by (apply In_range; lia).
    rewrite (Hin L HinL).
    destruct (scan_inf_some (p0 L) None (kuma_priors l r N) Hne)
      as ([a b] & Hab).
    rewrite Hab. exists a.
    apply scan_result in Hab. destruct Hab as [Hab | (c & Hc & Hab)];
      [discriminate|].
    pose proof (kuma_priors_b l r N) as Hb.
    rewrite Forall_forall in Hb.
    specialize (Hb c (proj2 (list_elem_of_In _ _) Hc)).
    inversion Hab; subst. rewrite Hb. reflexivity.
  - intros L HL. rewrite Hout; [apply lookup_empty|].
    rewrite In_range. lia.
  - intros L HL Hall.
    assert (HinL : In L (range 1 (M + 1))) by (apply In_range; lia).
    rewrite (Hin L HinL).
    rewrite (scan_exhausted (p0 L) (kuma_priors l r N) None None I Hall).
    destruct (last (kuma_priors l r N)) as [c|] eqn:Hl.
    + exists c. split; reflexivity.
    + apply last_None in Hl. contradiction.
Qed.

(** *** The constructors of the posterior and of the prior *)

Lemma str_mem_cases3 (s a b c : string) :
  str_mem s [a; b; c] = true -> s = a \/ s = b \/ s = c.
Proof.
  unfold str_mem. simpl. rewrite !orb_true_iff, !String.eqb_eq.
  intros [H | [H | [H | H]]]; auto. discriminate H.
Qed.

Lemma str_mem_cases2 (s a b : string) :
  str_mem s [a; b] = true -> s = a \/ s = b.
Proof.
  unfold str_mem. simpl. rewrite !orb_true_iff, !String.eqb_eq.
  intros [H | [H | H]]; auto. discriminate H.
Qed.

(** C9.  The inference network of a bounded family (["kuma"] or
    ["hardkuma"]) raises [NotImplementedError] instead of returning a
    posterior, and the prior of the ["concrete"] family raises
    [NotImplementedError] instead of returning a prior. *)
Theorem c9_unsupported_paths_raise (net : InferenceNetwork) (m : AlignmentVAE)
  (x : tensor2 Z) (seq_mask_x : tensor2 bool) (seq_len_x : tensor1 Z)
  (y : tensor2 Z) (seq_mask_y : tensor2 bool) (seq_len_y : tensor1 Z) :
  (inf_dist net = "kuma" \/ inf_dist net = "hardkuma" ->
   InferenceNetwork_forward net x seq_mask_x seq_len_x y seq_mask_y seq_len_y
   = Raise NotImplementedError) /\
  (dist m = "concrete" ->
   prior m seq_mask_x seq_len_x seq_mask_y = Raise NotImplementedError).
Proof.
  split.
  - intros [H | H]; unfold InferenceNetwork_forward; rewrite H; reflexivity.
  - intros H. unfold prior. rewrite H.
    destruct (prior_params m) as [p1 p2]. reflexivity.
Qed.

Lemma Rmin_clamp_max (x : R) : clamp_max (1 - 0.01) x = Rmin x 0.99.
Proof. unfold clamp_max. f_equal. lra. Qed.

(** The three cases of the Bernoulli branch of [prior] (lines 150-161). *)
Lemma prior_bernoulli_cases (m : AlignmentVAE) (seq_mask_x : tensor2 bool)
  (seq_len_x : tensor1 Z) (seq_mask_y : tensor2 bool) (p1 p2 : R) :
  str_in "bernoulli" (dist m) = true ->
  prior_params m = (p1, p2) ->
  (0 < p1 ->
   exists probs,
     prior m seq_mask_x seq_len_x seq_mask_y
       = (pa ← BernoulliREINFORCE_new (Probs probs); Ok (Some pa)) /\
     dim0 probs = rows2 seq_mask_x /\
     dim1 probs = cols2 seq_mask_y /\
     dim2 probs = cols2 seq_mask_x /\
     forall b j i,
       at3 probs b j i
       = Rmin (p1 * (float_of_bool (at2 seq_mask_x b i) + epsilon)
               / (IZR (at1 seq_len_x b) + 1)) 0.99) /\
  (p1 <= 0 -> 0 < p2 ->
   exists probs,
     prior m seq_mask_x seq_len_x seq_mask_y
       = (pa ← BernoulliREINFORCE_new (Probs probs); Ok (Some pa)) /\
     dim0 probs = rows2 seq_mask_x /\
     dim1 probs = cols2 seq_mask_y /\
     dim2 probs = cols2 seq_mask_x /\
     forall b j i, at3 probs b j i = p2) /\
  (p1 <= 0 -> p2 <= 0 ->
   prior m seq_mask_x seq_len_x seq_mask_y
     = Raise (Exception "Invalid prior params for Bernoulli")).
Proof.
  intros Hb Hp. unfold prior. rewrite Hp, Hb. unfold bernoulli_prior_probs.
  split; [|split].
  - intros H1. rewrite (gt0_true p1 H1). eexists. split; [reflexivity|].
    simpl. repeat split. intros b j i. apply Rmin_clamp_max.
  - intros H1 H2. rewrite (gt0_false p1 H1), (gt0_true p2 H2).
    eexists. split; [reflexivity|]. simpl. repeat split.
  - intros H1 H2. rewrite (gt0_false p1 H1), (gt0_false p2 H2). reflexivity.
Qed.

Lemma unit_interval_intro (t : tensor3 R) :
  (forall b j i, (b < dim0 t)%nat -> (j < dim1 t)%nat -> (i < dim2 t)%nat ->
                 0 <= at3 t b j i <= 1) ->
  unit_interval t = true.
Proof.
  intros H. unfold unit_interval.
  apply forallb_forall. intros b Hb. apply in_seq in Hb.
  apply forallb_forall. intros j Hj. apply in_seq in Hj.
  apply forallb_forall. intros i Hi. apply in_seq in Hi.
  destruct (H b j i) as [H0 H1]; try lia.
  rewrite (Rleb_true _ _ H0), (Rleb_true _ _ H1). reflexivity.
Qed.

(** With a non-negative stabiliser and non-negative lengths the length-scaled
    probabilities pass the validation of the constructor, so that [prior]
    returns the distribution. *)
Lemma prior_bernoulli_length_scaled_ok (m : AlignmentVAE)
  (seq_mask_x : tensor2 bool) (seq_len_x : tensor1 Z)
  (seq_mask_y : tensor2 bool) (p1 p2 : R) :
  str_in "bernoulli" (dist m) = true ->
  prior_params m = (p1, p2) ->
  0 < p1 -> 0 <= epsilon ->
  (forall b, (b < rows2 seq_mask_x)%nat -> (0 <= at1 seq_len_x b)%Z) ->
  exists probs,
    prior m seq_mask_x seq_len_x seq_mask_y
      = Ok (Some (BernoulliREINFORCE (Probs probs))) /\
    forall b j i,
      at3 probs b j i
      = Rmin (p1 * (float_of_bool (at2 seq_mask_x b i) + epsilon)
              / (IZR (at1 seq_len_x b) + 1)) 0.99.
Proof.
  intros Hb Hp H1 He Hlen.
  destruct (prior_bernoulli_cases m seq_mask_x seq_len_x seq_mask_y p1 p2 Hb Hp)
    as [Hcase _].
  destruct (Hcase H1) as (probs & Hprior & Hd0 & Hd1 & Hd2 & Hcell).
  exists probs. split; [|exact Hcell].
  rewrite Hprior. unfold BernoulliREINFORCE_new, validate_bern.
  rewrite unit_interval_intro; [reflexivity|].
  intros b j i Hb0 Hj Hi. rewrite Hcell.
  assert (Hl : 0 <= IZR (at1 seq_len_x b)).
  { apply IZR_le. apply Hlen. rewrite <- Hd0. exact Hb0. }
  assert (Hf : 0 <= float_of_bool (at2 seq_mask_x b i))
    by (unfold float_of_bool; destruct (at2 seq_mask_x b i); lra).
  assert (Hq : 0 <= p1 * (float_of_bool (at2 seq_mask_x b i) + epsilon)
                    / (IZR (at1 seq_len_x b) + 1)).
  { apply Rmult_le_pos; [nra|]. apply Rlt_le, Rinv_0_lt_compat. lra. }
  split.
  - apply Rmin_glb; lra.
  - eapply Rle_trans; [apply Rmin_r | lra].
Qed.

(** C7.  For a Bernoulli configuration, [prior] passes to the Bernoulli
    constructor a tensor of shape [B, T_y, T_x] whose cells are:
    [prior_param_1 * (mask + epsilon) / (length + 1)] clamped to at most
    0.99, the same for every target position, when [prior_param_1 > 0];
    [prior_param_2] everywhere when [prior_param_1 <= 0 < prior_param_2];
    and it raises when neither parameter is positive. *)
Theorem c7_bernoulli_prior (m : AlignmentVAE) (seq_mask_x : tensor2 bool)
  (seq_len_x : tensor1 Z) (seq_mask_y : tensor2 bool) (p1 p2 : R) :
  str_in "bernoulli" (dist m) = true ->
  prior_params m = (p1, p2) ->
  (0 < p1 ->
   exists probs,
     prior m seq_mask_x seq_len_x seq_mask_y
       = (pa ← BernoulliREINFORCE_new (Probs probs); Ok (Some pa)) /\
     dim0 probs = rows2 seq_mask_x /\
     dim1 probs = cols2 seq_mask_y /\
     dim2 probs = cols2 seq_mask_x /\
     forall b j i,
       at3 probs b j i
       = Rmin (p1 * (float_of_bool (at2 seq_mask_x b i) + epsilon)
               / (IZR (at1 seq_len_x b) + 1)) 0.99) /\
  (p1 <= 0 -> 0 < p2 ->
   exists probs,
     prior m seq_mask_x seq_len_x seq_mask_y
       = (pa ← BernoulliREINFORCE_new (Probs probs); Ok (Some pa)) /\
     dim0 probs = rows2 seq_mask_x /\
     dim1 probs = cols2 seq_mask_y /\
     dim2 probs = cols2 seq_mask_x /\
     forall b j i, at3 probs b j i = p2) /\
  (p1 <= 0 -> p2 <= 0 ->
   prior m seq_mask_x seq_len_x seq_mask_y
     = Raise (Exception "Invalid prior params for Bernoulli")).
Proof. apply prior_bernoulli_cases. Qed.

(** *** Families of the prior and of the posterior *)

Lemma kl_divergence_mismatch (q p : distribution) :
  family_of q <> family_of p -> kl_divergence ext q p = Raise NotImplementedError.
Proof.
  intros H. destruct q, p; simpl in *;
    first [ reflexivity
          | exfalso; apply H; reflexivity
          | match goal with
            | |- context [decide ?P] =>
                destruct (decide P) as [Heq | _];
                [exfalso; apply H; exact Heq | reflexivity]
            end ].
Qed.

Lemma kl_divergence_bernoulli (q p : distribution) :
  family_of q = FBernoulli -> family_of p = FBernoulli ->
  exists KL, kl_divergence ext q p = Ok KL.
Proof.
  intros Hq Hp. destruct q, p; try discriminate Hq; try discriminate Hp;
    simpl; eexists; reflexivity.
Qed.

Lemma BernoulliREINFORCE_new_variant (p : bern_param) (d : distribution) :
  BernoulliREINFORCE_new p = Ok d -> variant_of d = VBernoulliREINFORCE.
Proof.
  unfold BernoulliREINFORCE_new. destruct (validate_bern p); simpl;
    intros H; inversion H. reflexivity.
Qed.

Lemma BernoulliStraightThrough_new_variant (p : bern_param)
  (d : distribution) :
  BernoulliStraightThrough_new p = Ok d ->
  variant_of d = VBernoulliStraightThrough.
Proof.
  unfold BernoulliStraightThrough_new. destruct (validate_bern p); simpl;
    intros H; inversion H. reflexivity.
Qed.

(** A posterior exists for three values of [dist] only. *)
Lemma posterior_variant (net : InferenceNetwork)
  (x : tensor2 Z) (seq_mask_x : tensor2 bool) (seq_len_x : tensor1 Z)
  (y : tensor2 Z) (seq_mask_y : tensor2 bool) (seq_len_y : tensor1 Z)
  (qa : distribution) :
  InferenceNetwork_forward net x seq_mask_x seq_len_x y seq_mask_y seq_len_y
  = Ok qa ->
  (inf_dist net = "bernoulli-RF" /\ variant_of qa = VBernoulliREINFORCE) \/
  (inf_dist net = "bernoulli-ST" /\
   variant_of qa = VBernoulliStraightThrough) \/
  (inf_dist net = "concrete" /\ variant_of qa = VBinaryConcrete).
Proof.
  unfold InferenceNetwork_forward.
  destruct (str_mem (inf_dist net) ["bernoulli-RF"; "bernoulli-ST"; "concrete"])
    eqn:Hmem.
  - apply str_mem_cases3 in Hmem. destruct Hmem as [H | [H | H]];
      rewrite H; simpl; intros Hq.
    + left. split; [reflexivity|].
      eapply BernoulliREINFORCE_new_variant. exact Hq.
    + right; left. split; [reflexivity|].
      eapply BernoulliStraightThrough_new_variant. exact Hq.
    + right; right. split; [reflexivity|]. inversion Hq. reflexivity.
  - destruct (str_mem (inf_dist net) ["kuma"; "hardkuma"]); discriminate.
Qed.

(** Whatever the Bernoulli configuration, the prior is a
    [BernoulliREINFORCE]. *)
Lemma prior_bernoulli_variant (m : AlignmentVAE) (seq_mask_x : tensor2 bool)
  (seq_len_x : tensor1 Z) (seq_mask_y : tensor2 bool) (pa : distribution) :
  str_in "bernoulli" (dist m) = true ->
  prior m seq_mask_x seq_len_x seq_mask_y = Ok (Some pa) ->
  variant_of pa = VBernoulliREINFORCE.
Proof.
  intros Hb. unfold prior. destruct (prior_params m) as [p1 p2]. rewrite Hb.
  destruct (bernoulli_prior_probs p1 p2 seq_mask_x seq_len_x seq_mask_y)
    as [probs|e|]; simpl; [|discriminate..].
  destruct (BernoulliREINFORCE_new (Probs probs)) as [d|e|] eqn:Hnew; simpl;
    [|discriminate..].
  intros H. inversion H; subst.
  eapply BernoulliREINFORCE_new_variant. exact Hnew.
Qed.

(** C1 (amended).  The KL term of [loss] between a posterior and a prior of
    different families raises [NotImplementedError] instead of returning a
    number.  For every configuration in which the inference network and
    [prior] both return a distribution, [dist] is ["bernoulli-RF"] or
    ["bernoulli-ST"], the two distributions are of the same family
    (Bernoulli), so that their KL is computed, and the prior is always a
    [BernoulliREINFORCE]: its variant is that of the posterior for
    ["bernoulli-RF"] only. *)
Theorem c1_prior_posterior_same_family (m : AlignmentVAE)
  (x : tensor2 Z) (seq_mask_x : tensor2 bool) (seq_len_x : tensor1 Z)
  (y : tensor2 Z) (seq_mask_y : tensor2 bool) (seq_len_y : tensor1 Z)
  (qa pa : distribution) :
  inf_dist (inf_network m) = dist m ->
  approximate_posterior m x seq_mask_x seq_len_x y seq_mask_y seq_len_y
  = Ok qa ->
  prior m seq_mask_x seq_len_x seq_mask_y = Ok (Some pa) ->
  (dist m = "bernoulli-RF" \/ dist m = "bernoulli-ST") /\
  variant_of pa = VBernoulliREINFORCE /\
  family_of qa = family_of pa /\
  (variant_of qa = variant_of pa <-> dist m = "bernoulli-RF") /\
  (exists KL, kl_divergence ext qa pa = Ok KL) /\
  (forall (q p : distribution) logits A KL_multiplier reduction,
     family_of q <> family_of p ->
     loss m logits x y A seq_mask_x seq_mask_y p q KL_multiplier reduction
     = Raise NotImplementedError).
Proof.
  intros Hinf Hq Hp. unfold approximate_posterior in Hq.
  apply posterior_variant in Hq. rewrite Hinf in Hq.
  assert (Hcases :
            (dist m = "bernoulli-RF" /\ variant_of qa = VBernoulliREINFORCE) \/
            (dist m = "bernoulli-ST" /\
             variant_of qa = VBernoulliStraightThrough)).
  { destruct Hq as [H | [H | [Hd _]]]; [left; exact H | right; exact H |].
    exfalso. unfold prior in Hp. rewrite Hd in Hp.
    destruct (prior_params m). discriminate Hp. }
  assert (Hpa : variant_of pa = VBernoulliREINFORCE).
  { apply (prior_bernoulli_variant m seq_mask_x seq_len_x seq_mask_y);
      [|exact Hp].
    destruct Hcases as [[Hd _] | [Hd _]]; rewrite Hd; reflexivity. }
  assert (Hfq : family_of qa = FBernoulli).
  { unfold family_of. destruct Hcases as [[_ Hv] | [_ Hv]]; rewrite Hv;
      reflexivity. }
  assert (Hfp : family_of pa = FBernoulli)
    by (unfold family_of; rewrite Hpa; reflexivity).
  split; [tauto|]. split; [exact Hpa|]. split; [congruence|].
  split; [|split].
  - rewrite Hpa. destruct Hcases as [[Hd Hv] | [Hd Hv]]; rewrite Hv, Hd.
    + split; reflexivity.
    + split; discriminate.
  - apply kl_divergence_bernoulli; assumption.
  - intros q p logits A c reduction Hne. unfold loss.
    rewrite (kl_divergence_mismatch q p Hne). reflexivity.
Qed.

(** *** The running baselines *)

Lemma Rabs_contract (d : R) : Rabs (0.95 * d) <= Rabs d.
Proof.
  rewrite Rabs_mult. rewrite (Rabs_pos_eq 0.95) by lra.
  pose proof (Rabs_pos d). lra.
Qed.

Lemma fsumn_numbers (n : nat) (f : nat -> option R) (g : nat -> R) :
  (forall k, (k < n)%nat -> f k = Some (g k)) -> fsumn n f = Some (sumn n g).
Proof.
  induction n as [|n IH]; intros H; simpl; [reflexivity|].
  rewrite IH by (intros k Hk; apply H; lia).
  rewrite (H n) by lia. reflexivity.
Qed.

Lemma fsumn_none (n k : nat) (f : nat -> option R) :
  (k < n)%nat -> f k = None -> fsumn n f = None.
Proof.
  induction n as [|n IH]; intros Hk Hf; [lia|]. simpl.
  destruct (Nat.eq_dec k n) as [-> | Hne].
  - rewrite Hf. destruct (fsumn n f); reflexivity.
  - rewrite IH by (assumption || lia). reflexivity.
Qed.

Lemma fmean1_numbers (t : tensor1 (option R)) (g : nat -> R) :
  (0 < size1 t)%nat ->
  (forall b, (b < size1 t)%nat -> at1 t b = Some (g b)) ->
  fmean1 t = Some (sumn (size1 t) g / INR (size1 t)).
Proof.
  intros Hn Hg. unfold fmean1. rewrite (fsumn_numbers _ _ g Hg). simpl.
  destruct (Nat.eqb_spec (size1 t) 0) as [H0 | _]; [lia | reflexivity].
Qed.

Lemma std1_numbers (t : tensor1 (option R)) (g : nat -> R) :
  (2 <= size1 t)%nat ->
  (forall b, (b < size1 t)%nat -> at1 t b = Some (g b)) ->
  std1 t
  = Some (sqrt (sumn (size1 t)
                     (fun b => (g b - sumn (size1 t) g / INR (size1 t))
                               * (g b - sumn (size1 t) g / INR (size1 t)))
                / (INR (size1 t) - 1))).
Proof.
  intros Hn Hg. unfold std1.
  rewrite (fmean1_numbers t g) by (assumption || lia). simpl.
  rewrite (fsumn_numbers _ _
             (fun b => (g b - sumn (size1 t) g / INR (size1 t))
                       * (g b - sumn (size1 t) g / INR (size1 t)))).
  - simpl. destruct (Nat.leb_spec (size1 t) 1) as [H1 | _];
      [lia | reflexivity].
  - intros b Hb. rewrite (Hg b Hb). reflexivity.
Qed.

(** On fewer than two elements the standard deviation is NaN. *)
Lemma std1_undefined (t : tensor1 (option R)) :
  (size1 t <= 1)%nat -> std1 t = None.
Proof.
  intros Hn. unfold std1.
  destruct (fmean1 t) as [mu|]; [|reflexivity]. simpl.
  destruct (fsumn _ _) as [sq|]; [|reflexivity]. simpl.
  destruct (Nat.leb_spec (size1 t) 1) as [_ | H1]; [reflexivity | lia].
Qed.

Lemma smoothed_nan (a : R) (x : option R) : smoothed a x None = None.
Proof. unfold smoothed. destruct x; reflexivity. Qed.

Lemma length_normalized_numbers (new_reward : tensor2 R)
  (seq_len_y : tensor1 Z) (b : nat) :
  at1 seq_len_y b <> 0%Z ->
  at1 (length_normalized new_reward seq_len_y) b
  = Some (batch_reward new_reward seq_len_y b).
Proof.
  intros Hlen. simpl. apply Z.eqb_neq in Hlen. rewrite Hlen. reflexivity.
Qed.

Lemma to_numbers_of_numbers (s : RFState) : to_numbers (of_numbers s) = Some s.
Proof. destruct s. reflexivity. Qed.

(** Baselines that hold numbers are the baselines of the model. *)
Lemma rf_baselines (m : AlignmentVAE) (s : RFState) :
  rf m = Some s -> baselines m = Some (of_numbers s).
Proof.
  unfold rf. destruct (baselines m) as [[avg std a f1 f2 f3]|];
    [|discriminate].
  unfold to_numbers. simpl.
  destruct avg as [avg|]; [|discriminate].
  destruct std as [std|]; [|discriminate].
  simpl. intros H. inversion H; subst. reflexivity.
Qed.

Lemma baselines_rf (m : AlignmentVAE) (s : RFState) :
  baselines m = Some (of_numbers s) -> rf m = Some s.
Proof.
  intros H. unfold rf. rewrite H. simpl. apply to_numbers_of_numbers.
Qed.

(** The statistics of a batch whose target lengths are not zero. *)
Lemma fmean1_batch (new_reward : tensor2 R) (seq_len_y : tensor1 Z) :
  (1 <= rows2 new_reward)%nat ->
  (forall b, (b < rows2 new_reward)%nat -> at1 seq_len_y b <> 0%Z) ->
  fmean1 (length_normalized new_reward seq_len_y)
  = Some (batch_mean new_reward seq_len_y).
Proof.
  intros HB Hlen.
  apply (fmean1_numbers (length_normalized new_reward seq_len_y)
           (batch_reward new_reward seq_len_y) HB).
  intros b Hb. apply length_normalized_numbers, Hlen, Hb.
Qed.

Lemma std1_batch (new_reward : tensor2 R) (seq_len_y : tensor1 Z) :
  (2 <= rows2 new_reward)%nat ->
  (forall b, (b < rows2 new_reward)%nat -> at1 seq_len_y b <> 0%Z) ->
  std1 (length_normalized new_reward seq_len_y)
  = Some (batch_std new_reward seq_len_y).
Proof.
  intros HB Hlen.
  apply (std1_numbers (length_normalized new_reward seq_len_y)
           (batch_reward new_reward seq_len_y) HB).
  intros b Hb. apply length_normalized_numbers, Hlen, Hb.
Qed.

(** One call of [update_baselines] when [avg_reward] holds a number, for a
    batch of at least one sentence whose target lengths are not zero. *)
Lemma update_baselines_avg (m : AlignmentVAE) (s : Baselines) (avg : R)
  (new_reward : tensor2 R) (seq_len_y : tensor1 Z) :
  baselines m = Some s -> avg_reward s = Some avg ->
  (1 <= rows2 new_reward)%nat ->
  (forall b, (b < rows2 new_reward)%nat -> at1 seq_len_y b <> 0%Z) ->
  update_baselines m new_reward seq_len_y
  = Ok (set_baselines m s
          (Some (alpha s * batch_mean new_reward seq_len_y
                 + (1.0 - alpha s) * avg))
          (smoothed (alpha s) (std1 (length_normalized new_reward seq_len_y))
                    (std_reward s))).
Proof.
  intros Hs Havg HB Hlen. unfold update_baselines. rewrite Hs.
  rewrite (fmean1_batch new_reward seq_len_y HB Hlen), Havg. reflexivity.
Qed.

(** [update_baselines] keeps the model outside the two buffers, and a NaN
    buffer stays NaN. *)
Lemma update_baselines_frame (m m' : AlignmentVAE)
  (new_reward : tensor2 R) (seq_len_y : tensor1 Z) :
  update_baselines m new_reward seq_len_y = Ok m' ->
  exists s s',
    baselines m = Some s /\ baselines m' = Some s' /\
    dist m' = dist m /\ pad_idx m' = pad_idx m /\
    alpha s' = alpha s /\
    use_mean_cv s' = use_mean_cv s /\
    use_std_cv s' = use_std_cv s /\
    use_self_critic_cv s' = use_self_critic_cv s /\
    (avg_reward s = None -> avg_reward s' = None) /\
    (std_reward s = None -> std_reward s' = None).
Proof.
  unfold update_baselines.
  destruct (baselines m) as [s|]; [|discriminate].
  intros H. inversion H; subst m'; clear H.
  exists s. eexists. split; [reflexivity|]. split; [reflexivity|]. simpl.
  repeat (split; [reflexivity|]).
  split; intros ->; apply smoothed_nan.
Qed.

(** A model with baselines goes through any sequence of updates, and a NaN
    standard deviation stays NaN through all of them. *)
Lemma update_baselines_all_nan
  (batches : list (tensor2 R * tensor1 Z)) (m : AlignmentVAE) (s : Baselines) :
  baselines m = Some s -> std_reward s = None ->
  exists m' s',
    update_baselines_all m batches = Ok m' /\
    baselines m' = Some s' /\ std_reward s' = None /\
    dist m' = dist m /\ use_std_cv s' = use_std_cv s.
Proof.
  revert m s.
  induction batches as [|[new_reward seq_len_y] rest IH]; intros m s Hs Hnan.
  - exists m, s. simpl. repeat split; assumption || reflexivity.
  - simpl.
    destruct (update_baselines m new_reward seq_len_y) as [m1|e|] eqn:Hup;
      [|unfold update_baselines in Hup; rewrite Hs in Hup; discriminate Hup..].
    destruct (update_baselines_frame m m1 new_reward seq_len_y Hup)
      as (s0 & s1 & Hs0 & Hs1 & Hd & _ & _ & _ & Hflag & _ & _ & Hstd).
    rewrite Hs in Hs0. inversion Hs0; subst s0.
    destruct (IH m1 s1 Hs1 (Hstd Hnan))
      as (m' & s' & Hall & Hs' & Hn' & Hd' & Hf').
    exists m', s'. simpl. split; [exact Hall|]. split; [exact Hs'|].
    split; [exact Hn'|]. split; congruence.
Qed.

(** The constructor sets the smoothing factor of a ["bernoulli-RF"] model to
    0.05, and [update_baselines] keeps it. *)
Lemma init_alpha (d : string) pp sv vs es pad pool M cv1 cv2 cv3 emb w bias enc
  (m : AlignmentVAE) (s : Baselines) :
  AlignmentVAE_init d pp sv vs es pad pool M cv1 cv2 cv3 emb w bias enc
  = Ok m ->
  baselines m = Some s -> alpha s = 0.05.
Proof.
  unfold AlignmentVAE_init. intros H Hs.
  apply bind_Ok_inv in H. destruct H as (_ & _ & H).
  apply bind_Ok_inv in H. destruct H as (_ & _ & H).
  apply bind_Ok_inv in H. destruct H as (_ & _ & H).
  apply bind_Ok_inv in H. destruct H as (att & _ & H).
  apply bind_Ok_inv in H. destruct H as (tbl & _ & H).
  inversion H; subst; simpl in Hs.
  destruct (String.eqb d "bernoulli-RF"); [|discriminate].
  inversion Hs. reflexivity.
Qed.

(** C8.  On a model whose baselines hold numbers, with the smoothing factor
    0.05 of the constructor, and for a batch of at least one sentence whose
    target lengths are not zero: [update_baselines] replaces [avg_reward] by
    0.05 times the batch mean [mu] plus 0.95 times its previous value, where
    the mean is taken over the rewards of the batch elements, each summed
    over the target positions and divided by the target length; it replaces
    [std_reward] likewise with the sample standard deviation [sd] of these
    rewards when the batch holds at least two sentences, and by NaN when it
    holds one.  Two calls with the same reward batch bring [avg_reward]
    closer to the batch mean each time: the distance to the mean shrinks by
    the factor 0.95 and never increases. *)
Theorem c8_update_baselines_toward_mean (m : AlignmentVAE) (s : RFState)
  (new_reward : tensor2 R) (seq_len_y : tensor1 Z) :
  rf m = Some s -> alpha s = 0.05 ->
  (1 <= rows2 new_reward)%nat ->
  (forall b, (b < rows2 new_reward)%nat -> at1 seq_len_y b <> 0%Z) ->
  let B := rows2 new_reward in
  let r := fun b => sumn (cols2 new_reward) (fun j => at2 new_reward b j)
                    / IZR (at1 seq_len_y b) in
  let mu := sumn B r / INR B in
  let sd := sqrt (sumn B (fun b => (r b - mu) * (r b - mu)) / (INR B - 1)) in
  exists m1 s1 m2 s2 a1 a2,
    update_baselines m new_reward seq_len_y = Ok m1 /\
    baselines m1 = Some s1 /\
    avg_reward s1 = Some a1 /\
    a1 = 0.05 * mu + 0.95 * avg_reward s /\
    ((2 <= B)%nat ->
     std_reward s1 = Some (0.05 * sd + 0.95 * std_reward s)) /\
    (B = 1%nat -> std_reward s1 = None) /\
    update_baselines m1 new_reward seq_len_y = Ok m2 /\
    baselines m2 = Some s2 /\
    avg_reward s2 = Some a2 /\
    a2 = 0.05 * mu + 0.95 * a1 /\
    ((2 <= B)%nat ->
     std_reward s2
     = Some (0.05 * sd + 0.95 * (0.05 * sd + 0.95 * std_reward s))) /\
    (B = 1%nat -> std_reward s2 = None) /\
    a1 - mu = 0.95 * (avg_reward s - mu) /\
    a2 - mu = 0.95 * (a1 - mu) /\
    Rabs (a1 - mu) <= Rabs (avg_reward s - mu) /\
    Rabs (a2 - mu) <= Rabs (a1 - mu).
Proof.
  intros Hrf Halpha HB Hlen B r mu sd.
  assert (Hmu : batch_mean new_reward seq_len_y = mu) by reflexivity.
  assert (Hsd : batch_std new_reward seq_len_y = sd) by reflexivity.
  set (a1 := 0.05 * mu + 0.95 * avg_reward s).
  set (a2 := 0.05 * mu + 0.95 * a1).
  assert (E1 : a1 - mu = 0.95 * (avg_reward s - mu)) by (unfold a1; lra).
  assert (E2 : a2 - mu = 0.95 * (a1 - mu)) by (unfold a2; lra).
  set (d1 := smoothed 0.05 (std1 (length_normalized new_reward seq_len_y))
                      (Some (std_reward s))).
  set (d2 := smoothed 0.05 (std1 (length_normalized new_reward seq_len_y))
                      d1).
  set (s1 := {| avg_reward := Some a1; std_reward := d1; alpha := 0.05;
                use_mean_cv := use_mean_cv s;
                use_std_cv := use_std_cv s;
                use_self_critic_cv := use_self_critic_cv s |}).
  set (s2 := {| avg_reward := Some a2; std_reward := d2; alpha := 0.05;
                use_mean_cv := use_mean_cv s;
                use_std_cv := use_std_cv s;
                use_self_critic_cv := use_self_critic_cv s |}).
  set (m1 := set_baselines m (of_numbers s) (Some a1) d1).
  set (m2 := set_baselines m1 s1 (Some a2) d2).
  assert (H1 : update_baselines m new_reward seq_len_y = Ok m1).
  { rewrite (update_baselines_avg m (of_numbers s) (avg_reward s)
               new_reward seq_len_y (rf_baselines m s Hrf) eq_refl HB Hlen).
    simpl alpha. simpl std_reward. rewrite Halpha, Hmu.
    unfold m1, d1, a1. do 3 f_equal. lra. }
  assert (Hs1 : baselines m1 = Some s1).
  { unfold m1, s1. simpl. rewrite Halpha. reflexivity. }
  assert (H2 : update_baselines m1 new_reward seq_len_y = Ok m2).
  { rewrite (update_baselines_avg m1 s1 a1 new_reward seq_len_y
               Hs1 eq_refl HB Hlen).
    simpl alpha. simpl std_reward. rewrite Hmu.
    unfold m2, d2, a2. do 3 f_equal. lra. }
  assert (Hs2 : baselines m2 = Some s2) by reflexivity.
  assert (Hd1 : (2 <= B)%nat -> d1 = Some (0.05 * sd + 0.95 * std_reward s)).
  { intros H. unfold d1.
    rewrite (std1_batch new_reward seq_len_y H Hlen), Hsd.
    simpl. f_equal. lra. }
  assert (Hn1 : B = 1%nat -> d1 = None).
  { intros H. unfold d1.
    rewrite (std1_undefined (length_normalized new_reward seq_len_y))
      by (simpl; fold B; lia).
    reflexivity. }
  exists m1, s1, m2, s2, a1, a2.
  split; [exact H1|]. split; [exact Hs1|].
  split; [reflexivity|]. split; [reflexivity|].
  split; [exact Hd1|]. split; [exact Hn1|].
  split; [exact H2|]. split; [exact Hs2|].
  split; [reflexivity|]. split; [reflexivity|].
  split.
  { intros H. simpl. unfold d2. rewrite (Hd1 H).
    rewrite (std1_batch new_reward seq_len_y H Hlen), Hsd.
    simpl. f_equal. lra. }
  split.
  { intros H. simpl. unfold d2. rewrite (Hn1 H). apply smoothed_nan. }
  split; [exact E1|]. split; [exact E2|].
  rewrite E2, E1. split; apply Rabs_contract.
Qed.

(** *** The objective *)

Lemma masked_KL_cells (seq_mask_x seq_mask_y : tensor2 bool) (K : tensor3 R)
  (b : nat) :
  at1 (masked_KL seq_mask_x seq_mask_y K) b
  = sumn (dim1 K)
         (fun j => sumn (dim2 K)
                     (fun i => if at2 seq_mask_y b j && at2 seq_mask_x b i
                               then at3 K b j i else 0)).
Proof.
  unfold masked_KL. simpl. apply sumn_ext. intros j _.
  apply sumn_ext. intros i _.
  destruct (at2 seq_mask_y b j), (at2 seq_mask_x b i); reflexivity.
Qed.

Lemma masked_KL_agree (seq_mask_x seq_mask_y : tensor2 bool)
  (K K' : tensor3 R) (b : nat) :
  dim1 K' = dim1 K -> dim2 K' = dim2 K ->
  (forall j i, at2 seq_mask_x b i = true -> at2 seq_mask_y b j = true ->
               at3 K' b j i = at3 K b j i) ->
  at1 (masked_KL seq_mask_x seq_mask_y K') b
  = at1 (masked_KL seq_mask_x seq_mask_y K) b.
Proof.
  intros H1 H2 Hag. rewrite !masked_KL_cells, H1, H2.
  apply sumn_ext. intros j _. apply sumn_ext. intros i _.
  destruct (at2 seq_mask_y b j) eqn:Hy, (at2 seq_mask_x b i) eqn:Hx;
    simpl; try reflexivity.
  apply Hag; assumption.
Qed.

(** What [loss] stores in its dictionary before the reduction is
    chosen: the entries that do not depend on the family. *)
Lemma loss_entries (m : AlignmentVAE) (logits : tensor3 R) (x y : tensor2 Z)
  (A : tensor3 R) (seq_mask_x seq_mask_y : tensor2 bool)
  (pa qa : distribution) (c : R) (reduction : string) (K : tensor3 R)
  (out : loss_output) :
  kl_divergence ext qa pa = Ok K ->
  loss m logits x y A seq_mask_x seq_mask_y pa qa c reduction = Ok out ->
  out_KL out = masked_KL seq_mask_x seq_mask_y K /\
  (forall b j, at2 (out_log_py_xa out) b j
               = - at2 (cross_entropy logits y (pad_idx m)) b j) /\
  (forall b, at1 (out_ELBO out) b
             = - (nll_sum m logits y b
                  + c * at1 (masked_KL seq_mask_x seq_mask_y K) b)
               + c * at1 (masked_KL seq_mask_x seq_mask_y K) b
               - at1 (masked_KL seq_mask_x seq_mask_y K) b).
Proof.
  intros HK H. unfold loss in H. rewrite HK in H.
  cbn [mbind result_bind] in H.
  apply bind_Ok_inv in H. destruct H as ([[[l1 rsc] rw] nr] & _ & H).
  apply bind_Ok_inv in H. destruct H as (red & _ & H).
  inversion H; subst; simpl.
  split; [reflexivity|]. split; intros; reflexivity.
Qed.

Lemma forallb_all {A : Type} (f : A -> bool) (l : list A) :
  (forall a, f a = true) -> forallb f l = true.
Proof.
  intros H. induction l as [|a l IH]; simpl; [reflexivity|].
  rewrite H, IH. reflexivity.
Qed.

Lemma numbers2_all (t : tensor2 (option R)) :
  (forall b j, is_number (at2 t b j) = true) ->
  numbers2 t
  = Some (T2 (rows2 t) (cols2 t) (fun b j => default 0 (at2 t b j))).
Proof.
  intros H. unfold numbers2. rewrite forallb_all; [reflexivity|].
  intros b. apply forallb_all. intros j. apply H.
Qed.

(** One NaN cell inside the shape and the tensor is no tensor of numbers. *)
Lemma numbers2_nan (t : tensor2 (option R)) (b j : nat) :
  (b < rows2 t)%nat -> (j < cols2 t)%nat -> at2 t b j = None ->
  numbers2 t = None.
Proof.
  intros Hb Hj Hnan. unfold numbers2.
  destruct (forallb _ (seq 0 (rows2 t))) eqn:Hall; [|reflexivity].
  rewrite forallb_forall in Hall.
  assert (Hrow : In b (seq 0 (rows2 t))) by (apply in_seq; lia).
  specialize (Hall b Hrow). rewrite forallb_forall in Hall.
  assert (Hcol : In j (seq 0 (cols2 t))) by (apply in_seq; lia).
  specialize (Hall j Hcol). rewrite Hnan in Hall. discriminate Hall.
Qed.

(** On baselines that hold numbers the control variates give numbers, those
    of [apply_control_variates]. *)
Lemma control_variates_numbers (m : AlignmentVAE) (s : RFState)
  (x y : tensor2 Z) (qa : distribution) (reward : tensor2 R) :
  numbers2 (fst (control_variates m (of_numbers s) x y qa reward))
  = Some (fst (apply_control_variates m s x y qa reward)) /\
  snd (control_variates m (of_numbers s) x y qa reward)
  = snd (apply_control_variates m s x y qa reward).
Proof.
  destruct reward as [rows cols f]. destruct s as [avg std a f1 f2 f3].
  unfold control_variates, apply_control_variates, of_numbers. simpl.
  destruct f1, f2, f3; simpl; (split; [|reflexivity]);
    (rewrite numbers2_all by (intros; reflexivity)); reflexivity.
Qed.

(** Outside ["bernoulli-RF"] the value stored under ["loss"] is the
    reduction of [elbo_loss]. *)
Lemma loss_plain (m : AlignmentVAE) (logits : tensor3 R) (x y : tensor2 Z)
  (A : tensor3 R) (seq_mask_x seq_mask_y : tensor2 bool)
  (pa qa : distribution) (c : R) (K : tensor3 R) :
  kl_divergence ext qa pa = Ok K ->
  String.eqb (dist m) "bernoulli-RF" = false ->
  let t := elbo_loss m logits y seq_mask_x seq_mask_y K c in
  (exists out, loss m logits x y A seq_mask_x seq_mask_y pa qa c "none"
               = Ok out /\ out_loss out = PerElement t) /\
  (exists out, loss m logits x y A seq_mask_x seq_mask_y pa qa c "mean"
               = Ok out /\ out_loss out = Scalar (mean1 t)) /\
  (exists out, loss m logits x y A seq_mask_x seq_mask_y pa qa c "sum"
               = Ok out /\ out_loss out = Scalar (sum1 t)).
Proof.
  intros HK Hd t. unfold loss. rewrite HK, Hd.
  repeat split; eexists; (split; [reflexivity|]); reflexivity.
Qed.

(** For ["bernoulli-RF"] the surrogate is subtracted from every element
    before the reduction. *)
Lemma loss_reinforce (m : AlignmentVAE) (s : RFState) (logits : tensor3 R)
  (x y : tensor2 Z) (A : tensor3 R) (seq_mask_x seq_mask_y : tensor2 bool)
  (pa qa : distribution) (c : R) (K : tensor3 R) :
  kl_divergence ext qa pa = Ok K ->
  dist m = "bernoulli-RF" -> rf m = Some s ->
  exists out t,
    loss m logits x y A seq_mask_x seq_mask_y pa qa c "none" = Ok out /\
    out_loss out = PerElement t /\
    size1 t = rows2 y /\
    forall b,
      at1 t b
      = at1 (elbo_loss m logits y seq_mask_x seq_mask_y K c) b
        - reinforce_surrogate m s logits x y A qa b.
Proof.
  intros HK Hd Hs. unfold loss, reinforce_surrogate.
  rewrite HK, Hd, (rf_baselines m s Hs).
  cbn [mbind result_bind String.eqb Ascii.eqb Bool.eqb].
  match goal with
  | |- context [control_variates m (of_numbers s) x y qa ?r] =>
      destruct (control_variates_numbers m s x y qa r) as [Hn Hsc];
      destruct (control_variates m (of_numbers s) x y qa r) as [nr rsc]
  end.
  cbn [fst snd] in Hn, Hsc. rewrite Hn. subst rsc.
  destruct (apply_control_variates m s x y qa _) as [nr' rsc'].
  eexists. eexists. split; [reflexivity|].
  split; [reflexivity|]. split; reflexivity.
Qed.

Lemma loss_elbo (m : AlignmentVAE) (logits : tensor3 R) (x y : tensor2 Z)
  (A : tensor3 R) (seq_mask_x seq_mask_y : tensor2 bool)
  (pa qa : distribution) (c : R) (reduction : string) (K : tensor3 R)
  (out : loss_output) (b : nat) :
  kl_divergence ext qa pa = Ok K ->
  loss m logits x y A seq_mask_x seq_mask_y pa qa c reduction = Ok out ->
  at1 (out_ELBO out) b
  = - nll_sum m logits y b - at1 (masked_KL seq_mask_x seq_mask_y K) b.
Proof.
  intros HK H.
  destruct (loss_entries _ _ _ _ _ _ _ _ _ _ _ _ _ HK H) as (_ & _ & HE).
  rewrite HE. lra.
Qed.

(** C3.  In the dictionary returned by [loss], the KL of a batch element
    is the sum of the per-cell KL over the cells inside the source and target
    masks, every other cell counting for exactly zero whatever its value, so
    that two per-cell KL tensors that agree inside the masks give the same
    sum; and the reconstruction log-likelihood of a target position holding
    the padding index is exactly zero whatever the logits. *)
Theorem c3_padding_contributes_zero (m : AlignmentVAE) (logits : tensor3 R)
  (x y : tensor2 Z) (A : tensor3 R) (seq_mask_x seq_mask_y : tensor2 bool)
  (pa qa : distribution) (c : R) (reduction : string) (K : tensor3 R)
  (out : loss_output) :
  kl_divergence ext qa pa = Ok K ->
  loss m logits x y A seq_mask_x seq_mask_y pa qa c reduction = Ok out ->
  (forall b,
     at1 (out_KL out) b
     = sumn (dim1 K)
            (fun j => sumn (dim2 K)
                        (fun i => if at2 seq_mask_y b j && at2 seq_mask_x b i
                                  then at3 K b j i else 0))) /\
  (forall K' b,
     dim1 K' = dim1 K -> dim2 K' = dim2 K ->
     (forall j i, at2 seq_mask_x b i = true -> at2 seq_mask_y b j = true ->
                  at3 K' b j i = at3 K b j i) ->
     at1 (masked_KL seq_mask_x seq_mask_y K') b = at1 (out_KL out) b) /\
  (forall b j, at2 y b j = pad_idx m ->
               at2 (out_log_py_xa out) b j = 0 /\
               at2 (cross_entropy logits y (pad_idx m)) b j = 0) /\
  (forall logits' b,
     dim2 logits' = dim2 logits ->
     (forall j v, at2 y b j <> pad_idx m ->
                  at3 logits' b j v = at3 logits b j v) ->
     nll_sum m logits' y b = nll_sum m logits y b).
Proof.
  intros HK H.
  destruct (loss_entries _ _ _ _ _ _ _ _ _ _ _ _ _ HK H) as (HKL & Hlog & _).
  split; [|split; [|split]].
  - intros b. rewrite HKL. apply masked_KL_cells.
  - intros K' b H1 H2 Hag. rewrite HKL. apply masked_KL_agree; assumption.
  - intros b j Hpad. rewrite Hlog. unfold cross_entropy. simpl.
    rewrite Hpad, Z.eqb_refl. split; lra.
  - intros logits' b Hdim Hag. unfold nll_sum, cross_entropy. simpl.
    apply sumn_ext. intros j _.
    destruct (Z.eqb (at2 y b j) (pad_idx m)) eqn:Hy; [reflexivity|].
    apply Z.eqb_neq in Hy. rewrite Hdim.
    rewrite (Hag j (Z.to_nat (at2 y b j)) Hy). f_equal. f_equal.
    apply sumn_ext. intros v _. rewrite (Hag j v Hy). reflexivity.
Qed.

(** C4 (amended).  The ELBO reported by [loss] is minus the summed
    reconstruction negative log-likelihood minus the unscaled KL, for every
    multiplier and every family.  For a [dist] other than ["bernoulli-RF"],
    the loss of a batch element is the summed reconstruction negative
    log-likelihood plus the multiplier times the KL; [reduction="none"]
    returns these values, ["mean"] their batch mean and ["sum"] their batch
    sum.  For ["bernoulli-RF"] the REINFORCE surrogate of the element is
    subtracted from that value. *)
Theorem c4_loss_and_elbo (m : AlignmentVAE) (logits : tensor3 R)
  (x y : tensor2 Z) (A : tensor3 R) (seq_mask_x seq_mask_y : tensor2 bool)
  (pa qa : distribution) (c : R) (K : tensor3 R) :
  kl_divergence ext qa pa = Ok K ->
  (forall reduction out b,
     loss m logits x y A seq_mask_x seq_mask_y pa qa c reduction = Ok out ->
     at1 (out_ELBO out) b
     = - nll_sum m logits y b - at1 (masked_KL seq_mask_x seq_mask_y K) b) /\
  (String.eqb (dist m) "bernoulli-RF" = false ->
   exists o_none o_mean o_sum t,
     loss m logits x y A seq_mask_x seq_mask_y pa qa c "none" = Ok o_none /\
     loss m logits x y A seq_mask_x seq_mask_y pa qa c "mean" = Ok o_mean /\
     loss m logits x y A seq_mask_x seq_mask_y pa qa c "sum" = Ok o_sum /\
     out_loss o_none = PerElement t /\
     out_loss o_mean = Scalar (mean1 t) /\
     out_loss o_sum = Scalar (sum1 t) /\
     size1 t = rows2 y /\
     forall b, at1 t b
               = nll_sum m logits y b
                 + c * at1 (masked_KL seq_mask_x seq_mask_y K) b) /\
  (forall s, dist m = "bernoulli-RF" -> rf m = Some s ->
   exists out t,
     loss m logits x y A seq_mask_x seq_mask_y pa qa c "none" = Ok out /\
     out_loss out = PerElement t /\
     forall b, at1 t b
               = nll_sum m logits y b
                 + c * at1 (masked_KL seq_mask_x seq_mask_y K) b
                 - reinforce_surrogate m s logits x y A qa b).
Proof.
  intros HK. split; [|split].
  - intros reduction out b H. eapply loss_elbo; eassumption.
  - intros Hd.
    destruct (loss_plain m logits x y A seq_mask_x seq_mask_y pa qa c K HK Hd)
      as ((o1 & H1 & L1) & (o2 & H2 & L2) & (o3 & H3 & L3)).
    exists o1, o2, o3. eexists.
    repeat (split; [eassumption|]). split; [reflexivity|].
    intros b. reflexivity.
  - intros s Hd Hs.
    destruct (loss_reinforce m s logits x y A seq_mask_x seq_mask_y pa qa c K
                HK Hd Hs) as (out & t & H1 & H2 & _ & H3).
    exists out, t. split; [exact H1|]. split; [exact H2|]. exact H3.
Qed.

(** *** The clipped surrogate *)

Lemma clamp_bounds (lo hi x : R) : lo <= hi -> lo <= clamp lo hi x <= hi.
Proof.
  intros H. unfold clamp. split.
  - apply Rmin_glb; [apply Rmax_r | exact H].
  - apply Rmin_r.
Qed.

Lemma clamp_id (lo hi x : R) : lo <= x <= hi -> clamp lo hi x = x.
Proof.
  intros [H1 H2]. unfold clamp. rewrite Rmax_left by exact H1.
  apply Rmin_left. exact H2.
Qed.

Lemma ppo_ratio_c_at (eps : R) (ratio : tensor2 R) (b j : nat) :
  at2 (ppo_ratio_c eps ratio) b j
  = clamp (1 - eps) (1 + eps) (at2 ratio b j).
Proof. unfold ppo_ratio_c. simpl. f_equal; lra. Qed.

(** The result of [ppo_loss] once the posterior, the reward and the KL are
    available. *)
Lemma ppo_loss_value (m : AlignmentVAE)
  (x : tensor2 Z) (seq_mask_x : tensor2 bool) (seq_len_x : tensor1 Z)
  (y : tensor2 Z) (seq_mask_y : tensor2 bool) (seq_len_y : tensor1 Z)
  (A : tensor3 R) (pa qa_init : distribution) (log_py_xa : tensor2 R)
  (eps c : R) (reward : option (tensor2 R)) (qa_new : distribution)
  (K : tensor3 R) (r : tensor2 R) :
  approximate_posterior m x seq_mask_x seq_len_x y seq_mask_y seq_len_y
  = Ok qa_new ->
  kl_divergence ext qa_new pa = Ok K ->
  ppo_reward_used m (rf m) x y qa_new log_py_xa reward = Some r ->
  exists out,
    ppo_loss m x seq_mask_x seq_len_x y seq_mask_y seq_len_y A pa qa_init
             log_py_xa eps c reward = Ok out /\
    ppo_out_reward out = r /\
    size1 (ppo_out_loss out) = dim0 K /\
    forall b,
      at1 (ppo_out_loss out) b
      = ppo_surrogate r
          (ppo_ratio (sum_last3 (log_prob ext qa_new A))
                     (sum_last3 (log_prob ext qa_init A)))
          (ppo_ratio_c eps
             (ppo_ratio (sum_last3 (log_prob ext qa_new A))
                        (sum_last3 (log_prob ext qa_init A))))
        + at1 (masked_KL seq_mask_x seq_mask_y K) b * c.
Proof.
  intros Hq HK Hr. unfold ppo_loss. rewrite Hq.
  cbn [mbind result_bind]. rewrite HK.
  unfold ppo_reward_used in Hr.
  destruct reward as [r0|].
  - inversion Hr; subst. eexists. split; [reflexivity|].
    repeat split.
  - destruct (rf m) as [s|] eqn:Hs; [|discriminate Hr].
    rewrite (rf_baselines m s Hs).
    destruct (control_variates_numbers m s x y qa_new log_py_xa)
      as [Hn Hsc].
    destruct (control_variates m (of_numbers s) x y qa_new log_py_xa)
      as [nr rsc].
    cbn [fst snd] in Hn, Hsc. rewrite Hn.
    inversion Hr; subst. eexists. split; [reflexivity|].
    repeat split.
Qed.

(** C5 (amended).  [ppo_loss] forms the ratio
    [exp (log q_new(A) - log q_old(A))] per target position and clips it to
    [1 - eps, 1 + eps] (for [eps >= 0]); it returns one loss per batch
    element, not a single scalar: the entry of element [b] is the mean, over
    every batch element and every target position, of
    [max (- reward * ratio) (- reward * ratio_c)], plus the multiplier times
    the freshly computed masked KL of element [b]. *)
Theorem c5_ppo_loss_per_element (m : AlignmentVAE)
  (x : tensor2 Z) (seq_mask_x : tensor2 bool) (seq_len_x : tensor1 Z)
  (y : tensor2 Z) (seq_mask_y : tensor2 bool) (seq_len_y : tensor1 Z)
  (A : tensor3 R) (pa qa_init : distribution) (log_py_xa : tensor2 R)
  (eps c : R) (reward : option (tensor2 R)) (qa_new : distribution)
  (K : tensor3 R) (r : tensor2 R) :
  approximate_posterior m x seq_mask_x seq_len_x y seq_mask_y seq_len_y
  = Ok qa_new ->
  kl_divergence ext qa_new pa = Ok K ->
  ppo_reward_used m (rf m) x y qa_new log_py_xa reward = Some r ->
  let log_qa_new := sum_last3 (log_prob ext qa_new A) in
  let log_qa_init := sum_last3 (log_prob ext qa_init A) in
  let ratio := ppo_ratio log_qa_new log_qa_init in
  let ratio_c := ppo_ratio_c eps ratio in
  (forall b j, at2 ratio b j
               = exp (at2 log_qa_new b j - at2 log_qa_init b j)) /\
  (forall b j, at2 ratio_c b j
               = Rmin (Rmax (at2 ratio b j) (1 - eps)) (1 + eps)) /\
  (0 <= eps -> forall b j, 1 - eps <= at2 ratio_c b j <= 1 + eps) /\
  (forall b j, 1 - eps <= at2 ratio b j <= 1 + eps ->
               at2 ratio_c b j = at2 ratio b j) /\
  exists out,
    ppo_loss m x seq_mask_x seq_len_x y seq_mask_y seq_len_y A pa qa_init
             log_py_xa eps c reward = Ok out /\
    ppo_out_reward out = r /\
    size1 (ppo_out_loss out) = dim0 K /\
    forall b,
      at1 (ppo_out_loss out) b
      = sumn (rows2 ratio)
             (fun b' => sumn (cols2 ratio)
                (fun j => Rmax (- at2 r b' j * at2 ratio b' j)
                               (- at2 r b' j * at2 ratio_c b' j)))
        / INR (rows2 ratio * cols2 ratio)
        + c * at1 (masked_KL seq_mask_x seq_mask_y K) b.
Proof.
  intros Hq HK Hr log_qa_new log_qa_init ratio ratio_c.
  split; [intros; reflexivity|].
  split; [intros b j; unfold ratio_c; rewrite ppo_ratio_c_at; reflexivity|].
  split.
  { intros He b j. unfold ratio_c. rewrite ppo_ratio_c_at.
    apply clamp_bounds. lra. }
  split.
  { intros b j Hin. unfold ratio_c. rewrite ppo_ratio_c_at.
    apply clamp_id. exact Hin. }
  destruct (ppo_loss_value m x seq_mask_x seq_len_x y seq_mask_y seq_len_y
              A pa qa_init log_py_xa eps c reward qa_new K r Hq HK Hr)
    as (out & Hout & Hrw & Hsz & Hval).
  exists out. split; [exact Hout|]. split; [exact Hrw|]. split; [exact Hsz|].
  intros b. rewrite Hval. unfold ppo_surrogate, mean2.
  fold log_qa_new log_qa_init. fold ratio. fold ratio_c. simpl.
  rewrite (Rmult_comm c). reflexivity.
Qed.

(** *** The example inputs evaluated *)

(** With the fixed-probability parameter one half, [prior] returns the
    example prior for every Bernoulli [dist]. *)
Lemma example_prior_fixed (d : string) :
  str_in "bernoulli" d = true ->
  prior (example_model d (0, 1 / 2)) example_mask example_lengths example_mask
  = Ok (Some example_pa).
Proof.
  intros Hd. unfold prior. simpl. rewrite Hd.
  unfold bernoulli_prior_probs.
  rewrite (gt0_false 0) by lra. rewrite (gt0_true (1 / 2)) by lra.
  cbn [mbind result_bind]. unfold BernoulliREINFORCE_new, validate_bern.
  rewrite unit_interval_intro; [reflexivity|].
  intros b j i _ _ _. simpl. lra.
Qed.

Lemma ln_2_pos : 0 < ln 2.
Proof. rewrite <- ln_1. apply ln_increasing; lra. Qed.

Lemma sigmoid_0 : sigmoid 0 = 1 / 2.
Proof. unfold sigmoid. rewrite Ropp_0, exp_0. lra. Qed.

Lemma kl_bernoulli_cell_half_half : kl_bernoulli_cell (1 / 2) (1 / 2) = 0.
Proof.
  unfold kl_bernoulli_cell.
  replace (1 / 2 / (1 / 2)) with 1 by lra.
  replace ((1 - 1 / 2) / (1 - 1 / 2)) with 1 by lra.
  rewrite ln_1. lra.
Qed.

Lemma kl_bernoulli_cell_half_quarter : 0 < kl_bernoulli_cell (1 / 2) (1 / 4).
Proof.
  unfold kl_bernoulli_cell.
  replace (1 / 2 / (1 / 4)) with 2 by lra.
  replace ((1 - 1 / 2) / (1 - 1 / 4)) with (2 / 3) by lra.
  assert (H : 0 < ln 2 + ln (2 / 3)).
  { rewrite <- ln_mult by lra. rewrite <- ln_1. apply ln_increasing; lra. }
  lra.
Qed.

(** An exhausted scan.  With a single candidate ([N = 1], [a = epsilon]) and
    the default stretch, the cumulative at zero [(1/12)^epsilon] stays above
    the target of length 1: the scan runs off the list and the table
    records that candidate, without an exception. *)
Lemma prior_table_exhausted_example (prior_param_1 : R) :
  0 < epsilon -> epsilon <= 1 / 100 ->
  Forall (fun c => p0 1 < cand_cdf0 c) (kuma_priors (-0.1) 1.1 1) /\
  exists tbl : gmap Z (R * R),
    _create_hardkuma_prior_table prior_param_1 1 (-0.1) 1.1 1 = Ok tbl /\
    tbl !! 1%Z = Some (epsilon, 1).
Proof.
  intros He0 He1.
  set (a := epsilon + INR 0 * ((1 - epsilon) / (INR 1 - 1))).
  set (k0 := - -0.1 / (1.1 - -0.1)).
  assert (Hpri : kuma_priors (-0.1) 1.1 1 = [(a, 1, kuma_cdf a 1 k0)])
    by reflexivity.
  assert (Ha : a = epsilon).
  { unfold a. simpl INR at 1. rewrite Rmult_0_l. lra. }
  assert (Hk0 : k0 = / 12) by (unfold k0; lra).
  assert (Hln12 : ln 12 < 12).
  { rewrite <- (ln_exp 12) at 2. apply ln_increasing; [lra|].
    pose proof (exp_ineq1_le 12). lra. }
  assert (Hlnk : ln k0 = - ln 12) by (rewrite Hk0; apply ln_Rinv; lra).
  assert (Hpow_lo : 1 - 12 * epsilon < Rpower k0 epsilon).
  { unfold Rpower. pose proof (exp_ineq1_le (epsilon * ln k0)) as Hx.
    rewrite Hlnk in *. nra. }
  assert (Hpow_hi : Rpower k0 epsilon < 1).
  { unfold Rpower. rewrite <- exp_0. apply exp_increasing.
    rewrite Hlnk. pose proof ln_2_pos.
    assert (ln 2 < ln 12) by (apply ln_increasing; lra). nra. }
  assert (Hcdf : kuma_cdf a 1 k0 = Rpower k0 epsilon).
  { unfold kuma_cdf. rewrite Ha. rewrite Rpower_1 by lra. lra. }
  assert (Hp0 : p0 1 = 1 - (1 + epsilon) / 2).
  { unfold p0. rewrite Rmin_left by lra. lra. }
  split.
  - rewrite Hpri. constructor; [|constructor].
    unfold cand_cdf0. simpl. rewrite Hcdf, Hp0. lra.
  - unfold _create_hardkuma_prior_table. rewrite Hpri.
    eexists. split; [reflexivity|].
    rewrite lookup_insert_eq. unfold cand_a, cand_b. simpl.
    rewrite Ha. reflexivity.
Qed.

(** ** Further properties of the prior table *)

(** The table as a function of its scans: what every key holds once the
    builder has returned. *)
Lemma prior_table_lookup (prior_param_1 : R) (M : Z) (l r : R) (N : nat)
  (tbl : gmap Z (R * R)) :
  (0 < N)%nat ->
  _create_hardkuma_prior_table prior_param_1 M l r N = Ok tbl ->
  (forall L, (1 <= L <= M)%Z ->
             tbl !! L = scan (p0 L) None None (kuma_priors l r N)) /\
  (forall L, ~ (1 <= L <= M)%Z -> tbl !! L = None).
Proof.
  intros HN Hok.
  assert (Hne : kuma_priors l r N <> []).
  { intros Heq. pose proof (kuma_priors_length l r N) as Hlen.
    rewrite Heq in Hlen. simpl in Hlen. lia. }
  unfold _create_hardkuma_prior_table in Hok.
  destruct (tabulate_spec (kuma_priors l r N) (range 1 (M + 1)) Hne ∅)
    as (tbl' & Htab & Hin & Hout).
  rewrite Htab in Hok. inversion Hok; subst tbl'. split.
  - intros L HL. apply Hin. apply In_range. lia.
  - intros L HL. rewrite Hout; [apply lookup_empty|].
    rewrite In_range. lia.
Qed.

Lemma range_empty (lo hi : Z) : (hi <= lo)%Z -> range lo hi = [].
Proof.
  intros H. unfold range. replace (Z.to_nat (hi - lo)) with 0%nat by lia.
  reflexivity.
Qed.

Lemma range_cons (lo hi : Z) :
  (lo < hi)%Z -> exists rest, range lo hi = lo :: rest.
Proof.
  intros H. unfold range.
  destruct (Z.to_nat (hi - lo)) as [|n] eqn:Hn; [lia|].
  simpl. eexists. f_equal. lia.
Qed.

(** The two degenerate runs of the builder: an empty range of lengths, and
    an empty list of candidates. *)
Lemma prior_table_degenerate (prior_param_1 : R) (M : Z) (l r : R)
  (N : nat) :
  ((M <= 0)%Z ->
   _create_hardkuma_prior_table prior_param_1 M l r N = Ok ∅) /\
  (N = 0%nat -> (1 <= M)%Z ->
   _create_hardkuma_prior_table prior_param_1 M l r N
   = Raise (NameError "a")).
Proof.
  unfold _create_hardkuma_prior_table. split.
  - intros HM. rewrite range_empty by lia. reflexivity.
  - intros HN HM. subst N.
    destruct (range_cons 1 (M + 1)) as (rest & Hr); [lia|].
    rewrite Hr. reflexivity.
Qed.

Lemma linspace_bounds (start : R) (steps : nat) :
  start <= 1 ->
  Forall (fun a => start <= a <= 1) (linspace start 1 steps).
Proof.
  intros Hs. unfold linspace. apply Forall_map. apply Forall_forall.
  intros k Hk. apply list_elem_of_In, in_seq in Hk. simpl.
  destruct k as [|k].
  - simpl INR. rewrite Rmult_0_l. lra.
  - assert (Hk1 : INR (S k) <= INR steps - 1).
    { replace (INR steps - 1) with (INR (steps - 1)).
      - apply le_INR. lia.
      - rewrite minus_INR by lia. simpl. lra. }
    assert (Hk0 : 0 < INR (S k)) by (apply lt_0_INR; lia).
    set (d := INR steps - 1) in *.
    set (t := (1 - start) / d).
    assert (Ht : t * d = 1 - start) by (unfold t; field; lra).
    assert (Ht0 : 0 <= t).
    { unfold t. apply Rmult_le_pos; [lra|].
      apply Rlt_le, Rinv_0_lt_compat. lra. }
    split; nra.
Qed.

Lemma kuma_priors_a_bounds (l r : R) (N : nat) :
  epsilon <= 1 ->
  Forall (fun c => epsilon <= cand_a c <= 1) (kuma_priors l r N).
Proof.
  intros He. unfold kuma_priors. apply sorted_by_a_Forall.
  apply Forall_map. simpl. unfold cand_a. simpl.
  apply linspace_bounds. exact He.
Qed.

(** X2.  Every entry of a table that the builder returned belongs to a
    length of [1, M], has [b = 1] and has its [a] among the swept
    candidates: [epsilon <= a <= 1] (for a stabiliser of at most 1), so that
    [a] is a positive shape parameter as soon as [epsilon] is positive. *)
Theorem x2_prior_table_entries (prior_param_1 : R) (M : Z) (l r : R)
  (N : nat) (tbl : gmap Z (R * R)) (L : Z) (a b : R) :
  epsilon <= 1 ->
  _create_hardkuma_prior_table prior_param_1 M l r N = Ok tbl ->
  tbl !! L = Some (a, b) ->
  (1 <= L <= M)%Z /\ epsilon <= a <= 1 /\ b = 1.
Proof.
  intros He Hok Hl.
  destruct N as [|N'].
  - (* no candidate: the builder returned, so the range was empty *)
    destruct (Z_le_gt_dec M 0) as [HM | HM].
    + destruct (prior_table_degenerate prior_param_1 M l r 0) as [H0 _].
      rewrite (H0 HM) in Hok. inversion Hok; subst.
      rewrite lookup_empty in Hl. discriminate Hl.
    + destruct (prior_table_degenerate prior_param_1 M l r 0) as [_ H1].
      rewrite H1 in Hok by lia. discriminate Hok.
  - destruct (prior_table_lookup prior_param_1 M l r (S N') tbl) as [Hin Hout];
      [lia | exact Hok |].
    destruct (Z_le_gt_dec 1 L) as [H1 | H1];
      [destruct (Z_le_gt_dec L M) as [H2 | H2]|].
    + split; [lia|]. rewrite Hin in Hl by lia.
      apply scan_result in Hl. destruct Hl as [Hl | (c & Hc & Hab)];
        [discriminate Hl|].
      apply list_elem_of_In in Hc.
      pose proof (kuma_priors_a_bounds l r (S N') He) as Ha.
      pose proof (kuma_priors_b l r (S N')) as Hb.
      rewrite Forall_forall in Ha, Hb.
      inversion Hab; subst. split; [apply Ha | apply Hb]; exact Hc.
    + rewrite Hout in Hl by lia. discriminate Hl.
    + rewrite Hout in Hl by lia. discriminate Hl.
Qed.

(** X1.  Edge cases of the table builder.  A maximum sentence length
    below 1 gives the empty table, whatever the number of candidates; with
    no candidate ([N = 0]) and a maximum length of at least 1 the first
    assignment to the table reads the unbound variable [a], a
    [NameError]. *)
Theorem x1_prior_table_edge_cases (prior_param_1 : R) (M : Z) (l r : R)
  (N : nat) :
  ((M <= 0)%Z ->
   _create_hardkuma_prior_table prior_param_1 M l r N = Ok ∅) /\
  (N = 0%nat -> (1 <= M)%Z ->
   _create_hardkuma_prior_table prior_param_1 M l r N
   = Raise (NameError "a")).
Proof. apply prior_table_degenerate. Qed.

Lemma insert_by_a_sorted (c : candidate) (l : list candidate) :
  StronglySorted (fun x y => cand_a x <= cand_a y) l ->
  StronglySorted (fun x y => cand_a x <= cand_a y) (insert_by_a c l).
Proof.
  intros Hs. induction Hs as [|d l Hs IH Hd]; simpl.
  - constructor; constructor.
  - unfold Rgtb. destruct (Rlt_dec (cand_a c) (cand_a d)) as [Hlt | Hge].
    + constructor; [constructor; assumption|].
      constructor; [lra|].
      eapply Forall_impl; [exact Hd|]. simpl. intros x Hx. lra.
    + constructor; [exact IH|].
      apply insert_by_a_Forall; [lra | exact Hd].
Qed.

Lemma kuma_priors_sorted (l r : R) (N : nat) :
  StronglySorted (fun x y => cand_a x <= cand_a y) (kuma_priors l r N).
Proof.
  unfold kuma_priors, sorted_by_a.
  induction (rev _) as [|c rest IH]; simpl; [constructor|].
  apply insert_by_a_sorted. exact IH.
Qed.

(** Raising the target can only stop the scan earlier: on a list sorted by
    [a], the scan for the larger target ends on an [a] that is not larger. *)
Lemma scan_antitone (p p' : R) (rest : list candidate) :
  p <= p' ->
  forall c,
    StronglySorted (fun x y => cand_a x <= cand_a y) (c :: rest) ->
    exists ab ab',
      scan p (Some (cand_cdf0 c)) (Some (cand_a c, cand_b c)) rest = Some ab /\
      scan p' (Some (cand_cdf0 c)) (Some (cand_a c, cand_b c)) rest = Some ab' /\
      cand_a c <= fst ab' /\ fst ab' <= fst ab.
Proof.
  intros Hp. induction rest as [|d rest IH]; intros c Hs; simpl.
  - exists (cand_a c, cand_b c), (cand_a c, cand_b c).
    repeat split; simpl; lra.
  - inversion Hs as [|c0 l0 Hs' Hc]; subst.
    assert (Hcd : cand_a c <= cand_a d) by (inversion Hc; assumption).
    destruct (IH d Hs') as (ab & ab' & H1 & H2 & H3 & H4).
    unfold Rgtb.
    destruct (Rlt_dec p' (cand_cdf0 c)) as [Hgt' | Hle'].
    + destruct (Rlt_dec p (cand_cdf0 c)) as [Hgt | Hle]; [|lra].
      exists ab, ab'. repeat split; try assumption. lra.
    + destruct (Rlt_dec p (cand_cdf0 c)) as [Hgt | Hle].
      * exists ab, (cand_a c, cand_b c). repeat split; simpl; try assumption;
          lra.
      * exists (cand_a c, cand_b c), (cand_a c, cand_b c).
        repeat split; simpl; lra.
Qed.

(** X3.  The shape parameter tabulated for a sentence length never grows
    with the length: for [1 <= L1 < L2 <= M] (and a stabiliser of at least
    -1) the entries exist and [a(L2) <= a(L1)].  Longer sentences get a
    prior with at least as much mass at zero. *)
Theorem x3_prior_table_a_nonincreasing (prior_param_1 : R) (M : Z) (l r : R)
  (N : nat) (tbl : gmap Z (R * R)) (L1 L2 : Z) :
  -1 <= epsilon -> (0 < N)%nat ->
  _create_hardkuma_prior_table prior_param_1 M l r N = Ok tbl ->
  (1 <= L1)%Z -> (L1 < L2)%Z -> (L2 <= M)%Z ->
  exists a1 a2,
    tbl !! L1 = Some (a1, 1) /\ tbl !! L2 = Some (a2, 1) /\ a2 <= a1.
Proof.
  intros He HN Hok H1 H12 H2.
  destruct (prior_table_lookup prior_param_1 M l r N tbl HN Hok) as [Hin _].
  rewrite (Hin L1) by lia. rewrite (Hin L2) by lia.
  pose proof (kuma_priors_sorted l r N) as Hs.
  pose proof (kuma_priors_b l r N) as Hb.
  pose proof (kuma_priors_length l r N) as Hlen.
  destruct (kuma_priors l r N) as [|c rest]; [simpl in Hlen; lia|].
  simpl.
  destruct (scan_antitone (p0 L1) (p0 L2) rest
              (p0_monotone L1 L2 He H1 H12) c Hs)
    as ([a1 b1] & [a2 b2] & E1 & E2 & _ & Hle).
  assert (Hb1 : b1 = 1).
  { apply scan_result in E1. rewrite Forall_forall in Hb.
    destruct E1 as [E | (d & Hd & E)]; inversion E; subst.
    - apply Hb. left.
    - apply Hb. right. apply list_elem_of_In. exact Hd. }
  assert (Hb2 : b2 = 1).
  { apply scan_result in E2. rewrite Forall_forall in Hb.
    destruct E2 as [E | (d & Hd & E)]; inversion E; subst.
    - apply Hb. left.
    - apply Hb. right. apply list_elem_of_In. exact Hd. }
  subst. exists a1, a2. split; [exact E1|]. split; [exact E2 | exact Hle].
Qed.

(** ** Further properties of the prior and of the posterior *)

Lemma table_column_present (tbl : gmap Z (R * R)) (lens : list Z) :
  (forall len, In len lens -> exists a b, tbl !! len = Some (a, b)) ->
  exists col,
    table_column tbl lens = Ok col /\
    forall k len, lens !! k = Some len ->
                  exists a b, tbl !! len = Some (a, b) /\ nth k col 0 = a.
Proof.
  induction lens as [|len rest IH]; intros Hall; simpl.
  - exists []. split; [reflexivity|]. intros k len H. discriminate H.
  - destruct (Hall len) as (a & b & Hlen); [left; reflexivity|].
    rewrite Hlen.
    destruct IH as (col & Hcol & Hnth);
      [intros l0 Hl0; apply Hall; right; exact Hl0|].
    rewrite Hcol. simpl. exists (a :: col). split; [reflexivity|].
    intros [|k] len0 Hk; simpl in Hk.
    + inversion Hk; subst. exists a, b. split; [exact Hlen | reflexivity].
    + apply Hnth. exact Hk.
Qed.

Lemma table_column_missing (tbl : gmap Z (R * R)) (pre post : list Z)
  (len : Z) :
  (forall l0, In l0 pre -> exists a b, tbl !! l0 = Some (a, b)) ->
  tbl !! len = None ->
  table_column tbl (pre ++ len :: post) = Raise (KeyError len).
Proof.
  intros Hpre Hlen. induction pre as [|l0 pre IH]; simpl.
  - rewrite Hlen. reflexivity.
  - destruct (Hpre l0) as (a & b & H0); [left; reflexivity|].
    rewrite H0. rewrite IH; [reflexivity|].
    intros l1 Hl1. apply Hpre. right. exact Hl1.
Qed.

Lemma tensor1_to_list_lookup {A : Type} (t : tensor1 A) (k : nat) :
  (k < size1 t)%nat -> tensor1_to_list t !! k = Some (at1 t k).
Proof.
  intros Hk. unfold tensor1_to_list. rewrite list_lookup_fmap.
  rewrite lookup_seq_lt by exact Hk. reflexivity.
Qed.

Lemma tensor1_to_list_split {A : Type} (t : tensor1 A) (k : nat) :
  (k < size1 t)%nat ->
  exists post,
    tensor1_to_list t = map (at1 t) (seq 0 k) ++ at1 t k :: post.
Proof.
  intros Hk. unfold tensor1_to_list.
  replace (size1 t) with (k + S (size1 t - S k))%nat by lia.
  rewrite seq_app, map_app. simpl. eexists. reflexivity.
Qed.

(** X4.  The table-driven prior composed with the table builder.  On a
    ["hardkuma"] model holding the table built for maximum length [M], with
    [prior_param_1 > 0] and [prior_param_2 <= 0]: when every source length
    of the batch lies in [1, M], [prior] returns the rectified stretched
    Kumaraswamy whose [a] is, for every cell of a batch element, the table
    entry of that element's length, and whose [b] is 1; when some length
    lies outside [1, M], [prior] raises [KeyError] on the first such
    length. *)
Theorem x4_prior_table_lookup (m : AlignmentVAE) (tbl : gmap Z (R * R))
  (p1 p2 : R) (M : Z) (l r : R) (N : nat)
  (seq_mask_x : tensor2 bool) (seq_len_x : tensor1 Z)
  (seq_mask_y : tensor2 bool) :
  dist m = "hardkuma" ->
  prior_params m = (p1, p2) -> 0 < p1 -> p2 <= 0 ->
  (0 < N)%nat ->
  _create_hardkuma_prior_table p1 M l r N = Ok tbl ->
  hardkuma_prior_table m = Some tbl ->
  ((forall b, (b < size1 seq_len_x)%nat -> (1 <= at1 seq_len_x b <= M)%Z) ->
   exists ta tb,
     prior m seq_mask_x seq_len_x seq_mask_y
     = Ok (Some (HardKuma ta tb (-0.1) 1.1)) /\
     dim0 ta = rows2 seq_mask_x /\ dim1 ta = cols2 seq_mask_y /\
     dim2 ta = cols2 seq_mask_x /\
     forall b j i,
       (b < size1 seq_len_x)%nat ->
       tbl !! at1 seq_len_x b = Some (at3 ta b j i, 1) /\
       at3 tb b j i = 1) /\
  (forall b0,
     (b0 < size1 seq_len_x)%nat ->
     ~ (1 <= at1 seq_len_x b0 <= M)%Z ->
     (forall b, (b < b0)%nat -> (1 <= at1 seq_len_x b <= M)%Z) ->
     prior m seq_mask_x seq_len_x seq_mask_y
     = Raise (KeyError (at1 seq_len_x b0))).
Proof.
  intros Hd Hp H1 H2 HN Hok Htbl.
  destruct (prior_table_lookup p1 M l r N tbl HN Hok) as [Hin Hout].
  assert (Hne : kuma_priors l r N <> []).
  { intros Heq. pose proof (kuma_priors_length l r N) as Hlen.
    rewrite Heq in Hlen. simpl in Hlen. lia. }
  assert (Hentry : forall L, (1 <= L <= M)%Z ->
                             exists a, tbl !! L = Some (a, 1)).
  { intros L HL. rewrite (Hin L HL).
    destruct (scan_inf_some (p0 L) None (kuma_priors l r N) Hne)
      as ([a b] & Hab).
    rewrite Hab. exists a.
    apply scan_result in Hab. destruct Hab as [Hab | (c & Hc & Hab)];
      [discriminate|].
    pose proof (kuma_priors_b l r N) as Hb.
    rewrite Forall_forall in Hb.
    specialize (Hb c (proj2 (list_elem_of_In _ _) Hc)).
    inversion Hab; subst. rewrite Hb. reflexivity. }
  assert (Hbranch :
    prior m seq_mask_x seq_len_x seq_mask_y
    = (ab ← (col ← table_column tbl (tensor1_to_list seq_len_x);
             Ok (T3 (rows2 seq_mask_x) (cols2 seq_mask_y) (cols2 seq_mask_x)
                    (fun b _ _ => nth b col 0),
                 T3 (rows2 seq_mask_x) (cols2 seq_mask_y) (cols2 seq_mask_x)
                    (fun _ _ _ => 1)));
       Ok (Some (HardKuma (fst ab) (snd ab) (-0.1) 1.1)))).
  { unfold prior. rewrite Hp, Hd, Htbl. simpl.
    rewrite (gt0_true p1 H1), (gt0_false p2 H2). reflexivity. }
  split.
  - intros Hall.
    destruct (table_column_present tbl (tensor1_to_list seq_len_x))
      as (col & Hcol & Hnth).
    { intros len Hlen. unfold tensor1_to_list in Hlen.
      apply in_map_iff in Hlen. destruct Hlen as (b & <- & Hb).
      apply in_seq in Hb.
      destruct (Hentry (at1 seq_len_x b)) as (a & Ha); [apply Hall; lia|].
      exists a, 1. exact Ha. }
    rewrite Hbranch, Hcol. simpl.
    eexists. eexists. split; [reflexivity|]. simpl.
    repeat split.
    destruct (Hnth b (at1 seq_len_x b)) as (a & b' & Ha & Hn);
      [apply tensor1_to_list_lookup; assumption|].
    destruct (Hentry (at1 seq_len_x b)) as (a' & Ha'); [apply Hall; lia|].
    rewrite Hn. rewrite Ha in Ha'. inversion Ha'; subst. exact Ha.
  - intros b0 Hb0 Hbad Hgood.
    destruct (tensor1_to_list_split seq_len_x b0 Hb0) as (post & Hsplit).
    rewrite Hbranch, Hsplit.
    rewrite table_column_missing; [reflexivity | | apply Hout; exact Hbad].
    intros l0 Hl0. apply in_map_iff in Hl0. destruct Hl0 as (b & <- & Hb).
    apply in_seq in Hb.
    destruct (Hentry (at1 seq_len_x b)) as (a & Ha); [apply Hgood; lia|].
    exists a, 1. exact Ha.
Qed.

(** The fixed-shape Kumaraswamy prior.  For ["kuma"] and ["hardkuma"]
    with both parameters positive, [prior] returns the distribution whose
    [a] is [prior_param_1] and whose [b] is [prior_param_2] in every cell of
    the grid [B, T_y, T_x], rectified and stretched to (-0.1, 1.1) for
    ["hardkuma"]; the prior table is not consulted.  For ["kuma"] with a
    parameter that is not positive, and for ["hardkuma"] with
    [prior_param_1 <= 0], [prior] raises. *)
Lemma prior_kumaraswamy_cases (m : AlignmentVAE) (p1 p2 : R)
  (seq_mask_x : tensor2 bool) (seq_len_x : tensor1 Z)
  (seq_mask_y : tensor2 bool) :
  prior_params m = (p1, p2) ->
  let full := new_full (rows2 seq_mask_x) (cols2 seq_mask_y)
                       (cols2 seq_mask_x) in
  (0 < p1 -> 0 < p2 -> dist m = "kuma" ->
   prior m seq_mask_x seq_len_x seq_mask_y
   = Ok (Some (Kumaraswamy (full p1) (full p2)))) /\
  (0 < p1 -> 0 < p2 -> dist m = "hardkuma" ->
   prior m seq_mask_x seq_len_x seq_mask_y
   = Ok (Some (HardKuma (full p1) (full p2) (-0.1) 1.1))) /\
  (p1 <= 0 \/ p2 <= 0 -> dist m = "kuma" ->
   prior m seq_mask_x seq_len_x seq_mask_y
   = Raise (Exception "Invalid Kumaraswamy parameters")) /\
  (p1 <= 0 -> dist m = "hardkuma" ->
   prior m seq_mask_x seq_len_x seq_mask_y
   = Raise (Exception "Invalid Kumaraswamy parameters")).
Proof.
  intros Hp full. unfold prior. rewrite Hp.
  split; [|split; [|split]].
  - intros H1 H2 Hd. rewrite Hd. simpl.
    rewrite (gt0_true p1 H1), (gt0_true p2 H2). reflexivity.
  - intros H1 H2 Hd. rewrite Hd. simpl.
    rewrite (gt0_true p1 H1), (gt0_true p2 H2). reflexivity.
  - intros H Hd. rewrite Hd. simpl. destruct H as [H | H].
    + rewrite (gt0_false p1 H). reflexivity.
    + rewrite (gt0_false p2 H), andb_false_r. reflexivity.
  - intros H Hd. rewrite Hd. simpl. rewrite (gt0_false p1 H). reflexivity.
Qed.

Lemma str_mem_false3 (s a b c : string) :
  s <> a -> s <> b -> s <> c -> str_mem s [a; b; c] = false.
Proof.
  intros Ha Hb Hc. unfold str_mem. simpl.
  apply String.eqb_neq in Ha, Hb, Hc. rewrite Ha, Hb, Hc. reflexivity.
Qed.

Lemma str_mem_false2 (s a b : string) :
  s <> a -> s <> b -> str_mem s [a; b] = false.
Proof.
  intros Ha Hb. unfold str_mem. simpl.
  apply String.eqb_neq in Ha, Hb. rewrite Ha, Hb. reflexivity.
Qed.

(** X5.  A [dist] that is none of the five names.  The inference network
    raises the exception ["Unknown dist option: <dist>"]; [prior], whose
    chain of branches has no final [else], returns [None] without raising
    (unless the name contains ["bernoulli"], for which it builds a Bernoulli
    prior). *)
Theorem x5_unknown_dist (m : AlignmentVAE)
  (x : tensor2 Z) (seq_mask_x : tensor2 bool) (seq_len_x : tensor1 Z)
  (y : tensor2 Z) (seq_mask_y : tensor2 bool) (seq_len_y : tensor1 Z) :
  inf_dist (inf_network m) = dist m ->
  dist m <> "bernoulli-RF" -> dist m <> "bernoulli-ST" ->
  dist m <> "concrete" -> dist m <> "kuma" -> dist m <> "hardkuma" ->
  approximate_posterior m x seq_mask_x seq_len_x y seq_mask_y seq_len_y
  = Raise (Exception ("Unknown dist option: " ++ dist m)) /\
  (str_in "bernoulli" (dist m) = false ->
   prior m seq_mask_x seq_len_x seq_mask_y = Ok None) /\
  (str_in "bernoulli" (dist m) = true ->
   forall pa, prior m seq_mask_x seq_len_x seq_mask_y = Ok (Some pa) ->
              variant_of pa = VBernoulliREINFORCE).
Proof.
  intros Hinf H1 H2 H3 H4 H5. split; [|split].
  - unfold approximate_posterior, InferenceNetwork_forward. rewrite Hinf.
    rewrite str_mem_false3 by assumption.
    rewrite str_mem_false2 by assumption. reflexivity.
  - intros Hb. unfold prior. destruct (prior_params m) as [p1 p2].
    rewrite Hb. apply String.eqb_neq in H3. rewrite H3.
    rewrite str_mem_false2 by assumption. reflexivity.
  - intros Hb pa Hpa. eapply prior_bernoulli_variant; eassumption.
Qed.

Lemma sigmoid_range (x : R) : 0 < sigmoid x < 1.
Proof.
  unfold sigmoid. pose proof (exp_pos (- x)) as He.
  assert (H1 : 0 < 1 + exp (- x)) by lra.
  split.
  - apply Rdiv_lt_0_compat; lra.
  - apply (Rmult_lt_reg_r (1 + exp (- x))); [exact H1|].
    unfold Rdiv. rewrite Rmult_assoc, Rinv_l by lra. lra.
Qed.

(** X6.  The posterior of the three supported families.  The network
    returns a distribution only for ["bernoulli-RF"], ["bernoulli-ST"] and
    ["concrete"].  The Bernoulli posteriors carry the attention scores as
    logits, and every cell of their mean, the sigmoid of a score, lies
    between 0 and 1; the binary concrete has temperature 1 and carries the
    scores clamped to [-5, 5], unchanged when they already lie there. *)
Theorem x6_posterior_parameters (net : InferenceNetwork)
  (x : tensor2 Z) (seq_mask_x : tensor2 bool) (seq_len_x : tensor1 Z)
  (y : tensor2 Z) (seq_mask_y : tensor2 bool) (seq_len_y : tensor1 Z) :
  let scores := attention_logits net x y in
  let post := InferenceNetwork_forward net x seq_mask_x seq_len_x
                                       y seq_mask_y seq_len_y in
  (inf_dist net = "bernoulli-RF" ->
   post = Ok (BernoulliREINFORCE (Logits scores))) /\
  (inf_dist net = "bernoulli-ST" ->
   post = Ok (BernoulliStraightThrough (Logits scores))) /\
  (inf_dist net = "concrete" ->
   exists logits,
     post = Ok (BinaryConcrete 1 logits) /\
     forall b j i,
       -5 <= at3 logits b j i <= 5 /\
       (-5 <= at3 scores b j i <= 5 ->
        at3 logits b j i = at3 scores b j i)) /\
  (forall qa, post = Ok qa ->
     inf_dist net = "bernoulli-RF" \/ inf_dist net = "bernoulli-ST" \/
     inf_dist net = "concrete") /\
  (forall qa, post = Ok qa -> family_of qa = FBernoulli ->
     forall b j i,
       at3 (dist_mean ext qa) b j i = sigmoid (at3 scores b j i) /\
       0 <= at3 (dist_mean ext qa) b j i <= 1).
Proof.
  intros scores post. unfold post, InferenceNetwork_forward.
  split; [|split; [|split; [|split]]].
  - intros Hd. rewrite Hd. reflexivity.
  - intros Hd. rewrite Hd. reflexivity.
  - intros Hd. rewrite Hd. simpl. eexists. split; [reflexivity|].
    intros b j i. simpl. split.
    + apply clamp_bounds. lra.
    + intros Hin. apply clamp_id. exact Hin.
  - intros qa Hq.
    apply (posterior_variant net x seq_mask_x seq_len_x y seq_mask_y
             seq_len_y) in Hq.
    destruct Hq as [[H _] | [[H _] | [H _]]]; tauto.
  - intros qa Hq Hf b j i.
    pose proof Hq as Hq'.
    apply (posterior_variant net x seq_mask_x seq_len_x y seq_mask_y
             seq_len_y) in Hq'.
    destruct Hq' as [[Hd _] | [[Hd _] | [Hd Hv]]].
    + rewrite Hd in Hq. simpl in Hq. inversion Hq; subst. simpl.
      split; [reflexivity|].
      match goal with
      | |- 0 <= sigmoid ?z <= 1 => pose proof (sigmoid_range z); lra
      end.
    + rewrite Hd in Hq. simpl in Hq. inversion Hq; subst. simpl.
      split; [reflexivity|].
      match goal with
      | |- 0 <= sigmoid ?z <= 1 => pose proof (sigmoid_range z); lra
      end.
    + unfold family_of in Hf. rewrite Hv in Hf. discriminate Hf.
Qed.

Lemma unit_interval_new_full_above (d0 d1 d2 : nat) (v : R) :
  (0 < d0)%nat -> (0 < d1)%nat -> (0 < d2)%nat -> 1 < v ->
  unit_interval (new_full d0 d1 d2 v) = false.
Proof.
  intros H0 H1 H2 Hv. unfold unit_interval.
  destruct d0 as [|d0]; [lia|]. destruct d1 as [|d1]; [lia|].
  destruct d2 as [|d2]; [lia|]. simpl.
  assert (Hf : Rleb v 1 = false).
  { unfold Rleb. destruct (Rle_dec v 1); [lra | reflexivity]. }
  rewrite Hf, andb_false_r. reflexivity.
Qed.

(** X7.  Validity of the Bernoulli prior.  In the length-scaled mode, with
    a positive stabiliser and non-negative source lengths, [prior] returns
    the distribution and every probability of the batch lies in
    (0, 0.99]: padded source positions keep a positive probability and no
    cell reaches 1.  In the fixed mode a parameter in (0, 1] is accepted,
    while a parameter above 1 fails the argument validation of the
    constructor with a [ValueError] on every non-empty grid. *)
Theorem x7_bernoulli_prior_validity (m : AlignmentVAE)
  (seq_mask_x : tensor2 bool) (seq_len_x : tensor1 Z)
  (seq_mask_y : tensor2 bool) (p1 p2 : R) :
  str_in "bernoulli" (dist m) = true ->
  prior_params m = (p1, p2) ->
  (0 < p1 -> 0 < epsilon ->
   (forall b, (b < rows2 seq_mask_x)%nat -> (0 <= at1 seq_len_x b)%Z) ->
   exists probs,
     prior m seq_mask_x seq_len_x seq_mask_y
     = Ok (Some (BernoulliREINFORCE (Probs probs))) /\
     forall b j i, (b < rows2 seq_mask_x)%nat ->
                   0 < at3 probs b j i <= 0.99) /\
  (p1 <= 0 -> 0 < p2 -> p2 <= 1 ->
   prior m seq_mask_x seq_len_x seq_mask_y
   = Ok (Some (BernoulliREINFORCE
                 (Probs (new_full (rows2 seq_mask_x) (cols2 seq_mask_y)
                                  (cols2 seq_mask_x) p2))))) /\
  (p1 <= 0 -> 1 < p2 ->
   (0 < rows2 seq_mask_x)%nat -> (0 < cols2 seq_mask_y)%nat ->
   (0 < cols2 seq_mask_x)%nat ->
   prior m seq_mask_x seq_len_x seq_mask_y = Raise ValueError).
Proof.
  intros Hb Hp. split; [|split].
  - intros H1 He Hlen.
    destruct (prior_bernoulli_length_scaled_ok m seq_mask_x seq_len_x
                seq_mask_y p1 p2 Hb Hp H1 (Rlt_le _ _ He) Hlen)
      as (probs & Hprior & Hcell).
    exists probs. split; [exact Hprior|].
    intros b j i Hb0. rewrite Hcell.
    assert (Hl : 0 <= IZR (at1 seq_len_x b))
      by (apply IZR_le, Hlen; exact Hb0).
    assert (Hf : 0 <= float_of_bool (at2 seq_mask_x b i))
      by (unfold float_of_bool; destruct (at2 seq_mask_x b i); lra).
    assert (Hq : 0 < p1 * (float_of_bool (at2 seq_mask_x b i) + epsilon)
                     / (IZR (at1 seq_len_x b) + 1)).
    { apply Rdiv_lt_0_compat; [nra | lra]. }
    split; [apply Rmin_glb_lt; lra | apply Rmin_r].
  - intros H1 H2 H3. unfold prior. rewrite Hp, Hb.
    unfold bernoulli_prior_probs.
    rewrite (gt0_false p1 H1), (gt0_true p2 H2).
    cbn [mbind result_bind]. unfold BernoulliREINFORCE_new, validate_bern.
    rewrite unit_interval_intro; [reflexivity|].
    intros b j i _ _ _. simpl. lra.
  - intros H1 H2 Hd0 Hd1 Hd2. unfold prior. rewrite Hp, Hb.
    unfold bernoulli_prior_probs.
    rewrite (gt0_false p1 H1), (gt0_true p2) by lra.
    cbn [mbind result_bind]. unfold BernoulliREINFORCE_new, validate_bern.
    rewrite unit_interval_new_full_above by assumption. reflexivity.
Qed.

(** ** Further properties of the constructor and of the baselines *)

Lemma prior_table_built (prior_param_1 : R) (M : Z) (l r : R) (N : nat) :
  (0 < N)%nat ->
  exists tbl : gmap Z (R * R),
    _create_hardkuma_prior_table prior_param_1 M l r N = Ok tbl /\
    forall L, (1 <= L <= M)%Z -> exists a, tbl !! L = Some (a, 1).
Proof.
  intros HN.
  assert (Hne : kuma_priors l r N <> []).
  { intros Heq. pose proof (kuma_priors_length l r N) as Hlen.
    rewrite Heq in Hlen. simpl in Hlen. lia. }
  destruct (tabulate_spec (kuma_priors l r N) (range 1 (M + 1)) Hne ∅)
    as (tbl & Htab & _).
  exists tbl. split; [exact Htab|].
  intros L HL.
  destruct (prior_table_lookup prior_param_1 M l r N tbl HN Htab) as [Hin _].
  rewrite (Hin L HL).
  destruct (scan_inf_some (p0 L) None (kuma_priors l r N) Hne)
    as ([a b] & Hab).
  rewrite Hab. exists a.
  apply scan_result in Hab. destruct Hab as [Hab | (c & Hc & Hab)];
    [discriminate|].
  pose proof (kuma_priors_b l r N) as Hb.
  rewrite Forall_forall in Hb.
  specialize (Hb c (proj2 (list_elem_of_In _ _) Hc)).
  inversion Hab; subst. rewrite Hb. reflexivity.
Qed.

Lemma Embedding_new_inv (n : nat) (pad i : Z) :
  Embedding_new n pad = Ok i -> (- Z.of_nat n <= pad < Z.of_nat n)%Z.
Proof.
  unfold Embedding_new.
  destruct (Z.ltb_spec 0 pad) as [Hpos | Hnp].
  - destruct (Z.ltb_spec pad (Z.of_nat n)); [lia | discriminate].
  - destruct (Z.ltb_spec pad 0) as [Hneg | Hnn].
    + destruct (Z.leb_spec (- Z.of_nat n) pad); [lia | discriminate].
    + destruct (Nat.eqb_spec n 0); [discriminate | lia].
Qed.

Lemma Embedding_new_within (n : nat) (pad : Z) :
  (- Z.of_nat n <= pad < Z.of_nat n)%Z -> exists i, Embedding_new n pad = Ok i.
Proof.
  intros H. unfold Embedding_new.
  destruct (Z.ltb_spec 0 pad) as [Hpos | Hnp].
  - destruct (Z.ltb_spec pad (Z.of_nat n)); [eexists; reflexivity | lia].
  - destruct (Z.ltb_spec pad 0) as [Hneg | Hnn].
    + destruct (Z.leb_spec (- Z.of_nat n) pad); [eexists; reflexivity | lia].
    + destruct (Nat.eqb_spec n 0); [lia | eexists; reflexivity].
Qed.

Lemma Embedding_new_outside (n : nat) (pad : Z) :
  ~ (- Z.of_nat n <= pad < Z.of_nat n)%Z ->
  (pad <> 0%Z ->
   Embedding_new n pad
   = Raise (AssertionError "Padding_idx must be within num_embeddings")) /\
  (pad = 0%Z -> Embedding_new n pad = Raise IndexError).
Proof.
  intros H. unfold Embedding_new. split; intros Hp.
  - destruct (Z.ltb_spec 0 pad) as [Hpos | Hnp].
    + destruct (Z.ltb_spec pad (Z.of_nat n)); [lia | reflexivity].
    + destruct (Z.ltb_spec pad 0) as [Hneg | Hnn]; [|lia].
      destruct (Z.leb_spec (- Z.of_nat n) pad); [lia | reflexivity].
  - subst pad. simpl.
    destruct (Nat.eqb_spec n 0); [reflexivity | lia].
Qed.

(** X8.  The constructor.  A padding index outside the source vocabulary,
    or inside it and outside the target vocabulary, makes the construction
    of an embedding fail: with [AssertionError] for an index other than 0,
    with [IndexError] for the index 0 of an empty vocabulary.  An exception
    of the construction of the encoders is passed on.  In every other case
    the constructor returns.  The model it returns is consistent: the
    padding index lies within both vocabularies; the inference network has
    the model's [dist]; the running baselines exist exactly for
    ["bernoulli-RF"], where they start at mean 0 and standard deviation 1
    with smoothing factor 0.05; the prior table exists exactly for
    ["hardkuma"], where it holds an entry with [b = 1] for every length of
    [1, max_sentence_length]. *)
Theorem x8_init_consistent (d : string) (pp : R * R) (sv vs es : nat)
  (pad : Z) (pool : string) (M : Z) (cv1 cv2 cv3 : bool)
  (emb : Z -> nat -> R) (w : nat -> nat -> R) (bias : nat -> R)
  (enc : result (tensor2 Z -> tensor2 Z -> tensor3 R)) :
  let run := AlignmentVAE_init d pp sv vs es pad pool M cv1 cv2 cv3
                               emb w bias enc in
  let within := fun n : nat => (- Z.of_nat n <= pad < Z.of_nat n)%Z in
  let failed :=
    if Z.eqb pad 0 then Raise IndexError
    else Raise (AssertionError "Padding_idx must be within num_embeddings") in
  (~ within sv -> run = failed) /\
  (within sv -> ~ within vs -> run = failed) /\
  (forall e, within sv -> within vs -> enc = Raise e -> run = Raise e) /\
  (forall att, within sv -> within vs -> enc = Ok att ->
     exists m, run = Ok m) /\
  (forall m, run = Ok m ->
     within sv /\ within vs /\
     enc = Ok (attention_logits (inf_network m)) /\
     dist m = d /\ inf_dist (inf_network m) = d /\ prior_params m = pp /\
     pad_idx m = pad /\ pooling m = pool /\
     emb_size m = es /\ tgt_vocab_size m = vs /\
     (d = "bernoulli-RF" ->
      baselines m
      = Some {| avg_reward := Some 0; std_reward := Some 1; alpha := 0.05;
                use_mean_cv := cv1; use_std_cv := cv2;
                use_self_critic_cv := cv3 |}) /\
     (d <> "bernoulli-RF" -> baselines m = None) /\
     (d = "hardkuma" ->
      exists tbl, hardkuma_prior_table m = Some tbl /\
                  forall L, (1 <= L <= M)%Z ->
                            exists a, tbl !! L = Some (a, 1)) /\
     (d <> "hardkuma" -> hardkuma_prior_table m = None)).
Proof.
  intros run within failed.
  assert (Hfail : forall n (k : Z -> result AlignmentVAE),
            ~ within n -> Embedding_new n pad ≫= k = failed).
  { intros n k Hn. destruct (Embedding_new_outside n pad Hn) as [Ha Hi].
    unfold failed. destruct (Z.eqb_spec pad 0) as [H0 | H0];
      [rewrite (Hi H0) | rewrite (Ha H0)]; reflexivity. }
  assert (Htable : exists tbl,
    (if String.eqb d "hardkuma"
     then t ← _create_hardkuma_prior_table (fst pp) M (-0.1) 1.1
                (Z.to_nat 10000);
          Ok (Some t)
     else Ok None) = Ok tbl /\
    (d = "hardkuma" ->
     exists t, tbl = Some t /\
               forall L, (1 <= L <= M)%Z -> exists a, t !! L = Some (a, 1)) /\
    (d <> "hardkuma" -> tbl = None)).
  { destruct (String.eqb_spec d "hardkuma") as [Hhk | Hhk].
    - destruct (prior_table_built (fst pp) M (-0.1) 1.1 (Z.to_nat 10000))
        as (t & Hok & Hall); [lia|].
      rewrite Hok. exists (Some t). split; [reflexivity|].
      split; [intros _; exists t; split; [reflexivity | exact Hall]|].
      intros Hne. contradiction.
    - exists None. split; [reflexivity|].
      split; [intros Heq; contradiction | reflexivity]. }
  split; [|split; [|split; [|split]]].
  - intros Hsv. unfold run, AlignmentVAE_init. apply Hfail. exact Hsv.
  - intros Hsv Hvs. unfold run, AlignmentVAE_init.
    destruct (Embedding_new_within sv pad Hsv) as (i & Hi).
    rewrite Hi. cbn [mbind result_bind]. apply Hfail. exact Hvs.
  - intros e Hsv Hvs He. unfold run, AlignmentVAE_init.
    destruct (Embedding_new_within sv pad Hsv) as (i & Hi).
    destruct (Embedding_new_within vs pad Hvs) as (k & Hk).
    rewrite Hi, Hk, He. reflexivity.
  - intros att Hsv Hvs He. unfold run, AlignmentVAE_init.
    destruct (Embedding_new_within sv pad Hsv) as (i & Hi).
    destruct (Embedding_new_within vs pad Hvs) as (k & Hk).
    destruct Htable as (tbl & Ht & _).
    rewrite Hi, Hk, He. cbn [mbind result_bind]. rewrite Ht.
    eexists. reflexivity.
  - intros m Hm. unfold run, AlignmentVAE_init in Hm.
    apply bind_Ok_inv in Hm. destruct Hm as (i & Hi & Hm).
    apply bind_Ok_inv in Hm. destruct Hm as (i' & _ & Hm).
    apply bind_Ok_inv in Hm. destruct Hm as (k & Hk & Hm).
    apply bind_Ok_inv in Hm. destruct Hm as (att & Hatt & Hm).
    apply bind_Ok_inv in Hm. destruct Hm as (tbl & Ht & Hm).
    destruct Htable as (tbl' & Ht' & Hhk & Hnhk).
    rewrite Ht in Ht'. inversion Ht'; subst tbl'.
    inversion Hm; subst m; clear Hm. simpl.
    split; [exact (Embedding_new_inv sv pad i Hi)|].
    split; [exact (Embedding_new_inv vs pad k Hk)|].
    split; [exact Hatt|].
    repeat (split; [reflexivity|]).
    split; [intros ->; reflexivity|].
    split; [intros Hd; apply String.eqb_neq in Hd; rewrite Hd; reflexivity|].
    split; [exact Hhk | exact Hnhk].
Qed.


(** One call of [update_baselines] on baselines that hold numbers, for a
    batch of at least two sentences whose target lengths are not zero: the
    new baselines hold numbers. *)
Lemma update_baselines_numbers (m : AlignmentVAE) (s : RFState)
  (new_reward : tensor2 R) (seq_len_y : tensor1 Z) :
  rf m = Some s ->
  (2 <= rows2 new_reward)%nat ->
  (forall b, (b < rows2 new_reward)%nat -> at1 seq_len_y b <> 0%Z) ->
  exists m',
    update_baselines m new_reward seq_len_y = Ok m' /\
    rf m'
    = Some {| avg_reward := alpha s * batch_mean new_reward seq_len_y
                            + (1.0 - alpha s) * avg_reward s;
              std_reward := alpha s * batch_std new_reward seq_len_y
                            + (1.0 - alpha s) * std_reward s;
              alpha := alpha s;
              use_mean_cv := use_mean_cv s;
              use_std_cv := use_std_cv s;
              use_self_critic_cv := use_self_critic_cv s |}.
Proof.
  intros Hs HB Hlen. eexists. split.
  - rewrite (update_baselines_avg m (of_numbers s) (avg_reward s)
               new_reward seq_len_y (rf_baselines m s Hs) eq_refl)
      by (assumption || lia).
    rewrite (std1_batch new_reward seq_len_y HB Hlen). reflexivity.
  - reflexivity.
Qed.

(** The shape of the adjusted reward is that of the reward. *)
Lemma control_variates_shape (m : AlignmentVAE) (s : Baselines)
  (x y : tensor2 Z) (qa : distribution) (reward : tensor2 R) :
  rows2 (fst (control_variates m s x y qa reward)) = rows2 reward /\
  cols2 (fst (control_variates m s x y qa reward)) = cols2 reward.
Proof.
  unfold control_variates.
  destruct (use_self_critic_cv s), (use_mean_cv s), (use_std_cv s);
    split; reflexivity.
Qed.

(** With the division by the standard deviation switched on, a NaN
    [std_reward] makes every cell of the adjusted reward NaN. *)
Lemma control_variates_nan (m : AlignmentVAE) (s : Baselines)
  (x y : tensor2 Z) (qa : distribution) (reward : tensor2 R) (b j : nat) :
  use_std_cv s = true -> std_reward s = None ->
  at2 (fst (control_variates m s x y qa reward)) b j = None.
Proof.
  intros Hflag Hnan. unfold control_variates. rewrite Hflag, Hnan. simpl.
  match goal with |- mbind _ ?c = None => destruct c; reflexivity end.
Qed.

(** The dictionary of [loss] then holds NaN, for a batch with at least one
    target position. *)
Lemma loss_nan (m : AlignmentVAE) (s : Baselines) (logits : tensor3 R)
  (x y : tensor2 Z) (A : tensor3 R) (seq_mask_x seq_mask_y : tensor2 bool)
  (pa qa : distribution) (c : R) (reduction : string) (K : tensor3 R) :
  dist m = "bernoulli-RF" -> baselines m = Some s ->
  use_std_cv s = true -> std_reward s = None ->
  kl_divergence ext qa pa = Ok K ->
  reduction = "mean" \/ reduction = "sum" \/ reduction = "none" ->
  (0 < rows2 y)%nat -> (0 < cols2 y)%nat ->
  loss m logits x y A seq_mask_x seq_mask_y pa qa c reduction = NotANumber.
Proof.
  intros Hd Hs Hflag Hnan HK Hred Hrows Hcols.
  unfold loss. rewrite HK, Hd, Hs.
  cbn [mbind result_bind String.eqb Ascii.eqb Bool.eqb].
  match goal with
  | |- context [control_variates m s x y qa ?r] =>
      pose proof (control_variates_shape m s x y qa r) as [Hr Hc];
      pose proof (control_variates_nan m s x y qa r 0 0 Hflag Hnan) as Hcell;
      destruct (control_variates m s x y qa r) as [nr rsc]
  end.
  cbn [fst snd] in Hr, Hc, Hcell. simpl in Hr, Hc.
  rewrite (numbers2_nan nr 0 0) by (assumption || lia).
  unfold reduce. destruct Hred as [-> | [-> | ->]]; reflexivity.
Qed.

(** C10.  A batch of exactly one sentence has no standard deviation: the
    sample standard deviation divides by [n - 1 = 0] and is NaN.
    [update_baselines] called with such a batch returns, and the
    [std_reward] of the model it leaves is NaN; it stays NaN through any
    further calls of [update_baselines].  From then on, with the division by
    the standard deviation switched on, every cell of the normalized reward
    that [loss] computes is NaN, and the dictionary of [loss] holds NaN for
    every batch with a target position.  With at least two sentences of
    non-zero target length the update is well defined: on baselines that
    hold numbers it leaves baselines that hold numbers. *)
Theorem c10_single_sentence_batch (m : AlignmentVAE) (s : Baselines)
  (new_reward : tensor2 R) (seq_len_y : tensor1 Z) :
  baselines m = Some s ->
  rows2 new_reward = 1%nat ->
  std1 (length_normalized new_reward seq_len_y) = None /\
  (exists m1 s1,
     update_baselines m new_reward seq_len_y = Ok m1 /\
     baselines m1 = Some s1 /\ std_reward s1 = None /\
     forall batches, exists m2 s2,
       update_baselines_all m1 batches = Ok m2 /\
       baselines m2 = Some s2 /\ std_reward s2 = None /\
       (use_std_cv s = true ->
        (forall x y qa reward b j,
           at2 (fst (control_variates m2 s2 x y qa reward)) b j = None) /\
        (dist m = "bernoulli-RF" ->
         forall logits x y A seq_mask_x seq_mask_y pa qa c reduction K,
           kl_divergence ext qa pa = Ok K ->
           reduction = "mean" \/ reduction = "sum" \/ reduction = "none" ->
           (0 < rows2 y)%nat -> (0 < cols2 y)%nat ->
           loss m2 logits x y A seq_mask_x seq_mask_y pa qa c reduction
           = NotANumber))) /\
  (forall s0 batch lengths,
     rf m = Some s0 -> (2 <= rows2 batch)%nat ->
     (forall b, (b < rows2 batch)%nat -> at1 lengths b <> 0%Z) ->
     exists m' s',
       update_baselines m batch lengths = Ok m' /\ rf m' = Some s' /\
       std_reward s'
       = alpha s0 * sqrt (sumn (rows2 batch)
                            (fun b => (batch_reward batch lengths b
                                       - batch_mean batch lengths)
                                      * (batch_reward batch lengths b
                                         - batch_mean batch lengths))
                          / (INR (rows2 batch) - 1))
         + (1.0 - alpha s0) * std_reward s0).
Proof.
  intros Hs HB.
  assert (Hnan : std1 (length_normalized new_reward seq_len_y) = None).
  { apply std1_undefined. simpl. lia. }
  split; [exact Hnan|]. split.
  - assert (Hup : exists m1, update_baselines m new_reward seq_len_y = Ok m1).
    { unfold update_baselines. rewrite Hs. eexists. reflexivity. }
    destruct Hup as (m1 & Hup).
    pose proof Hup as Hup'.
    unfold update_baselines in Hup'. rewrite Hs, Hnan in Hup'.
    inversion Hup' as [Hm1]; clear Hup'.
    destruct (update_baselines_frame m m1 new_reward seq_len_y Hup)
      as (s0 & s1 & Hs0 & Hs1 & Hd & _ & _ & _ & Hflag & _ & _ & _).
    rewrite Hs in Hs0. inversion Hs0; subst s0; clear Hs0.
    assert (Hstd1 : std_reward s1 = None).
    { rewrite <- Hm1 in Hs1. simpl in Hs1. inversion Hs1. reflexivity. }
    exists m1, s1. split; [exact Hup|]. split; [exact Hs1|].
    split; [exact Hstd1|].
    intros batches.
    destruct (update_baselines_all_nan batches m1 s1 Hs1 Hstd1)
      as (m2 & s2 & Hall & Hs2 & Hstd2 & Hd2 & Hflag2).
    exists m2, s2. split; [exact Hall|]. split; [exact Hs2|].
    split; [exact Hstd2|].
    intros Hon.
    assert (Hon2 : use_std_cv s2 = true) by congruence.
    split.
    + intros x y qa reward b j. apply control_variates_nan; assumption.
    + intros Hrf logits x y A seq_mask_x seq_mask_y pa qa c reduction K
             HK Hred Hrows Hcols.
      apply (loss_nan m2 s2 logits x y A seq_mask_x seq_mask_y pa qa c
               reduction K); try assumption.
      congruence.
  - intros s0 batch lengths Hs0 Hbatch Hlen.
    destruct (update_baselines_numbers m s0 batch lengths Hs0 Hbatch Hlen)
      as (m' & Hup & Hrf).
    exists m'. eexists. split; [exact Hup|]. split; [exact Hrf|].
    reflexivity.
Qed.

(** X9.  Repeated updates converge geometrically.  On a model whose
    baselines hold numbers, with smoothing factor 0.05, and for a batch of
    at least two sentences whose target lengths are not zero: after [n]
    calls of [update_baselines] with that batch the baselines still hold
    numbers, and the distance of [avg_reward] to the batch mean [mu] and
    that of [std_reward] to the batch standard deviation [sd] have both been
    multiplied by [0.95 ^ n]. *)
Theorem x9_update_baselines_geometric (n : nat) (m : AlignmentVAE)
  (s : RFState) (new_reward : tensor2 R) (seq_len_y : tensor1 Z) :
  rf m = Some s -> alpha s = 0.05 ->
  (2 <= rows2 new_reward)%nat ->
  (forall b, (b < rows2 new_reward)%nat -> at1 seq_len_y b <> 0%Z) ->
  let B := rows2 new_reward in
  let r := fun b => sumn (cols2 new_reward) (fun j => at2 new_reward b j)
                    / IZR (at1 seq_len_y b) in
  let mu := sumn B r / INR B in
  let sd := sqrt (sumn B (fun b => (r b - mu) * (r b - mu)) / (INR B - 1)) in
  exists m' s',
    update_baselines_n n m new_reward seq_len_y = Ok m' /\
    rf m' = Some s' /\ alpha s' = 0.05 /\
    avg_reward s' - mu = 0.95 ^ n * (avg_reward s - mu) /\
    std_reward s' - sd = 0.95 ^ n * (std_reward s - sd).
Proof.
  intros Hs Ha HB Hlen B r mu sd.
  assert (Hmu : batch_mean new_reward seq_len_y = mu) by reflexivity.
  assert (Hsd : batch_std new_reward seq_len_y = sd) by reflexivity.
  clearbody mu sd. clear r B.
  revert m s Hs Ha. induction n as [|n IH]; intros m s Hs Ha; simpl.
  - exists m, s. split; [reflexivity|]. split; [exact Hs|].
    split; [exact Ha|]. split; lra.
  - destruct (update_baselines_numbers m s new_reward seq_len_y Hs HB Hlen)
      as (m1 & Hup & Hs1).
    rewrite Hup. cbn [mbind result_bind].
    destruct (IH m1 _ Hs1 Ha) as (m' & s' & Hn & Hrf & Hal & Havg & Hstd).
    exists m', s'. split; [exact Hn|]. split; [exact Hrf|].
    split; [exact Hal|]. simpl in Havg, Hstd.
    rewrite Ha, Hmu in Havg. rewrite Ha, Hsd in Hstd.
    split; [rewrite Havg | rewrite Hstd]; lra.
Qed.

(** ** Further properties of the objective *)


(** X11.  The reward entries of the dictionary of [loss].  Outside
    ["bernoulli-RF"] there is none.  For ["bernoulli-RF"] the baselines
    exist and the entry ["reward"] is the reconstruction log-likelihood of
    every target position; ["reward_sc"] exists only with the self-critic;
    with all three control variates switched off ["normalized_reward"] is
    exactly ["reward"]; and on baselines that hold numbers
    ["normalized_reward"] is the reward after the control variates. *)
Theorem x11_loss_reward_entries (m : AlignmentVAE) (logits : tensor3 R)
  (x y : tensor2 Z) (A : tensor3 R) (seq_mask_x seq_mask_y : tensor2 bool)
  (pa qa : distribution) (c : R) (reduction : string) (out : loss_output) :
  loss m logits x y A seq_mask_x seq_mask_y pa qa c reduction = Ok out ->
  (dist m <> "bernoulli-RF" ->
   out_reward out = None /\ out_normalized_reward out = None /\
   out_reward_sc out = None) /\
  (dist m = "bernoulli-RF" ->
   exists s reward,
     baselines m = Some s /\ out_reward out = Some reward /\
     (forall b j, at2 reward b j = at2 (out_log_py_xa out) b j) /\
     (use_self_critic_cv s = false -> out_reward_sc out = None) /\
     (use_self_critic_cv s = true -> exists sc, out_reward_sc out = Some sc) /\
     (use_self_critic_cv s = false -> use_mean_cv s = false ->
      use_std_cv s = false ->
      out_normalized_reward out = Some reward) /\
     (forall s', rf m = Some s' ->
        s = of_numbers s' /\
        out_normalized_reward out
        = Some (fst (apply_control_variates m s' x y qa reward)))).
Proof.
  intros H. unfold loss in H.
  apply bind_Ok_inv in H. destruct H as (K & _ & H).
  apply bind_Ok_inv in H. destruct H as ([[[l1 rsc] rw] nr] & Hrf & H).
  apply bind_Ok_inv in H. destruct H as (red & _ & H).
  inversion H; subst out; clear H. simpl.
  destruct (String.eqb (dist m) "bernoulli-RF") eqn:Hd.
  - apply String.eqb_eq in Hd. split; [intros Hne; contradiction|].
    intros _. destruct (baselines m) as [s|] eqn:Hb; [|discriminate Hrf].
    match type of Hrf with
    | context [control_variates m s x y qa ?r] =>
        pose proof (fun s' => control_variates_numbers m s' x y qa r)
          as Hnumbers;
        destruct (control_variates m s x y qa r) as [nr0 rsc0] eqn:Hcv
    end.
    destruct (numbers2 nr0) as [nr1|] eqn:Hn;
      [|destruct (reduce _ _); discriminate Hrf].
    inversion Hrf; subst; clear Hrf.
    exists s. eexists. split; [reflexivity|]. split; [reflexivity|].
    split; [intros; reflexivity|].
    pose proof Hcv as Hcv'.
    unfold control_variates in Hcv. injection Hcv as Hnr Hrsc.
    split; [intros Hf; rewrite Hf in Hrsc; symmetry; exact Hrsc|].
    split; [intros Hf; rewrite Hf in Hrsc; eexists; symmetry; exact Hrsc|].
    split.
    + intros F1 F2 F3. rewrite F1, F2, F3 in Hnr. subst nr0.
      rewrite numbers2_all in Hn by (intros; reflexivity).
      inversion Hn. reflexivity.
    + intros s' Hs'. pose proof (rf_baselines m s' Hs') as Hb'.
      rewrite Hb in Hb'. inversion Hb'; subst s.
      split; [reflexivity|].
      destruct (Hnumbers s') as [Hn' _]. rewrite Hcv' in Hn'.
      cbn [fst] in Hn'. rewrite Hn in Hn'. exact Hn'.
  - apply String.eqb_neq in Hd. split; [|intros He; contradiction].
    intros _. inversion Hrf; subst. repeat split.
Qed.

(** X12.  When [loss] returns.  Whatever the model, [loss] returns its
    dictionary only if the KL is computed, the [reduction] is ["mean"],
    ["sum"] or ["none"] and, for ["bernoulli-RF"], the baselines exist.  For
    a model other than ["bernoulli-RF"], and targets that are each the
    padding index or a word of the vocabulary of the logits (the targets
    that the cross-entropy accepts), the outcome is determined: an exception
    of the KL computation is passed on; otherwise an unknown [reduction]
    raises ["Unknown reduction option"]; otherwise [loss] returns. *)
Theorem x12_loss_outcomes (m : AlignmentVAE) (logits : tensor3 R)
  (x y : tensor2 Z) (A : tensor3 R) (seq_mask_x seq_mask_y : tensor2 bool)
  (pa qa : distribution) (c : R) (reduction : string) :
  let run := loss m logits x y A seq_mask_x seq_mask_y pa qa c reduction in
  let known := reduction = "mean" \/ reduction = "sum"
               \/ reduction = "none" in
  ((exists out, run = Ok out) ->
   (exists K, kl_divergence ext qa pa = Ok K) /\ known /\
   (dist m = "bernoulli-RF" -> exists s, baselines m = Some s)) /\
  (dist m <> "bernoulli-RF" ->
   (forall b j, (b < rows2 y)%nat -> (j < cols2 y)%nat ->
      at2 y b j = pad_idx m \/
      (0 <= at2 y b j < Z.of_nat (dim2 logits))%Z) ->
   (forall e, kl_divergence ext qa pa = Raise e -> run = Raise e) /\
   (forall K, kl_divergence ext qa pa = Ok K -> ~ known ->
      run = Raise (Exception ("Unknown reduction option " ++ reduction))) /\
   ((exists out, run = Ok out) <->
    (exists K, kl_divergence ext qa pa = Ok K) /\ known)).
Proof.
  intros run known.
  assert (Hred_bad : ~ known ->
    String.eqb reduction "mean" = false /\
    String.eqb reduction "sum" = false /\
    String.eqb reduction "none" = false).
  { intros Hn. unfold known in Hn. repeat split; apply String.eqb_neq;
      intros Heq; apply Hn; tauto. }
  assert (Hnec : (exists out, run = Ok out) ->
    (exists K, kl_divergence ext qa pa = Ok K) /\ known /\
    (dist m = "bernoulli-RF" -> exists s, baselines m = Some s)).
  { intros (out & Hout). unfold run, loss in Hout.
    apply bind_Ok_inv in Hout. destruct Hout as (K & HK & Hout).
    apply bind_Ok_inv in Hout.
    destruct Hout as ([[[l1 rsc] rw] nr] & Hrf & Hout).
    apply bind_Ok_inv in Hout. destruct Hout as (red & Hred & _).
    split; [exists K; exact HK|]. split.
    - unfold known. unfold reduce in Hred.
      destruct (String.eqb reduction "mean") eqn:E1;
        [apply String.eqb_eq in E1; tauto|].
      destruct (String.eqb reduction "sum") eqn:E2;
        [apply String.eqb_eq in E2; tauto|].
      destruct (String.eqb reduction "none") eqn:E3;
        [apply String.eqb_eq in E3; tauto|].
      discriminate Hred.
    - intros Hd. rewrite Hd in Hrf.
      destruct (baselines m) as [s|]; [|discriminate Hrf].
      exists s. reflexivity. }
  split; [exact Hnec|].
  intros Hd Htargets. apply String.eqb_neq in Hd.
  split; [|split].
  - intros e He. unfold run, loss. rewrite He. reflexivity.
  - intros K HK Hn. destruct (Hred_bad Hn) as (R1 & R2 & R3).
    unfold run, loss, reduce. rewrite HK, Hd. cbn [mbind result_bind].
    rewrite R1, R2, R3. reflexivity.
  - split.
    + intros Hout. destruct (Hnec Hout) as (HK & Hk & _).
      split; assumption.
    + intros ((K & HK) & Hk). unfold run, loss, reduce. rewrite HK, Hd.
      cbn [mbind result_bind].
      destruct Hk as [-> | [-> | ->]]; eexists; reflexivity.
Qed.

Lemma ln_le_minus_1 (x : R) : 0 < x -> ln x <= x - 1.
Proof.
  intros Hx. pose proof (exp_ineq1_le (ln x)) as H.
  rewrite exp_ln in H by exact Hx. lra.
Qed.

Lemma ln_ratio_lower (a b : R) : 0 < a -> 0 < b -> a - b <= a * ln (a / b).
Proof.
  intros Ha Hb.
  assert (Hinv : a / b = / (b / a)) by (field; lra).
  rewrite Hinv, ln_Rinv by (apply Rdiv_lt_0_compat; lra).
  pose proof (ln_le_minus_1 (b / a) (Rdiv_lt_0_compat _ _ Hb Ha)) as H.
  assert (Hba : a * (b / a) = b) by (field; lra).
  nra.
Qed.

Lemma kl_bernoulli_cell_nonneg (q p : R) :
  0 < q < 1 -> 0 < p < 1 -> 0 <= kl_bernoulli_cell q p.
Proof.
  intros Hq Hp. unfold kl_bernoulli_cell.
  pose proof (ln_ratio_lower q p) as H1.
  pose proof (ln_ratio_lower (1 - q) (1 - p)) as H2.
  lra.
Qed.

Lemma sumn_nonneg (n : nat) (f : nat -> R) :
  (forall k, (k < n)%nat -> 0 <= f k) -> 0 <= sumn n f.
Proof.
  induction n as [|n IH]; intros H; simpl; [lra|].
  assert (0 <= sumn n f) by (apply IH; intros k Hk; apply H; lia).
  assert (0 <= f n) by (apply H; lia). lra.
Qed.

Lemma sumn_ge_term (n : nat) (f : nat -> R) (i : nat) :
  (forall k, (k < n)%nat -> 0 <= f k) -> (i < n)%nat -> f i <= sumn n f.
Proof.
  induction n as [|n IH]; intros H Hi; [lia|]. simpl.
  assert (H0 : 0 <= sumn n f)
    by (apply sumn_nonneg; intros k Hk; apply H; lia).
  assert (Hn : 0 <= f n) by (apply H; lia).
  destruct (Nat.eq_dec i n) as [-> | Hne]; [lra|].
  assert (f i <= sumn n f) by (apply IH; [intros k Hk; apply H; lia | lia]).
  lra.
Qed.

Lemma sumn_le (n : nat) (f g : nat -> R) :
  (forall k, (k < n)%nat -> f k <= g k) -> sumn n f <= sumn n g.
Proof.
  induction n as [|n IH]; intros H; simpl; [lra|].
  assert (sumn n f <= sumn n g) by (apply IH; intros k Hk; apply H; lia).
  assert (f n <= g n) by (apply H; lia). lra.
Qed.

(** The cross-entropy of a target of the vocabulary is not negative. *)
Lemma cross_entropy_nonneg (logits : tensor3 R) (y : tensor2 Z) (pad : Z)
  (b j : nat) :
  at2 y b j = pad \/ (0 <= at2 y b j < Z.of_nat (dim2 logits))%Z ->
  0 <= at2 (cross_entropy logits y pad) b j.
Proof.
  intros H. unfold cross_entropy. simpl.
  destruct (Z.eqb (at2 y b j) pad) eqn:Hy; [lra|].
  apply Z.eqb_neq in Hy. destruct H as [H | H]; [contradiction|].
  set (k := Z.to_nat (at2 y b j)).
  assert (Hk : (k < dim2 logits)%nat) by (unfold k; lia).
  assert (Hterm : exp (at3 logits b j k)
                  <= sumn (dim2 logits) (fun v => exp (at3 logits b j v))).
  { apply (sumn_ge_term (dim2 logits) (fun v => exp (at3 logits b j v)) k);
      [|exact Hk].
    intros v _. apply Rlt_le, exp_pos. }
  pose proof (exp_pos (at3 logits b j k)) as Hpos.
  assert (Hln : ln (exp (at3 logits b j k))
                <= ln (sumn (dim2 logits)
                         (fun v => exp (at3 logits b j v)))).
  { destruct Hterm as [Hlt | Heq].
    - apply Rlt_le, ln_increasing; assumption.
    - rewrite <- Heq. lra. }
  rewrite ln_exp in Hln. lra.
Qed.

(** X13.  Signs of the entries of [loss] for Bernoulli distributions.
    When the posterior and the prior are Bernoullis whose probabilities lie
    strictly between 0 and 1 on the cells inside the masks, and the targets
    are padding or words of the vocabulary, then for every batch element
    the KL entry is non-negative, the reconstruction log-likelihood of every
    position is non-positive and the reported ELBO is non-positive. *)
Theorem x13_loss_signs (m : AlignmentVAE) (logits : tensor3 R)
  (x y : tensor2 Z) (A : tensor3 R) (seq_mask_x seq_mask_y : tensor2 bool)
  (pa qa : distribution) (c : R) (reduction : string) (out : loss_output) :
  family_of qa = FBernoulli -> family_of pa = FBernoulli ->
  (forall b j i,
     at2 seq_mask_x b i = true -> at2 seq_mask_y b j = true ->
     0 < at3 (dist_mean ext qa) b j i < 1 /\
     0 < at3 (dist_mean ext pa) b j i < 1) ->
  (forall b j, at2 y b j = pad_idx m \/
               (0 <= at2 y b j < Z.of_nat (dim2 logits))%Z) ->
  loss m logits x y A seq_mask_x seq_mask_y pa qa c reduction = Ok out ->
  forall b,
    0 <= at1 (out_KL out) b /\
    (forall j, at2 (out_log_py_xa out) b j <= 0) /\
    at1 (out_ELBO out) b <= 0.
Proof.
  intros Hfq Hfp Hprob Hy Hloss b.
  assert (HK : exists pq pp,
             kl_divergence ext qa pa = Ok (kl_bernoulli pq pp) /\
             dist_mean ext qa = bern_probs pq /\
             dist_mean ext pa = bern_probs pp).
  { destruct qa, pa; try discriminate Hfq; try discriminate Hfp;
      eexists; eexists; repeat split. }
  destruct HK as (pq & pp & HK & Hmq & Hmp).
  destruct (loss_entries _ _ _ _ _ _ _ _ _ _ _ _ _ HK Hloss)
    as (HKL & Hlog & HE).
  assert (Hkl0 : 0 <= at1 (masked_KL seq_mask_x seq_mask_y
                             (kl_bernoulli pq pp)) b).
  { rewrite masked_KL_cells. apply sumn_nonneg. intros j _.
    apply sumn_nonneg. intros i _.
    destruct (at2 seq_mask_y b j) eqn:My, (at2 seq_mask_x b i) eqn:Mx;
      simpl; try lra.
    destruct (Hprob b j i Mx My) as [Hq Hp]. rewrite Hmq in Hq.
    rewrite Hmp in Hp. apply kl_bernoulli_cell_nonneg; assumption. }
  assert (Hnll : 0 <= nll_sum m logits y b).
  { unfold nll_sum. simpl. apply sumn_nonneg. intros j _.
    apply (cross_entropy_nonneg logits y (pad_idx m) b j). apply Hy. }
  split; [rewrite HKL; exact Hkl0|]. split.
  - intros j. rewrite Hlog.
    pose proof (cross_entropy_nonneg logits y (pad_idx m) b j (Hy b j)). lra.
  - rewrite HE. lra.
Qed.

(** ** Further properties of the generative model *)

Lemma sumn_single (n : nat) (f : nat -> R) (i0 : nat) :
  (i0 < n)%nat -> (forall i, (i < n)%nat -> i <> i0 -> f i = 0) ->
  sumn n f = f i0.
Proof.
  induction n as [|n IH]; intros Hi H; [lia|]. simpl.
  destruct (Nat.eq_dec i0 n) as [-> | Hne].
  - rewrite sumn_zero; [lra|]. intros k Hk. apply H; lia.
  - rewrite IH; [|lia|intros i Hi' Hd; apply H; [lia | exact Hd]].
    rewrite (H n) by lia. lra.
Qed.

(** X14.  The generative model pools per target position.  The logits of
    [forward] have shape [B, T_y, V]; those of a target position depend on
    the alignment row of that position only; a row of zeros gives the bias
    of the categorical layer (the stabilised denominator of average pooling
    being [epsilon > 0], not zero); and a row that selects a single source
    word gives the categorical layer applied to the embedding of that word,
    divided by [1 + epsilon] under average pooling. *)
Theorem x14_forward_pooling (m : AlignmentVAE) (x : tensor2 Z)
  (A : tensor3 R) (b j v : nat) :
  0 < epsilon ->
  (dim0 (forward m x A) = dim0 A /\ dim1 (forward m x A) = dim1 A /\
   dim2 (forward m x A) = tgt_vocab_size m) /\
  (forall A',
     dim2 A' = dim2 A ->
     (forall i, (i < dim2 A)%nat -> at3 A' b j i = at3 A b j i) ->
     at3 (forward m x A') b j v = at3 (forward m x A) b j v) /\
  ((forall i, (i < dim2 A)%nat -> at3 A b j i = 0) ->
   at3 (forward m x A) b j v = categorical_bias m v) /\
  (forall i0,
     (i0 < dim2 A)%nat -> at3 A b j i0 = 1 ->
     (forall i, (i < dim2 A)%nat -> i <> i0 -> at3 A b j i = 0) ->
     at3 (forward m x A) b j v
     = sumn (emb_size m)
            (fun e => categorical_weight m v e
                      * (if String.eqb (pooling m) "avg"
                         then src_embedder m (at2 x b i0) e / (1 + epsilon)
                         else src_embedder m (at2 x b i0) e))
       + categorical_bias m v).
Proof.
  intros He. split; [repeat split|]. split; [|split].
  - intros A' Hdim Hrow. unfold forward. simpl. rewrite Hdim.
    f_equal. apply sumn_ext. intros e _. f_equal.
    assert (Hw : sumn (dim2 A)
                   (fun i => src_embedder m (at2 x b i) e * at3 A' b j i)
                 = sumn (dim2 A)
                     (fun i => src_embedder m (at2 x b i) e * at3 A b j i)).
    { apply sumn_ext. intros i Hi. rewrite Hrow by exact Hi. reflexivity. }
    assert (Hs : sumn (dim2 A) (fun i => at3 A' b j i)
                 = sumn (dim2 A) (fun i => at3 A b j i)).
    { apply sumn_ext. intros i Hi. apply Hrow. exact Hi. }
    rewrite Hw, Hs. reflexivity.
  - intros Hzero. unfold forward. simpl.
    rewrite sumn_zero; [lra|]. intros e _.
    assert (Hw : sumn (dim2 A)
                   (fun i => src_embedder m (at2 x b i) e * at3 A b j i) = 0).
    { apply sumn_zero. intros i Hi. rewrite Hzero by exact Hi. lra. }
    assert (Hs : sumn (dim2 A) (fun i => at3 A b j i) = 0)
      by (apply sumn_zero; exact Hzero).
    rewrite Hw, Hs. destruct (String.eqb (pooling m) "avg").
    + unfold Rdiv. rewrite Rmult_0_l. lra.
    + lra.
  - intros i0 Hi0 Hone Hothers. unfold forward. simpl.
    f_equal. apply sumn_ext. intros e _. f_equal.
    assert (Hw : sumn (dim2 A)
                   (fun i => src_embedder m (at2 x b i) e * at3 A b j i)
                 = src_embedder m (at2 x b i0) e).
    { rewrite (sumn_single _ _ i0 Hi0).
      - rewrite Hone. lra.
      - intros i Hi Hd. rewrite (Hothers i Hi Hd). lra. }
    assert (Hs : sumn (dim2 A) (fun i => at3 A b j i) = 1).
    { rewrite (sumn_single _ _ i0 Hi0); [exact Hone | exact Hothers]. }
    rewrite Hw, Hs. reflexivity.
Qed.

(** ** Further properties of the clipped surrogate *)

Lemma sumn_opp (n : nat) (f : nat -> R) :
  sumn n (fun k => - f k) = - sumn n f.
Proof. induction n as [|n IH]; simpl; [lra | rewrite IH; lra]. Qed.

Lemma mean2_le (rows cols : nat) (f g : nat -> nat -> R) :
  (forall b j, f b j <= g b j) ->
  mean2 (T2 rows cols f) <= mean2 (T2 rows cols g).
Proof.
  intros H. unfold mean2. simpl.
  assert (Hsum : sumn rows (fun b => sumn cols (fun j => f b j))
                 <= sumn rows (fun b => sumn cols (fun j => g b j))).
  { apply sumn_le. intros b _. apply sumn_le. intros j _. apply H. }
  destruct (Nat.eq_dec (rows * cols) 0) as [Hz | Hnz].
  - assert (Hf : sumn rows (fun b => sumn cols (fun j => f b j)) = 0
                 /\ sumn rows (fun b => sumn cols (fun j => g b j)) = 0).
    { destruct rows as [|rows]; [split; reflexivity|].
      destruct cols as [|cols]; [|simpl in Hz; lia].
      split; apply sumn_zero; intros; reflexivity. }
    destruct Hf as [-> ->]. lra.
  - assert (Hpos : 0 < INR (rows * cols)) by (apply lt_0_INR; lia).
    unfold Rdiv. apply Rmult_le_compat_r; [|exact Hsum].
    apply Rlt_le, Rinv_0_lt_compat. exact Hpos.
Qed.

(** X15.  The first step of the proximal update.  When the fresh posterior
    gives the sample the log-probabilities of the snapshot (the posterior
    has not moved yet) and [eps >= 0], the ratio and the clipped ratio are 1
    everywhere and the loss of a batch element is minus the mean reward
    plus the multiplier times its KL. *)
Theorem x15_ppo_unchanged_posterior (m : AlignmentVAE)
  (x : tensor2 Z) (seq_mask_x : tensor2 bool) (seq_len_x : tensor1 Z)
  (y : tensor2 Z) (seq_mask_y : tensor2 bool) (seq_len_y : tensor1 Z)
  (A : tensor3 R) (pa qa_init : distribution) (log_py_xa : tensor2 R)
  (eps c : R) (reward : option (tensor2 R)) (qa_new : distribution)
  (K : tensor3 R) (r : tensor2 R) :
  approximate_posterior m x seq_mask_x seq_len_x y seq_mask_y seq_len_y
  = Ok qa_new ->
  kl_divergence ext qa_new pa = Ok K ->
  ppo_reward_used m (rf m) x y qa_new log_py_xa reward = Some r ->
  0 <= eps ->
  (forall b j, at2 (sum_last3 (log_prob ext qa_new A)) b j
               = at2 (sum_last3 (log_prob ext qa_init A)) b j) ->
  exists out,
    ppo_loss m x seq_mask_x seq_len_x y seq_mask_y seq_len_y A pa qa_init
             log_py_xa eps c reward = Ok out /\
    forall b,
      at1 (ppo_out_loss out) b
      = - mean2 (T2 (dim0 (log_prob ext qa_new A))
                    (dim1 (log_prob ext qa_new A)) (at2 r))
        + c * at1 (masked_KL seq_mask_x seq_mask_y K) b.
Proof.
  intros Hq HK Hr He Hsame.
  destruct (ppo_loss_value m x seq_mask_x seq_len_x y seq_mask_y seq_len_y
              A pa qa_init log_py_xa eps c reward qa_new K r Hq HK Hr)
    as (out & Hout & _ & _ & Hval).
  exists out. split; [exact Hout|]. intros b. rewrite Hval.
  rewrite (Rmult_comm c). f_equal.
  assert (Hcell : forall b' j,
    Rmax (- at2 r b' j
          * at2 (ppo_ratio (sum_last3 (log_prob ext qa_new A))
                           (sum_last3 (log_prob ext qa_init A))) b' j)
         (- at2 r b' j
          * at2 (ppo_ratio_c eps
                   (ppo_ratio (sum_last3 (log_prob ext qa_new A))
                              (sum_last3 (log_prob ext qa_init A)))) b' j)
    = - at2 r b' j).
  { intros b' j. rewrite ppo_ratio_c_at.
    assert (Hone : at2 (ppo_ratio (sum_last3 (log_prob ext qa_new A))
                                  (sum_last3 (log_prob ext qa_init A))) b' j
                   = 1).
    { unfold ppo_ratio. cbn [at2]. rewrite (Hsame b' j).
      rewrite Rminus_diag. apply exp_0. }
    rewrite Hone. rewrite clamp_id by lra.
    rewrite Rmax_left by lra. lra. }
  unfold ppo_surrogate, mean2. cbn [rows2 cols2 ppo_ratio sum_last3].
  rewrite (sumn_ext _ _ (fun b' =>
             - sumn (dim1 (log_prob ext qa_new A)) (fun j => at2 r b' j))).
  - rewrite sumn_opp. cbn [at2]. unfold Rdiv. ring.
  - intros b' _. rewrite <- sumn_opp. apply sumn_ext. intros j _.
    apply Hcell.
Qed.

(** X16.  The clipped surrogate is pessimistic.  The loss that [ppo_loss]
    returns for a batch element is never below the one the unclipped ratio
    alone would give, nor below the one the clipped ratio alone would
    give. *)
Theorem x16_ppo_loss_pessimistic (m : AlignmentVAE)
  (x : tensor2 Z) (seq_mask_x : tensor2 bool) (seq_len_x : tensor1 Z)
  (y : tensor2 Z) (seq_mask_y : tensor2 bool) (seq_len_y : tensor1 Z)
  (A : tensor3 R) (pa qa_init : distribution) (log_py_xa : tensor2 R)
  (eps c : R) (reward : option (tensor2 R)) (qa_new : distribution)
  (K : tensor3 R) (r : tensor2 R) :
  approximate_posterior m x seq_mask_x seq_len_x y seq_mask_y seq_len_y
  = Ok qa_new ->
  kl_divergence ext qa_new pa = Ok K ->
  ppo_reward_used m (rf m) x y qa_new log_py_xa reward = Some r ->
  let ratio := ppo_ratio (sum_last3 (log_prob ext qa_new A))
                         (sum_last3 (log_prob ext qa_init A)) in
  let ratio_c := ppo_ratio_c eps ratio in
  exists out,
    ppo_loss m x seq_mask_x seq_len_x y seq_mask_y seq_len_y A pa qa_init
             log_py_xa eps c reward = Ok out /\
    forall b,
      mean2 (T2 (rows2 ratio) (cols2 ratio)
                (fun b' j => - at2 r b' j * at2 ratio b' j))
      + c * at1 (masked_KL seq_mask_x seq_mask_y K) b
      <= at1 (ppo_out_loss out) b /\
      mean2 (T2 (rows2 ratio) (cols2 ratio)
                (fun b' j => - at2 r b' j * at2 ratio_c b' j))
      + c * at1 (masked_KL seq_mask_x seq_mask_y K) b
      <= at1 (ppo_out_loss out) b.
Proof.
  intros Hq HK Hr ratio ratio_c.
  destruct (ppo_loss_value m x seq_mask_x seq_len_x y seq_mask_y seq_len_y
              A pa qa_init log_py_xa eps c reward qa_new K r Hq HK Hr)
    as (out & Hout & _ & _ & Hval).
  exists out. split; [exact Hout|]. intros b. rewrite Hval.
  fold ratio. fold ratio_c. unfold ppo_surrogate.
  split; (apply Rplus_le_compat; [|lra]); apply mean2_le; intros b' j.
  - apply Rmax_l.
  - apply Rmax_r.
Qed.

(** X17.  When [ppo_loss] cannot return.  [ppo_loss] returns its
    dictionary only if the inference network returns a posterior, the KL of
    that posterior and the prior is computed and, when no reward is
    supplied, the baselines exist; a supplied reward is then the entry
    ["reward"], and there is no entry ["reward_sc"].  So [ppo_loss] never
    returns for a [dist] other than ["bernoulli-RF"], ["bernoulli-ST"] and
    ["concrete"] (the bounded families are not implemented), nor without a
    supplied reward on a model without baselines, nor for a prior of
    another family than the posterior. *)
Theorem x17_ppo_loss_outcomes (m : AlignmentVAE)
  (x : tensor2 Z) (seq_mask_x : tensor2 bool) (seq_len_x : tensor1 Z)
  (y : tensor2 Z) (seq_mask_y : tensor2 bool) (seq_len_y : tensor1 Z)
  (A : tensor3 R) (pa qa_init : distribution) (log_py_xa : tensor2 R)
  (eps c : R) (reward : option (tensor2 R)) :
  let post := approximate_posterior m x seq_mask_x seq_len_x
                                    y seq_mask_y seq_len_y in
  let run := ppo_loss m x seq_mask_x seq_len_x y seq_mask_y seq_len_y A pa
                      qa_init log_py_xa eps c reward in
  (forall out, run = Ok out ->
     exists qa_new K,
       post = Ok qa_new /\ kl_divergence ext qa_new pa = Ok K /\
       family_of qa_new = family_of pa /\
       (reward = None -> exists s, baselines m = Some s) /\
       (forall r, reward = Some r ->
          ppo_out_reward out = r /\ ppo_out_reward_sc out = None)) /\
  (inf_dist (inf_network m) <> "bernoulli-RF" ->
   inf_dist (inf_network m) <> "bernoulli-ST" ->
   inf_dist (inf_network m) <> "concrete" ->
   forall out, run <> Ok out) /\
  (reward = None -> baselines m = None -> forall out, run <> Ok out) /\
  (forall qa_new, post = Ok qa_new -> family_of qa_new <> family_of pa ->
     forall out, run <> Ok out).
Proof.
  intros post run.
  assert (Hnec : forall out, run = Ok out ->
    exists qa_new K,
      post = Ok qa_new /\ kl_divergence ext qa_new pa = Ok K /\
      family_of qa_new = family_of pa /\
      (reward = None -> exists s, baselines m = Some s) /\
      (forall r, reward = Some r ->
         ppo_out_reward out = r /\ ppo_out_reward_sc out = None)).
  { intros out Hout. unfold run, ppo_loss in Hout. fold post in Hout.
    apply bind_Ok_inv in Hout. destruct Hout as (qa_new & Hq & Hout).
    apply bind_Ok_inv in Hout. destruct Hout as ([r0 rsc] & Hr & Hout).
    apply bind_Ok_inv in Hout. destruct Hout as (K & HK & Hout).
    exists qa_new, K. split; [exact Hq|]. split; [exact HK|].
    split.
    { destruct (decide (family_of qa_new = family_of pa)) as [Hf | Hf];
        [exact Hf|].
      rewrite (kl_divergence_mismatch qa_new pa Hf) in HK. discriminate HK. }
    split.
    - intros ->. destruct (baselines m) as [s|]; [|discriminate Hr].
      exists s. reflexivity.
    - intros r ->. inversion Hr; subst r0 rsc.
      inversion Hout; subst out. split; reflexivity. }
  split; [exact Hnec|]. split; [|split].
  - intros H1 H2 H3 out Hout.
    destruct (Hnec out Hout) as (qa_new & K & Hq & _).
    apply (posterior_variant (inf_network m) x seq_mask_x seq_len_x
             y seq_mask_y seq_len_y) in Hq.
    destruct Hq as [[H _] | [[H _] | [H _]]]; contradiction.
  - intros Hr Hs out Hout.
    destruct (Hnec out Hout) as (qa_new & K & _ & _ & _ & Hb & _).
    destruct (Hb Hr) as (s & Hs'). rewrite Hs in Hs'. discriminate Hs'.
  - intros qa_new Hq Hf out Hout.
    destruct (Hnec out Hout) as (qa' & K & Hq' & _ & Hf' & _).
    unfold post in Hq, Hq'. rewrite Hq in Hq'. inversion Hq'; subst qa'.
    contradiction.
Qed.

(** ** Properties of the validation links *)

Lemma row_links_spec (A : tensor3 R) (k j nx : nat)
  (links : gset (nat * nat)) (p : nat * nat) :
  p ∈ row_links A k j nx links <->
  p ∈ links \/
  exists i, (i < nx)%nat /\ p = (S i, S j) /\ 0 < at3 A k j i.
Proof.
  unfold row_links. revert links.
  assert (Hgen : forall (l : list nat) (links : gset (nat * nat)),
    p ∈ foldl (fun acc i => if gt0 (at3 A k j i) then {[ (S i, S j) ]} ∪ acc
                            else acc) links l <->
    p ∈ links \/ exists i, In i l /\ p = (S i, S j) /\ 0 < at3 A k j i).
  { induction l as [|i l IH]; intros links; simpl.
    - split; [intros H; left; exact H|].
      intros [H | (i & [] & _)]. exact H.
    - rewrite IH. unfold gt0.
      destruct (Rlt_dec 0 (at3 A k j i)) as [Hpos | Hneg].
      + rewrite elem_of_union, elem_of_singleton. split.
        * intros [[H | H] | (i' & Hi' & Hp)].
          -- right. exists i. split; [left; reflexivity|]. split; assumption.
          -- left. exact H.
          -- right. exists i'. split; [right; exact Hi' | exact Hp].
        * intros [H | (i' & [<- | Hi'] & Hp & Hgt)].
          -- left. right. exact H.
          -- left. left. exact Hp.
          -- right. exists i'. repeat split; assumption.
      + split.
        * intros [H | (i' & Hi' & Hp)]; [left; exact H|].
          right. exists i'. split; [right; exact Hi' | exact Hp].
        * intros [H | (i' & [<- | Hi'] & Hp & Hgt)];
            [left; exact H | contradiction |].
          right. exists i'. repeat split; assumption. }
  intros links. rewrite Hgen. split.
  - intros [H | (i & Hi & Hp)]; [left; exact H|].
    right. exists i. apply in_seq in Hi. split; [lia | exact Hp].
  - intros [H | (i & Hi & Hp)]; [left; exact H|].
    right. exists i. split; [apply in_seq; lia | exact Hp].
Qed.

Lemma sentence_links_spec (A : tensor3 R) (k : nat) (len_x_k len_y_k : Z)
  (i j : nat) :
  (i, j) ∈ sentence_links A k len_x_k len_y_k <->
  (1 <= i <= slice_len len_x_k (dim2 A))%nat /\
  (1 <= j <= slice_len len_y_k (dim1 A))%nat /\
  0 < at3 A k (j - 1) (i - 1).
Proof.
  unfold sentence_links.
  set (nx := slice_len len_x_k (dim2 A)).
  assert (Hgen : forall (l : list nat) (links : gset (nat * nat)),
    (i, j) ∈ foldl (fun acc j0 => row_links A k j0 nx acc) links l <->
    (i, j) ∈ links \/
    exists j0, In j0 l /\ j = S j0 /\ (1 <= i <= nx)%nat /\
               0 < at3 A k j0 (i - 1)).
  { induction l as [|j0 l IH]; intros links; simpl.
    - split; [intros H; left; exact H|].
      intros [H | (j1 & [] & _)]. exact H.
    - rewrite IH, row_links_spec. split.
      + intros [[H | (i0 & Hi0 & Hp & Hgt)] | (j1 & Hj1 & Hrest)].
        * left. exact H.
        * right. exists j0. inversion Hp; subst.
          split; [left; reflexivity|]. split; [reflexivity|].
          split; [lia|]. replace (S i0 - 1)%nat with i0 by lia. exact Hgt.
        * right. exists j1. split; [right; exact Hj1 | exact Hrest].
      + intros [H | (j1 & [<- | Hj1] & Hj & Hi & Hgt)].
        * left. left. exact H.
        * left. right. exists (i - 1)%nat. split; [lia|].
          split; [f_equal; lia | exact Hgt].
        * right. exists j1. repeat split; try assumption; lia. }
  rewrite Hgen. split.
  - intros [H | (j0 & Hj0 & Hj & Hi & Hgt)]; [set_solver|].
    apply in_seq in Hj0. subst j.
    split; [exact Hi|]. split; [lia|].
    replace (S j0 - 1)%nat with j0 by lia. exact Hgt.
  - intros (Hi & Hj & Hgt). right. exists (j - 1)%nat.
    split; [apply in_seq; lia|]. split; [lia|]. split; [exact Hi | exact Hgt].
Qed.

Lemma slice_len_le (len : Z) (size : nat) : (slice_len len size <= size)%nat.
Proof. unfold slice_len. destruct (0 <=? len)%Z eqn:H; lia. Qed.

Lemma slice_len_exact (len : Z) (size : nat) :
  (0 <= len <= Z.of_nat size)%Z -> slice_len len size = Z.to_nat len.
Proof.
  intros H. unfold slice_len.
  destruct (0 <=? len)%Z eqn:H0; [lia|]. apply Z.leb_gt in H0. lia.
Qed.

(** X18.  The links that validation extracts.  A pair [(i, j)] is a link
    of sentence pair [k] exactly when [i] and [j] are 1-indexed positions
    inside the slices taken by the source and target lengths and the
    decided alignment of target [j] to source [i] is positive.  So a link
    never has index 0, never lies outside the matrix, and, for lengths
    within the matrix, never touches a position beyond the true lengths;
    and there is one set of links per sentence pair of the batch. *)
Theorem x18_validation_links (A : tensor3 R) (seq_len_x seq_len_y : tensor1 Z)
  (k i j : nat) :
  ((i, j) ∈ sentence_links A k (at1 seq_len_x k) (at1 seq_len_y k) <->
   (1 <= i <= slice_len (at1 seq_len_x k) (dim2 A))%nat /\
   (1 <= j <= slice_len (at1 seq_len_y k) (dim1 A))%nat /\
   0 < at3 A k (j - 1) (i - 1)) /\
  ((i, j) ∈ sentence_links A k (at1 seq_len_x k) (at1 seq_len_y k) ->
   (1 <= i <= dim2 A)%nat /\ (1 <= j <= dim1 A)%nat) /\
  ((0 <= at1 seq_len_x k <= Z.of_nat (dim2 A))%Z ->
   (0 <= at1 seq_len_y k <= Z.of_nat (dim1 A))%Z ->
   (i, j) ∈ sentence_links A k (at1 seq_len_x k) (at1 seq_len_y k) ->
   (Z.of_nat i <= at1 seq_len_x k)%Z /\ (Z.of_nat j <= at1 seq_len_y k)%Z) /\
  length (batch_links seq_len_x seq_len_y A)
  = Nat.min (Nat.min (size1 seq_len_x) (size1 seq_len_y)) (dim0 A) /\
  ((k < Nat.min (Nat.min (size1 seq_len_x) (size1 seq_len_y)) (dim0 A))%nat ->
   batch_links seq_len_x seq_len_y A !! k
   = Some (sentence_links A k (at1 seq_len_x k) (at1 seq_len_y k))).
Proof.
  split; [apply sentence_links_spec|]. split; [|split; [|split]].
  - intros H. apply sentence_links_spec in H. destruct H as (Hi & Hj & _).
    pose proof (slice_len_le (at1 seq_len_x k) (dim2 A)).
    pose proof (slice_len_le (at1 seq_len_y k) (dim1 A)). lia.
  - intros Hx Hy H. apply sentence_links_spec in H.
    destruct H as (Hi & Hj & _).
    rewrite slice_len_exact in Hi by exact Hx.
    rewrite slice_len_exact in Hj by exact Hy. lia.
  - unfold batch_links. rewrite length_map, length_seq. reflexivity.
  - intros Hk. unfold batch_links. rewrite list_lookup_fmap.
    rewrite lookup_seq_lt by exact Hk. reflexivity.
Qed.

Lemma round_half_even_unit (p : R) :
  0 < p < 1 -> round_half_even p = if Rlt_dec (1 / 2) p then 1 else 0.
Proof.
  intros Hp.
  assert (Hi : Int_part p = 0%Z)
    by (symmetry; apply Int_part_spec; simpl; lra).
  assert (Hf : frac_part p = p) by (unfold frac_part; rewrite Hi; simpl; lra).
  unfold round_half_even. rewrite Hi, Hf. simpl.
  destruct (Rlt_dec p (1 / 2)) as [H1 | H1];
    destruct (Rlt_dec (1 / 2) p) as [H2 | H2]; try reflexivity; lra.
Qed.

Lemma sigmoid_gt_half (l : R) : 1 / 2 < sigmoid l <-> 0 < l.
Proof.
  unfold sigmoid. pose proof (exp_pos (- l)) as He.
  assert (Hiff : exp (- l) < 1 <-> 0 < l).
  { rewrite <- exp_0. split.
    - intros H. apply exp_lt_inv in H. lra.
    - intros H. apply exp_increasing. lra. }
  rewrite <- Hiff. split.
  - intros H. apply Rnot_le_lt. intros Hge.
    assert (Hle : 1 / (1 + exp (- l)) <= 1 / 2).
    { unfold Rdiv. rewrite !Rmult_1_l. apply Rinv_le_contravar; lra. }
    lra.
  - intros H. unfold Rdiv. rewrite !Rmult_1_l.
    apply Rinv_lt_contravar; [nra | lra].
Qed.

(** X19.  The alignment decision of validation for a Bernoulli model.  The
    decided matrix is the rounded mean of the posterior: 1 where the mean,
    the posterior probability of the cell, exceeds one half, and 0
    elsewhere (a probability of exactly one half rounds to the even integer
    0).  Hence a link [(i, j)] is extracted exactly when both positions lie
    inside the length slices and the posterior probability of target [j]
    against source [i] exceeds one half; the attention score of a linked
    cell is positive. *)
Theorem x19_bernoulli_decision (net : InferenceNetwork) (model_type : string)
  (x : tensor2 Z) (seq_mask_x : tensor2 bool) (seq_len_x : tensor1 Z)
  (y : tensor2 Z) (seq_mask_y : tensor2 bool) (seq_len_y : tensor1 Z)
  (qa : distribution) :
  inf_dist net = "bernoulli-RF" \/ inf_dist net = "bernoulli-ST" ->
  str_in "bernoulli" model_type = true ->
  InferenceNetwork_forward net x seq_mask_x seq_len_x y seq_mask_y seq_len_y
  = Ok qa ->
  exists A,
    decide_alignment model_type qa = Ok A /\
    dim0 A = dim0 (attention_logits net x y) /\
    dim1 A = dim1 (attention_logits net x y) /\
    dim2 A = dim2 (attention_logits net x y) /\
    (forall b j i,
       at3 A b j i
       = if Rlt_dec (1 / 2) (at3 (dist_mean ext qa) b j i) then 1 else 0) /\
    (forall k i j,
       (i, j) ∈ sentence_links A k (at1 seq_len_x k) (at1 seq_len_y k) <->
       (1 <= i <= slice_len (at1 seq_len_x k) (dim2 A))%nat /\
       (1 <= j <= slice_len (at1 seq_len_y k) (dim1 A))%nat /\
       1 / 2 < at3 (dist_mean ext qa) k (j - 1) (i - 1)) /\
    (forall k i j,
       (i, j) ∈ sentence_links A k (at1 seq_len_x k) (at1 seq_len_y k) ->
       0 < at3 (attention_logits net x y) k (j - 1) (i - 1)).
Proof.
  intros Hd Hmt Hq.
  assert (Hmean : dist_mean ext qa
                  = map3 sigmoid (attention_logits net x y)).
  { unfold InferenceNetwork_forward in Hq.
    destruct Hd as [Hd | Hd]; rewrite Hd in Hq; simpl in Hq;
      inversion Hq; subst; reflexivity. }
  assert (Hcell : forall b j i,
    round_half_even (sigmoid (at3 (attention_logits net x y) b j i))
    = if Rlt_dec (1 / 2) (sigmoid (at3 (attention_logits net x y) b j i))
      then 1 else 0).
  { intros b j i. apply round_half_even_unit, sigmoid_range. }
  assert (Hlinks : forall k i j,
    (i, j) ∈ sentence_links
               (map3 round_half_even
                     (map3 sigmoid (attention_logits net x y)))
               k (at1 seq_len_x k) (at1 seq_len_y k) <->
    (1 <= i <= slice_len (at1 seq_len_x k)
                         (dim2 (attention_logits net x y)))%nat /\
    (1 <= j <= slice_len (at1 seq_len_y k)
                         (dim1 (attention_logits net x y)))%nat /\
    1 / 2 < sigmoid (at3 (attention_logits net x y) k (j - 1) (i - 1))).
  { intros k i j. rewrite sentence_links_spec. simpl. rewrite Hcell.
    destruct (Rlt_dec (1 / 2)
                (sigmoid (at3 (attention_logits net x y) k (j - 1) (i - 1))));
      split; intros (H1 & H2 & H3);
      (split; [exact H1 | split; [exact H2 | lra]]). }
  unfold decide_alignment. rewrite Hmt, Hmean.
  eexists. split; [reflexivity|]. simpl.
  repeat (split; [reflexivity|]).
  split; [exact Hcell|]. split; [exact Hlinks|].
  intros k i j Hin. apply Hlinks in Hin. destruct Hin as (_ & _ & Hhalf).
  apply sigmoid_gt_half. exact Hhalf.
Qed.

(** ** Further properties of the REINFORCE path *)

(** X20.  Without control variates the REINFORCE surrogate ignores padded
    target positions: the reward at a position holding the padding index is
    exactly zero, so the surrogate of a batch element sums
    [reward * log q(A)] over its real target positions only, and does not
    depend on the log-probability of the sample at padded positions. *)
Theorem x20_surrogate_ignores_padding (m : AlignmentVAE) (s : RFState)
  (logits : tensor3 R) (x y : tensor2 Z) (A : tensor3 R) (qa : distribution)
  (b : nat) :
  use_self_critic_cv s = false -> use_mean_cv s = false ->
  use_std_cv s = false ->
  reinforce_surrogate m s logits x y A qa b
  = sumn (cols2 y)
         (fun j => if Z.eqb (at2 y b j) (pad_idx m) then 0
                   else - at2 (cross_entropy logits y (pad_idx m)) b j
                        * at2 (sum_last3 (log_prob ext qa A)) b j) /\
  (forall A' qa',
     (forall j, at2 y b j <> pad_idx m ->
                at2 (sum_last3 (log_prob ext qa' A')) b j
                = at2 (sum_last3 (log_prob ext qa A)) b j) ->
     reinforce_surrogate m s logits x y A' qa' b
     = reinforce_surrogate m s logits x y A qa b).
Proof.
  intros F1 F2 F3.
  assert (Hform : forall A0 qa0,
    reinforce_surrogate m s logits x y A0 qa0 b
    = sumn (cols2 y)
           (fun j => if Z.eqb (at2 y b j) (pad_idx m) then 0
                     else - at2 (cross_entropy logits y (pad_idx m)) b j
                          * at2 (sum_last3 (log_prob ext qa0 A0)) b j)).
  { intros A0 qa0. unfold reinforce_surrogate, apply_control_variates.
    rewrite F1, F2, F3. cbn [fst rows2 cols2 at2 cross_entropy].
    apply sumn_ext. intros j _.
    destruct (Z.eqb (at2 y b j) (pad_idx m)); [lra | reflexivity]. }
  split; [apply Hform|].
  intros A' qa' Hag. rewrite !Hform. apply sumn_ext. intros j _.
  destruct (Z.eqb (at2 y b j) (pad_idx m)) eqn:Hy; [reflexivity|].
  apply Z.eqb_neq in Hy. rewrite (Hag j Hy). reflexivity.
Qed.

(** X21.  The self-critic baseline.  Its score is zero at target positions
    holding the padding index and never positive at words of the vocabulary;
    and for a Bernoulli posterior it is the reconstruction log-likelihood
    under the alignment that validation decides on (the rounded mean), so
    that baseline and validation use the same decision rule. *)
Theorem x21_self_critic_score (m : AlignmentVAE) (x y : tensor2 Z)
  (qa : distribution) (model_type : string) (b j : nat) :
  str_in "bernoulli" model_type = true ->
  (at2 y b j = pad_idx m -> at2 (cv_self_critic m x y qa) b j = 0) /\
  ((0 <= at2 y b j < Z.of_nat (tgt_vocab_size m))%Z ->
   at2 (cv_self_critic m x y qa) b j <= 0) /\
  exists A_argmax,
    decide_alignment model_type qa = Ok A_argmax /\
    at2 (cv_self_critic m x y qa) b j
    = - at2 (cross_entropy (forward m x A_argmax) y (pad_idx m)) b j.
Proof.
  intros Hmt. split; [|split].
  - intros Hpad. unfold cv_self_critic, cross_entropy. simpl.
    rewrite Hpad, Z.eqb_refl. lra.
  - intros Hy. unfold cv_self_critic. cbn [at2].
    pose proof (cross_entropy_nonneg
                  (forward m x (map3 round_half_even (dist_mean ext qa)))
                  y (pad_idx m) b j) as H.
    cbn [forward dim2] in H. specialize (H (or_intror Hy)). lra.
  - unfold decide_alignment. rewrite Hmt. eexists. split; [reflexivity|].
    reflexivity.
Qed.

(** X22.  When the KL entry vanishes.  The KL of a batch element is zero
    when the element has no cell inside both masks (a fully padded
    sentence), and, for Bernoullis, when the posterior and the prior give
    every cell inside the masks the same probability strictly between 0 and
    1; the reported ELBO is then minus the summed reconstruction negative
    log-likelihood. *)
Theorem x22_kl_vanishes (m : AlignmentVAE) (logits : tensor3 R)
  (x y : tensor2 Z) (A : tensor3 R) (seq_mask_x seq_mask_y : tensor2 bool)
  (pa qa : distribution) (c : R) (reduction : string) (K : tensor3 R)
  (out : loss_output) (b : nat) :
  kl_divergence ext qa pa = Ok K ->
  loss m logits x y A seq_mask_x seq_mask_y pa qa c reduction = Ok out ->
  ((forall j i, (j < dim1 K)%nat -> (i < dim2 K)%nat ->
                at2 seq_mask_y b j && at2 seq_mask_x b i = false) ->
   at1 (out_KL out) b = 0 /\
   at1 (out_ELBO out) b = - nll_sum m logits y b) /\
  (family_of qa = FBernoulli -> family_of pa = FBernoulli ->
   (forall j i, at2 seq_mask_x b i = true -> at2 seq_mask_y b j = true ->
                0 < at3 (dist_mean ext qa) b j i < 1 /\
                at3 (dist_mean ext pa) b j i
                = at3 (dist_mean ext qa) b j i) ->
   at1 (out_KL out) b = 0 /\
   at1 (out_ELBO out) b = - nll_sum m logits y b).
Proof.
  intros HK Hloss.
  destruct (loss_entries _ _ _ _ _ _ _ _ _ _ _ _ _ HK Hloss)
    as (HKL & _ & HE).
  split.
  - intros Hnone.
    assert (H0 : at1 (masked_KL seq_mask_x seq_mask_y K) b = 0).
    { rewrite masked_KL_cells. apply sumn_zero. intros j Hj.
      apply sumn_zero. intros i Hi. rewrite (Hnone j i Hj Hi). reflexivity. }
    rewrite HKL, HE, H0. split; lra.
  - intros Hfq Hfp Hsame.
    assert (HK' : exists pq pp,
               K = kl_bernoulli pq pp /\
               dist_mean ext qa = bern_probs pq /\
               dist_mean ext pa = bern_probs pp).
    { destruct qa, pa; try discriminate Hfq; try discriminate Hfp;
        simpl in HK; inversion HK; eexists; eexists; repeat split. }
    destruct HK' as (pq & pp & -> & Hmq & Hmp).
    assert (H0 : at1 (masked_KL seq_mask_x seq_mask_y (kl_bernoulli pq pp)) b
                 = 0).
    { rewrite masked_KL_cells. apply sumn_zero. intros j _.
      apply sumn_zero. intros i _.
      destruct (at2 seq_mask_y b j) eqn:My, (at2 seq_mask_x b i) eqn:Mx;
        simpl; try reflexivity.
      destruct (Hsame j i Mx My) as [Hq Hp]. rewrite Hmq in Hq.
      rewrite Hmp, Hmq in Hp. rewrite Hp.
      unfold kl_bernoulli_cell.
      replace (at3 (bern_probs pq) b j i / at3 (bern_probs pq) b j i)
        with 1 by (field; lra).
      replace ((1 - at3 (bern_probs pq) b j i)
               / (1 - at3 (bern_probs pq) b j i)) with 1 by (field; lra).
      rewrite ln_1. lra. }
    rewrite HKL, HE, H0. split; lra.
Qed.

(** X23.  The three reductions agree.  Whenever [loss] succeeds with
    [reduction="none"], for any family, it also succeeds with ["mean"] and
    ["sum"]; the three calls store the same KL, ELBO and reward entries,
    and the losses are the per-element values, their batch mean and their
    batch sum, the sum being the batch size times the mean on a non-empty
    batch. *)
Theorem x23_reductions_agree (m : AlignmentVAE) (logits : tensor3 R)
  (x y : tensor2 Z) (A : tensor3 R) (seq_mask_x seq_mask_y : tensor2 bool)
  (pa qa : distribution) (c : R) (o_none : loss_output) :
  loss m logits x y A seq_mask_x seq_mask_y pa qa c "none" = Ok o_none ->
  exists t o_mean o_sum,
    out_loss o_none = PerElement t /\
    loss m logits x y A seq_mask_x seq_mask_y pa qa c "mean" = Ok o_mean /\
    loss m logits x y A seq_mask_x seq_mask_y pa qa c "sum" = Ok o_sum /\
    out_loss o_mean = Scalar (mean1 t) /\
    out_loss o_sum = Scalar (sum1 t) /\
    out_KL o_mean = out_KL o_none /\ out_KL o_sum = out_KL o_none /\
    out_ELBO o_mean = out_ELBO o_none /\ out_ELBO o_sum = out_ELBO o_none /\
    out_normalized_reward o_mean = out_normalized_reward o_none /\
    out_normalized_reward o_sum = out_normalized_reward o_none /\
    ((0 < size1 t)%nat -> sum1 t = INR (size1 t) * mean1 t).
Proof.
  intros H. unfold loss in *.
  destruct (kl_divergence ext qa pa) as [K|e|]; [|discriminate H..].
  cbn [mbind result_bind] in *.
  assert (Hmean : forall t : tensor1 R,
            (0 < size1 t)%nat -> sum1 t = INR (size1 t) * mean1 t).
  { intros t Hsz. unfold mean1. field. apply not_0_INR. lia. }
  destruct (String.eqb (dist m) "bernoulli-RF").
  - destruct (baselines m) as [s|]; [|discriminate H].
    destruct (control_variates m s x y qa _) as [nr0 rsc0].
    destruct (numbers2 nr0) as [nr1|]; [|discriminate H].
    cbn [mbind result_bind] in *. unfold reduce in *.
    cbn [String.eqb Ascii.eqb Bool.eqb mbind result_bind] in *.
    inversion H; subst o_none; clear H.
    eexists. eexists. eexists. split; [reflexivity|].
    split; [reflexivity|]. split; [reflexivity|]. simpl.
    repeat (split; [reflexivity|]).
    intros Hsz. apply Hmean. exact Hsz.
  - cbn [mbind result_bind] in *. unfold reduce in *.
    cbn [String.eqb Ascii.eqb Bool.eqb mbind result_bind] in *.
    inversion H; subst o_none; clear H.
    eexists. eexists. eexists. split; [reflexivity|].
    split; [reflexivity|]. split; [reflexivity|]. simpl.
    repeat (split; [reflexivity|]).
    intros Hsz. apply Hmean. exact Hsz.
Qed.

End Model.

(** ** The statements at concrete inputs

    The stabiliser is instantiated with one millionth. *)

(** C2 at the lengths 1 and 2. *)
Lemma c2_p0_nondecreasing_witness :
  p0 (1 / 1000000) 1 <= p0 (1 / 1000000) 2.
Proof.
  apply (c2_p0_nondecreasing (1 / 1000000) 1 2); [lra | lia | lia].
Defined.

(** The target zero-probability of length 1 is strictly below that of
    length 2: the target mass at zero grows with the length. *)
Lemma c2_p0_decreasing_fails :
  ~ (p0 (1 / 1000000) 1 >= p0 (1 / 1000000) 2).
Proof.
  pose proof (p0_strict_1_2 (1 / 1000000)) as H.
  assert (H' : p0 (1 / 1000000) 1 < p0 (1 / 1000000) 2) by (apply H; lra).
  lra.
Qed.

(** C6 with three candidates and five lengths. *)
Lemma c6_prior_table_complete_witness :
  exists tbl : gmap Z (R * R),
    _create_hardkuma_prior_table (1 / 1000000) 1 5 (-0.1) 1.1 3 = Ok tbl /\
    forall L, (1 <= L <= 5)%Z -> exists a, tbl !! L = Some (a, 1).
Proof.
  destruct (c6_prior_table_complete (1 / 1000000) 1 5 (-0.1) 1.1 3)
    as (tbl & Hok & Hall & _); [lia|].
  exists tbl. split; [exact Hok | exact Hall].
Defined.

(** C7 for one word per sentence on the example batch. *)
Lemma c7_bernoulli_prior_witness :
  exists probs,
    prior (1 / 1000000) (example_model "bernoulli-RF" (1, 0))
          example_mask example_lengths example_mask
    = (pa ← BernoulliREINFORCE_new (Probs probs); Ok (Some pa)) /\
    forall b j i,
      at3 probs b j i
      = Rmin (1 * (float_of_bool (at2 example_mask b i) + 1 / 1000000)
              / (IZR (at1 example_lengths b) + 1)) 0.99.
Proof.
  destruct (c7_bernoulli_prior (1 / 1000000)
              (example_model "bernoulli-RF" (1, 0))
              example_mask example_lengths example_mask 1 0)
    as (Hcase & _ & _); [reflexivity | reflexivity |].
  destruct Hcase as (probs & Hprior & _ & _ & _ & Hcell); [lra|].
  exists probs. split; [exact Hprior | exact Hcell].
Defined.

(** C8 on the freshly constructed model and the rewards 2 and 4 of two
    sentences. *)
Lemma c8_update_baselines_toward_mean_witness :
  exists m1 s1 a1,
    update_baselines (example_model "bernoulli-RF" (1, 0))
                     pair_rewards pair_lengths = Ok m1 /\
    baselines m1 = Some s1 /\
    avg_reward s1 = Some a1 /\
    a1 = 0.05 * batch_mean pair_rewards pair_lengths + 0.95 * 0 /\
    std_reward s1
    = Some (0.05 * batch_std pair_rewards pair_lengths + 0.95 * 1) /\
    Rabs (a1 - batch_mean pair_rewards pair_lengths)
    <= Rabs (0 - batch_mean pair_rewards pair_lengths).
Proof.
  destruct (c8_update_baselines_toward_mean
              (example_model "bernoulli-RF" (1, 0)) example_rf
              pair_rewards pair_lengths)
    as (m1 & s1 & m2 & s2 & a1 & a2 & H1 & H2 & H3 & H4 & H5 & _ & _ & _
        & _ & _ & _ & _ & _ & _ & H6 & _);
    [reflexivity | reflexivity | simpl; lia
     | intros b _; simpl; discriminate |].
  exists m1, s1, a1. split; [exact H1|]. split; [exact H2|].
  split; [exact H3|]. split; [exact H4|].
  split; [apply H5; simpl; lia | exact H6].
Defined.

(** C9 for the ["hardkuma"] posterior and the ["concrete"] prior. *)
Lemma c9_unsupported_paths_raise_witness :
  InferenceNetwork_forward (inf_network (example_model "hardkuma" (1, 0)))
    example_tokens example_mask example_lengths
    example_tokens example_mask example_lengths
  = Raise NotImplementedError /\
  prior (1 / 1000000) (example_model "concrete" (1, 0))
        example_mask example_lengths example_mask
  = Raise NotImplementedError.
Proof.
  destruct (c9_unsupported_paths_raise (1 / 1000000)
              (inf_network (example_model "hardkuma" (1, 0)))
              (example_model "concrete" (1, 0))
              example_tokens example_mask example_lengths
              example_tokens example_mask example_lengths) as (H1 & H2).
  split; [apply H1; right; reflexivity | apply H2; reflexivity].
Defined.

(** For ["bernoulli-ST"] the posterior is a [BernoulliStraightThrough] and
    the prior a [BernoulliREINFORCE]: the two variants differ. *)
Lemma c1_prior_variant_differs :
  exists qa pa,
    approximate_posterior (example_model "bernoulli-ST" (0, 1 / 2))
      example_tokens example_mask example_lengths
      example_tokens example_mask example_lengths = Ok qa /\
    prior (1 / 1000000) (example_model "bernoulli-ST" (0, 1 / 2))
          example_mask example_lengths example_mask = Ok (Some pa) /\
    variant_of qa = VBernoulliStraightThrough /\
    variant_of pa = VBernoulliREINFORCE /\
    variant_of qa <> variant_of pa.
Proof.
  eexists. exists example_pa.
  split; [reflexivity|].
  split; [apply example_prior_fixed; reflexivity|].
  split; [reflexivity|]. split; [reflexivity|]. discriminate.
Qed.

(** C1 for ["bernoulli-ST"] on the example batch. *)
Lemma c1_prior_posterior_same_family_witness :
  variant_of example_pa = VBernoulliREINFORCE /\
  family_of (BernoulliStraightThrough (Logits (new_full 1 1 1 0)))
  = family_of example_pa /\
  exists KL,
    kl_divergence example_ext
      (BernoulliStraightThrough (Logits (new_full 1 1 1 0))) example_pa
    = Ok KL.
Proof.
  destruct (c1_prior_posterior_same_family (1 / 1000000) example_ext
              (example_model "bernoulli-ST" (0, 1 / 2))
              example_tokens example_mask example_lengths
              example_tokens example_mask example_lengths
              (BernoulliStraightThrough (Logits (new_full 1 1 1 0)))
              example_pa)
    as (_ & Hv & Hf & _ & Hkl & _);
    [reflexivity | reflexivity | apply example_prior_fixed; reflexivity |].
  split; [exact Hv|]. split; [exact Hf | exact Hkl].
Defined.

(** C3 on the sentence pair with one padded position on each side. *)
Lemma c3_padding_contributes_zero_witness :
  exists out,
    loss (1 / 1000000) example_ext (example_model "bernoulli-ST" (0, 1 / 2))
         (new_full 1 2 2 0) padded_tokens padded_tokens (new_full 1 2 2 1)
         padded_mask padded_mask
         (BernoulliREINFORCE (Probs (new_full 1 2 2 (1 / 2))))
         (BernoulliStraightThrough (Logits (new_full 1 2 2 0)))
         1 "none" = Ok out /\
    at2 (out_log_py_xa out) 0 1 = 0 /\
    at1 (out_KL out) 0
    = sumn 2 (fun j => sumn 2 (fun i =>
        if at2 padded_mask 0%nat j && at2 padded_mask 0%nat i
        then kl_bernoulli_cell (sigmoid 0) (1 / 2) else 0)).
Proof.
  eexists. split; [reflexivity|].
  destruct (c3_padding_contributes_zero (1 / 1000000) example_ext
              (example_model "bernoulli-ST" (0, 1 / 2))
              (new_full 1 2 2 0) padded_tokens padded_tokens
              (new_full 1 2 2 1) padded_mask padded_mask
              (BernoulliREINFORCE (Probs (new_full 1 2 2 (1 / 2))))
              (BernoulliStraightThrough (Logits (new_full 1 2 2 0)))
              1 "none"
              (kl_bernoulli (Logits (new_full 1 2 2 0))
                            (Probs (new_full 1 2 2 (1 / 2))))
              _ eq_refl eq_refl)
    as (HKL & _ & Hpad & _).
  split.
  - apply (Hpad 0%nat 1%nat). reflexivity.
  - apply (HKL 0%nat).
Defined.

(** For ["bernoulli-RF"] the returned loss is not the summed reconstruction
    term plus the multiplier times the KL: with one cell, zero logits and
    the sample 1, the surrogate [(ln 2)^2] is subtracted. *)
Lemma c4_reinforce_loss_differs :
  exists out t,
    loss (1 / 1000000) example_ext (example_model "bernoulli-RF" (0, 1 / 2))
         (new_full 1 1 2 0) example_tokens example_tokens (new_full 1 1 1 1)
         example_mask example_mask example_pa example_qa 1 "none" = Ok out /\
    out_loss out = PerElement t /\
    at1 t 0
    <> nll_sum (example_model "bernoulli-RF" (0, 1 / 2)) (new_full 1 1 2 0)
               example_tokens 0
       + 1 * at1 (out_KL out) 0.
Proof.
  eexists. eexists. split; [reflexivity|]. split; [reflexivity|].
  unfold nll_sum. cbn -[exp ln Rplus Rmult Rminus Ropp Rdiv IZR].
  rewrite exp_0.
  replace (0 + 1 + 1) with 2 by lra. replace (1 + 1) with 2 by lra.
  pose proof ln_2_pos as Hln.
  generalize dependent (ln 2). intros L HL.
  generalize (kl_bernoulli_cell (sigmoid 0) (1 / 2)). intros k. nra.
Qed.

(** C4 for ["bernoulli-ST"] with the multiplier 3. *)
Lemma c4_loss_and_elbo_witness :
  exists out t,
    loss (1 / 1000000) example_ext (example_model "bernoulli-ST" (0, 1 / 2))
         (new_full 1 1 2 0) example_tokens example_tokens (new_full 1 1 1 1)
         example_mask example_mask example_pa
         (BernoulliStraightThrough (Logits (new_full 1 1 1 0))) 3 "none"
    = Ok out /\
    out_loss out = PerElement t /\
    at1 t 0
    = nll_sum (example_model "bernoulli-ST" (0, 1 / 2)) (new_full 1 1 2 0)
              example_tokens 0
      + 3 * at1 (masked_KL example_mask example_mask
                   (kl_bernoulli (Logits (new_full 1 1 1 0))
                                 (Probs (new_full 1 1 1 (1 / 2))))) 0 /\
    at1 (out_ELBO out) 0
    = - nll_sum (example_model "bernoulli-ST" (0, 1 / 2)) (new_full 1 1 2 0)
                example_tokens 0
      - at1 (masked_KL example_mask example_mask
               (kl_bernoulli (Logits (new_full 1 1 1 0))
                             (Probs (new_full 1 1 1 (1 / 2))))) 0.
Proof.
  destruct (c4_loss_and_elbo (1 / 1000000) example_ext
              (example_model "bernoulli-ST" (0, 1 / 2))
              (new_full 1 1 2 0) example_tokens example_tokens
              (new_full 1 1 1 1) example_mask example_mask example_pa
              (BernoulliStraightThrough (Logits (new_full 1 1 1 0))) 3
              (kl_bernoulli (Logits (new_full 1 1 1 0))
                            (Probs (new_full 1 1 1 (1 / 2))))
              eq_refl)
    as (Helbo & Hplain & _).
  destruct (Hplain eq_refl)
    as (o_none & o_mean & o_sum & t & Hn & _ & _ & Ht & _ & _ & _ & Hval).
  exists o_none, t. split; [exact Hn|]. split; [exact Ht|].
  split; [apply Hval|]. apply (Helbo "none" o_none 0%nat Hn).
Defined.

(** On a batch of two sentence pairs [ppo_loss] returns two values, which
    differ as soon as the KL of the two pairs differ: the result is not a
    single scalar. *)
Lemma c5_ppo_loss_not_scalar :
  exists out,
    ppo_loss (1 / 1000000) example_ext
             (example_model "bernoulli-RF" (0, 1 / 2))
             pair_tokens pair_mask pair_lengths
             pair_tokens pair_mask pair_lengths
             (new_full 2 1 1 1) pair_pa
             (BernoulliREINFORCE (Logits (new_full 2 1 1 0)))
             (T2 2 1 (fun _ _ => 0)) 0.2 1 (Some (T2 2 1 (fun _ _ => 0)))
    = Ok out /\
    size1 (ppo_out_loss out) = 2%nat /\
    at1 (ppo_out_loss out) 0 <> at1 (ppo_out_loss out) 1.
Proof.
  eexists. split; [reflexivity|]. split; [reflexivity|].
  cbn -[exp ln Rplus Rmult Rminus Ropp Rdiv IZR INR Rmax Rmin].
  rewrite sigmoid_0, kl_bernoulli_cell_half_half.
  pose proof kl_bernoulli_cell_half_quarter as Hk.
  match goal with |- ?s + _ <> _ => generalize s end.
  intros s. lra.
Qed.

(** C5 on the batch of two sentence pairs, the reward being recomputed. *)
Lemma c5_ppo_loss_per_element_witness :
  exists out,
    ppo_loss (1 / 1000000) example_ext
             (example_model "bernoulli-RF" (0, 1 / 2))
             pair_tokens pair_mask pair_lengths
             pair_tokens pair_mask pair_lengths
             (new_full 2 1 1 1) pair_pa
             (BernoulliREINFORCE (Logits (new_full 2 1 1 0)))
             (T2 2 1 (fun _ _ => 0)) 0.2 1 None
    = Ok out /\
    size1 (ppo_out_loss out) = 2%nat.
Proof.
  destruct (c5_ppo_loss_per_element (1 / 1000000) example_ext
              (example_model "bernoulli-RF" (0, 1 / 2))
              pair_tokens pair_mask pair_lengths
              pair_tokens pair_mask pair_lengths
              (new_full 2 1 1 1) pair_pa
              (BernoulliREINFORCE (Logits (new_full 2 1 1 0)))
              (T2 2 1 (fun _ _ => 0)) 0.2 1 None
              (BernoulliREINFORCE (Logits (new_full 2 1 1 0)))
              (kl_bernoulli (Logits (new_full 2 1 1 0))
                 (Probs (T3 2 1 1 (fun b _ _ =>
                                     if Nat.eqb b 0 then 1 / 2 else 1 / 4))))
              (T2 2 1 (fun _ _ => 0))
              eq_refl eq_refl eq_refl)
    as (_ & _ & _ & _ & out & Hout & _ & Hsz & _).
  exists out. split; [exact Hout | exact Hsz].
Defined.

(** ** The further properties at concrete inputs *)

(** X1 for a maximum length of 0 and for no candidate. *)
Lemma x1_prior_table_edge_cases_witness :
  _create_hardkuma_prior_table (1 / 1000000) 1 0 (-0.1) 1.1 5 = Ok ∅ /\
  _create_hardkuma_prior_table (1 / 1000000) 1 3 (-0.1) 1.1 0
  = Raise (NameError "a").
Proof.
  split.
  - apply (proj1 (x1_prior_table_edge_cases (1 / 1000000) 1 0 (-0.1) 1.1 5)).
    lia.
  - apply (proj2 (x1_prior_table_edge_cases (1 / 1000000) 1 3 (-0.1) 1.1 0));
      [reflexivity | lia].
Defined.

(** X2 on the table of one length built from one candidate. *)
Lemma x2_prior_table_entries_witness :
  (1 <= 1 <= 1)%Z /\ 1 / 1000000 <= 1 / 1000000 <= 1 /\ 1 = 1.
Proof.
  destruct (prior_table_exhausted_example (1 / 1000000) 1)
    as (_ & tbl & Hok & Hl); [lra | lra |].
  apply (x2_prior_table_entries (1 / 1000000) 1 1 (-0.1) 1.1 1 tbl 1
           (1 / 1000000) 1); [lra | exact Hok | exact Hl].
Defined.

(** X3 for the lengths 1 and 2 of a table of three lengths. *)
Lemma x3_prior_table_a_nonincreasing_witness :
  exists (tbl : gmap Z (R * R)) a1 a2,
    _create_hardkuma_prior_table (1 / 1000000) 1 3 (-0.1) 1.1 4 = Ok tbl /\
    tbl !! 1%Z = Some (a1, 1) /\ tbl !! 2%Z = Some (a2, 1) /\ a2 <= a1.
Proof.
  destruct (prior_table_built (1 / 1000000) 1 3 (-0.1) 1.1 4)
    as (tbl & Hok & _); [lia|].
  destruct (x3_prior_table_a_nonincreasing (1 / 1000000) 1 3 (-0.1) 1.1 4
              tbl 1 2) as (a1 & a2 & H1 & H2 & Hle);
    [lra | lia | exact Hok | lia | lia | lia |].
  exists tbl, a1, a2. split; [exact Hok|]. split; [exact H1|].
  split; [exact H2 | exact Hle].
Defined.

(** X4 on the example batch, whose source length is 1. *)
Lemma x4_prior_table_lookup_witness :
  exists (tbl : gmap Z (R * R)) ta tb,
    prior (1 / 1000000) (example_hardkuma_model tbl)
          example_mask example_lengths example_mask
    = Ok (Some (HardKuma ta tb (-0.1) 1.1)) /\
    tbl !! 1%Z = Some (at3 ta 0 0 0, 1).
Proof.
  destruct (prior_table_built (1 / 1000000) 1 3 (-0.1) 1.1 4)
    as (tbl & Hok & _); [lia|].
  destruct (x4_prior_table_lookup (1 / 1000000) (example_hardkuma_model tbl)
              tbl 1 0 3 (-0.1) 1.1 4
              example_mask example_lengths example_mask)
    as (Hgood & _);
    [reflexivity | reflexivity | lra | lra | lia | exact Hok | reflexivity |].
  destruct Hgood as (ta & tb & Hprior & _ & _ & _ & Hcell).
  { intros b _. simpl. lia. }
  exists tbl, ta, tb. split; [exact Hprior|].
  apply (Hcell 0%nat 0%nat 0%nat). simpl. lia.
Defined.

(** Example for ["kuma"] with the parameters 1 and 2. *)
Lemma prior_kumaraswamy_cases_example :
  prior (1 / 1000000) (example_model "kuma" (1, 2))
        example_mask example_lengths example_mask
  = Ok (Some (Kumaraswamy (new_full 1 1 1 1) (new_full 1 1 1 2))).
Proof.
  destruct (prior_kumaraswamy_cases (1 / 1000000)
              (example_model "kuma" (1, 2))
              1 2 example_mask example_lengths example_mask)
    as (H & _); [reflexivity|].
  apply H; [lra | lra | reflexivity].
Defined.

(** X5 for the name ["gaussian"]. *)
Lemma x5_unknown_dist_witness :
  approximate_posterior (example_model "gaussian" (1, 0))
    example_tokens example_mask example_lengths
    example_tokens example_mask example_lengths
  = Raise (Exception "Unknown dist option: gaussian") /\
  prior (1 / 1000000) (example_model "gaussian" (1, 0))
        example_mask example_lengths example_mask = Ok None.
Proof.
  destruct (x5_unknown_dist (1 / 1000000) (example_model "gaussian" (1, 0))
              example_tokens example_mask example_lengths
              example_tokens example_mask example_lengths)
    as (H1 & H2 & _);
    [reflexivity | discriminate | discriminate | discriminate | discriminate
     | discriminate |].
  split; [exact H1 | apply H2; reflexivity].
Defined.

(** X6 for the ["concrete"] posterior of the example model. *)
Lemma x6_posterior_parameters_witness :
  exists logits,
    InferenceNetwork_forward (inf_network (example_model "concrete" (1, 0)))
      example_tokens example_mask example_lengths
      example_tokens example_mask example_lengths
    = Ok (BinaryConcrete 1 logits) /\
    -5 <= at3 logits 0 0 0 <= 5.
Proof.
  destruct (x6_posterior_parameters example_ext
              (inf_network (example_model "concrete" (1, 0)))
              example_tokens example_mask example_lengths
              example_tokens example_mask example_lengths)
    as (_ & _ & H & _).
  destruct (H eq_refl) as (logits & Hq & Hcell).
  exists logits. split; [exact Hq | apply (Hcell 0%nat 0%nat 0%nat)].
Defined.

(** X7 for one word per sentence on the example batch. *)
Lemma x7_bernoulli_prior_validity_witness :
  exists probs,
    prior (1 / 1000000) (example_model "bernoulli-RF" (1, 0))
          example_mask example_lengths example_mask
    = Ok (Some (BernoulliREINFORCE (Probs probs))) /\
    0 < at3 probs 0 0 0 <= 0.99.
Proof.
  destruct (x7_bernoulli_prior_validity (1 / 1000000)
              (example_model "bernoulli-RF" (1, 0))
              example_mask example_lengths example_mask 1 0)
    as (H & _); [reflexivity | reflexivity |].
  destruct H as (probs & Hprior & Hcell);
    [lra | lra | intros b _; simpl; lia |].
  exists probs. split; [exact Hprior|].
  apply (Hcell 0%nat 0%nat 0%nat). simpl. lia.
Defined.

(** X8 for a ["hardkuma"] model with a maximum length of 3, and for a
    padding index outside a vocabulary of two words. *)
Lemma x8_init_consistent_witness :
  (exists m tbl a,
     AlignmentVAE_init (1 / 1000000) "hardkuma" (1, 0) 2 2 1 1 "avg" 3
       false false false (fun _ _ => 0) (fun _ _ => 0) (fun _ => 0)
       (Ok (fun x y => new_full (rows2 x) (cols2 y) (cols2 x) 0)) = Ok m /\
     baselines m = None /\
     hardkuma_prior_table m = Some tbl /\ tbl !! 2%Z = Some (a, 1)) /\
  AlignmentVAE_init (1 / 1000000) "hardkuma" (1, 0) 2 2 1 (-7) "avg" 3
    false false false (fun _ _ => 0) (fun _ _ => 0) (fun _ => 0)
    (Ok (fun x y => new_full (rows2 x) (cols2 y) (cols2 x) 0))
  = Raise (AssertionError "Padding_idx must be within num_embeddings").
Proof.
  split.
  - destruct (x8_init_consistent (1 / 1000000) "hardkuma" (1, 0) 2 2 1 1
                "avg" 3 false false false
                (fun _ _ => 0) (fun _ _ => 0) (fun _ => 0)
                (Ok (fun x y => new_full (rows2 x) (cols2 y) (cols2 x) 0)))
      as (_ & _ & _ & Hret & Hm).
    destruct (Hret _ ltac:(simpl; lia) ltac:(simpl; lia) eq_refl)
      as (m & Hrun).
    destruct (Hm m Hrun)
      as (_ & _ & _ & _ & _ & _ & _ & _ & _ & _ & _ & Hrf & Htbl & _).
    destruct (Htbl eq_refl) as (tbl & Ht & Hall).
    destruct (Hall 2%Z) as (a & Ha); [lia|].
    exists m, tbl, a. split; [exact Hrun|].
    split; [apply Hrf; discriminate|].
    split; [exact Ht | exact Ha].
  - destruct (x8_init_consistent (1 / 1000000) "hardkuma" (1, 0) 2 2 1 (-7)
                "avg" 3 false false false
                (fun _ _ => 0) (fun _ _ => 0) (fun _ => 0)
                (Ok (fun x y => new_full (rows2 x) (cols2 y) (cols2 x) 0)))
      as (Hfail & _).
    apply Hfail. simpl. lia.
Defined.

(** C10 on the model whose division by the standard deviation is switched
    on: after an update with a batch of one sentence, [loss] holds NaN. *)
Lemma c10_single_sentence_batch_witness :
  exists m1 s1,
    update_baselines example_model_std (T2 1 1 (fun _ _ => 2))
                     example_lengths = Ok m1 /\
    baselines m1 = Some s1 /\ std_reward s1 = None /\
    at2 (fst (control_variates (1 / 1000000) example_ext m1 s1
                example_tokens example_tokens example_qa
                (T2 1 1 (fun _ _ => 6)))) 0 0 = None /\
    loss (1 / 1000000) example_ext m1 (new_full 1 1 2 0)
         example_tokens example_tokens (new_full 1 1 1 1)
         example_mask example_mask example_pa example_qa 1 "mean"
    = NotANumber.
Proof.
  destruct (c10_single_sentence_batch (1 / 1000000) example_ext
              example_model_std (of_numbers example_rf_std)
              (T2 1 1 (fun _ _ => 2)) example_lengths eq_refl eq_refl)
    as (_ & (m1 & s1 & Hup & Hs1 & Hnan & Hlater) & _).
  destruct (Hlater []) as (m2 & s2 & Hall & Hs2 & _ & Hloss).
  simpl in Hall. inversion Hall; subst m2.
  rewrite Hs1 in Hs2. inversion Hs2; subst s2.
  destruct (Hloss eq_refl) as (Hcells & Hnum).
  exists m1, s1. split; [exact Hup|]. split; [exact Hs1|].
  split; [exact Hnan|]. split; [apply Hcells|].
  apply (Hnum eq_refl (new_full 1 1 2 0) example_tokens example_tokens
           (new_full 1 1 1 1) example_mask example_mask example_pa
           example_qa 1 "mean"
           (kl_bernoulli (Logits (new_full 1 1 1 0))
                         (Probs (new_full 1 1 1 (1 / 2)))));
    [reflexivity | left; reflexivity | simpl; lia | simpl; lia].
Defined.

(** X9 for ten updates of the freshly constructed model with the rewards 2
    and 4 of two sentences. *)
Lemma x9_update_baselines_geometric_witness :
  exists m' s',
    update_baselines_n 10 (example_model "bernoulli-RF" (1, 0))
                       pair_rewards pair_lengths = Ok m' /\
    rf m' = Some s' /\
    avg_reward s' - batch_mean pair_rewards pair_lengths
    = 0.95 ^ 10 * (0 - batch_mean pair_rewards pair_lengths) /\
    std_reward s' - batch_std pair_rewards pair_lengths
    = 0.95 ^ 10 * (1 - batch_std pair_rewards pair_lengths).
Proof.
  destruct (x9_update_baselines_geometric 10
              (example_model "bernoulli-RF" (1, 0)) example_rf
              pair_rewards pair_lengths)
    as (m' & s' & Hn & Hrf & _ & Havg & Hstd);
    [reflexivity | reflexivity | simpl; lia
     | intros b _; simpl; discriminate |].
  exists m', s'. split; [exact Hn|]. split; [exact Hrf|].
  split; [exact Havg | exact Hstd].
Defined.


(** X11 for the freshly constructed ["bernoulli-RF"] model. *)
Lemma x11_loss_reward_entries_witness :
  exists out reward,
    loss (1 / 1000000) example_ext (example_model "bernoulli-RF" (0, 1 / 2))
         (new_full 1 1 2 0) example_tokens example_tokens (new_full 1 1 1 1)
         example_mask example_mask example_pa example_qa 1 "mean" = Ok out /\
    out_reward out = Some reward /\
    out_normalized_reward out = Some reward /\
    out_reward_sc out = None.
Proof.
  eexists.
  destruct (x11_loss_reward_entries (1 / 1000000) example_ext
              (example_model "bernoulli-RF" (0, 1 / 2))
              (new_full 1 1 2 0) example_tokens example_tokens
              (new_full 1 1 1 1) example_mask example_mask example_pa
              example_qa 1 "mean" _ eq_refl)
    as (_ & H).
  destruct (H eq_refl) as (s & reward & Hs & Hr & _ & Hsc & _ & Hn).
  exists reward. split; [reflexivity|]. split; [exact Hr|].
  simpl in Hs. inversion Hs; subst s.
  split; [apply Hn; reflexivity | apply Hsc; reflexivity].
Defined.

(** X12 for an unknown reduction and for a prior of another family. *)
Lemma x12_loss_outcomes_witness :
  loss (1 / 1000000) example_ext (example_model "bernoulli-ST" (0, 1 / 2))
       (new_full 1 1 2 0) example_tokens example_tokens (new_full 1 1 1 1)
       example_mask example_mask example_pa example_qa 1 "max"
  = Raise (Exception "Unknown reduction option max") /\
  loss (1 / 1000000) example_ext (example_model "bernoulli-ST" (0, 1 / 2))
       (new_full 1 1 2 0) example_tokens example_tokens (new_full 1 1 1 1)
       example_mask example_mask
       (Kumaraswamy (new_full 1 1 1 1) (new_full 1 1 1 1)) example_qa 1 "max"
  = Raise NotImplementedError.
Proof.
  assert (Hd : dist (example_model "bernoulli-ST" (0, 1 / 2))
               <> "bernoulli-RF") by discriminate.
  assert (Hy : forall b j : nat,
    (b < rows2 example_tokens)%nat -> (j < cols2 example_tokens)%nat ->
    at2 example_tokens b j
    = pad_idx (example_model "bernoulli-ST" (0, 1 / 2)) \/
    (0 <= at2 example_tokens b j < Z.of_nat (dim2 (new_full 1 1 2 0)))%Z).
  { intros b j _ _. right. simpl. lia. }
  split.
  - destruct (x12_loss_outcomes (1 / 1000000) example_ext
                (example_model "bernoulli-ST" (0, 1 / 2))
                (new_full 1 1 2 0) example_tokens example_tokens
                (new_full 1 1 1 1) example_mask example_mask example_pa
                example_qa 1 "max") as (_ & H).
    destruct (H Hd Hy) as (_ & Hbad & _).
    apply (Hbad _ eq_refl).
    intros [H0 | [H0 | H0]]; discriminate H0.
  - destruct (x12_loss_outcomes (1 / 1000000) example_ext
                (example_model "bernoulli-ST" (0, 1 / 2))
                (new_full 1 1 2 0) example_tokens example_tokens
                (new_full 1 1 1 1) example_mask example_mask
                (Kumaraswamy (new_full 1 1 1 1) (new_full 1 1 1 1))
                example_qa 1 "max") as (_ & H).
    destruct (H Hd Hy) as (Hkl & _).
    apply Hkl. reflexivity.
Defined.

(** X13 for the example posterior and prior. *)
Lemma x13_loss_signs_witness :
  exists out,
    loss (1 / 1000000) example_ext (example_model "bernoulli-ST" (0, 1 / 2))
         (new_full 1 1 2 0) example_tokens example_tokens (new_full 1 1 1 1)
         example_mask example_mask example_pa example_qa 1 "none" = Ok out /\
    0 <= at1 (out_KL out) 0 /\ at1 (out_ELBO out) 0 <= 0.
Proof.
  assert (Hprob : forall b j i : nat,
    at2 example_mask b i = true -> at2 example_mask b j = true ->
    0 < at3 (dist_mean example_ext example_qa) b j i < 1 /\
    0 < at3 (dist_mean example_ext example_pa) b j i < 1).
  { intros b j i _ _. split; [apply sigmoid_range | simpl; lra]. }
  assert (Hy : forall b j : nat,
    at2 example_tokens b j
    = pad_idx (example_model "bernoulli-ST" (0, 1 / 2)) \/
    (0 <= at2 example_tokens b j < Z.of_nat (dim2 (new_full 1 1 2 0)))%Z).
  { intros b j. right. simpl. lia. }
  eexists. split; [reflexivity|].
  match goal with
  | |- 0 <= at1 (out_KL ?o) 0 /\ _ =>
      destruct (x13_loss_signs (1 / 1000000) example_ext
                  (example_model "bernoulli-ST" (0, 1 / 2))
                  (new_full 1 1 2 0) example_tokens example_tokens
                  (new_full 1 1 1 1) example_mask example_mask example_pa
                  example_qa 1 "none" o eq_refl eq_refl Hprob Hy eq_refl
                  0%nat) as (H1 & _ & H2)
  end.
  split; [exact H1 | exact H2].
Defined.

(** X14 for an alignment row of zeros. *)
Lemma x14_forward_pooling_witness :
  at3 (forward (1 / 1000000) (example_model "bernoulli-RF" (1, 0))
               example_tokens (new_full 1 1 1 0)) 0 0 0
  = 0.
Proof.
  destruct (x14_forward_pooling (1 / 1000000)
              (example_model "bernoulli-RF" (1, 0)) example_tokens
              (new_full 1 1 1 0) 0 0 0) as (_ & _ & H & _); [lra|].
  apply H. intros i _. reflexivity.
Defined.

(** X15 on the batch of two sentence pairs, the snapshot being the fresh
    posterior. *)
Lemma x15_ppo_unchanged_posterior_witness :
  exists out,
    ppo_loss (1 / 1000000) example_ext
             (example_model "bernoulli-RF" (0, 1 / 2))
             pair_tokens pair_mask pair_lengths
             pair_tokens pair_mask pair_lengths
             (new_full 2 1 1 1) pair_pa
             (BernoulliREINFORCE (Logits (new_full 2 1 1 0)))
             (T2 2 1 (fun _ _ => 0)) 0.2 1 (Some (T2 2 1 (fun _ _ => 3)))
    = Ok out /\
    at1 (ppo_out_loss out) 0
    = - mean2 (T2 2 1 (fun _ _ => 3))
      + 1 * at1 (masked_KL pair_mask pair_mask
                   (kl_bernoulli (Logits (new_full 2 1 1 0))
                      (Probs (T3 2 1 1 (fun b _ _ =>
                                if Nat.eqb b 0 then 1 / 2 else 1 / 4))))) 0.
Proof.
  destruct (x15_ppo_unchanged_posterior (1 / 1000000) example_ext
              (example_model "bernoulli-RF" (0, 1 / 2))
              pair_tokens pair_mask pair_lengths
              pair_tokens pair_mask pair_lengths
              (new_full 2 1 1 1) pair_pa
              (BernoulliREINFORCE (Logits (new_full 2 1 1 0)))
              (T2 2 1 (fun _ _ => 0)) 0.2 1 (Some (T2 2 1 (fun _ _ => 3)))
              (BernoulliREINFORCE (Logits (new_full 2 1 1 0)))
              (kl_bernoulli (Logits (new_full 2 1 1 0))
                 (Probs (T3 2 1 1 (fun b _ _ =>
                                     if Nat.eqb b 0 then 1 / 2 else 1 / 4))))
              (T2 2 1 (fun _ _ => 3))
              eq_refl eq_refl eq_refl)
    as (out & Hout & Hval); [lra | intros b j; reflexivity |].
  exists out. split; [exact Hout | apply (Hval 0%nat)].
Defined.

(** X16 on the same batch with a snapshot that differs from the fresh
    posterior. *)
Lemma x16_ppo_loss_pessimistic_witness :
  exists out,
    ppo_loss (1 / 1000000) example_ext
             (example_model "bernoulli-RF" (0, 1 / 2))
             pair_tokens pair_mask pair_lengths
             pair_tokens pair_mask pair_lengths
             (new_full 2 1 1 1) pair_pa
             (BernoulliREINFORCE (Logits (new_full 2 1 1 2)))
             (T2 2 1 (fun _ _ => 0)) 0.2 1 (Some (T2 2 1 (fun _ _ => 3)))
    = Ok out /\
    mean2 (T2 2 1
             (fun b j =>
                - 3 * at2 (ppo_ratio
                             (sum_last3 (bern_log_prob
                                           (Logits (new_full 2 1 1 0))
                                           (new_full 2 1 1 1)))
                             (sum_last3 (bern_log_prob
                                           (Logits (new_full 2 1 1 2))
                                           (new_full 2 1 1 1)))) b j))
    + 1 * at1 (masked_KL pair_mask pair_mask
                 (kl_bernoulli (Logits (new_full 2 1 1 0))
                    (Probs (T3 2 1 1 (fun b _ _ =>
                              if Nat.eqb b 0 then 1 / 2 else 1 / 4))))) 0
    <= at1 (ppo_out_loss out) 0.
Proof.
  destruct (x16_ppo_loss_pessimistic (1 / 1000000) example_ext
              (example_model "bernoulli-RF" (0, 1 / 2))
              pair_tokens pair_mask pair_lengths
              pair_tokens pair_mask pair_lengths
              (new_full 2 1 1 1) pair_pa
              (BernoulliREINFORCE (Logits (new_full 2 1 1 2)))
              (T2 2 1 (fun _ _ => 0)) 0.2 1 (Some (T2 2 1 (fun _ _ => 3)))
              (BernoulliREINFORCE (Logits (new_full 2 1 1 0)))
              (kl_bernoulli (Logits (new_full 2 1 1 0))
                 (Probs (T3 2 1 1 (fun b _ _ =>
                                     if Nat.eqb b 0 then 1 / 2 else 1 / 4))))
              (T2 2 1 (fun _ _ => 3))
              eq_refl eq_refl eq_refl)
    as (out & Hout & Hval).
  exists out. split; [exact Hout | apply (proj1 (Hval 0%nat))].
Defined.

(** X17 for a ["bernoulli-ST"] model without a supplied reward and for a
    ["hardkuma"] model: [ppo_loss] does not return. *)
Lemma x17_ppo_loss_outcomes_witness :
  (forall out,
     ppo_loss (1 / 1000000) example_ext
              (example_model "bernoulli-ST" (0, 1 / 2))
              example_tokens example_mask example_lengths
              example_tokens example_mask example_lengths
              (new_full 1 1 1 1) example_pa example_qa
              (T2 1 1 (fun _ _ => 0)) 0.2 1 None
     <> Ok out) /\
  (forall out,
     ppo_loss (1 / 1000000) example_ext (example_model "hardkuma" (1, 0))
              example_tokens example_mask example_lengths
              example_tokens example_mask example_lengths
              (new_full 1 1 1 1) example_pa example_qa
              (T2 1 1 (fun _ _ => 0)) 0.2 1 (Some (T2 1 1 (fun _ _ => 0)))
     <> Ok out).
Proof.
  split.
  - destruct (x17_ppo_loss_outcomes (1 / 1000000) example_ext
                (example_model "bernoulli-ST" (0, 1 / 2))
                example_tokens example_mask example_lengths
                example_tokens example_mask example_lengths
                (new_full 1 1 1 1) example_pa example_qa
                (T2 1 1 (fun _ _ => 0)) 0.2 1 None) as (_ & _ & H & _).
    apply H; reflexivity.
  - destruct (x17_ppo_loss_outcomes (1 / 1000000) example_ext
                (example_model "hardkuma" (1, 0))
                example_tokens example_mask example_lengths
                example_tokens example_mask example_lengths
                (new_full 1 1 1 1) example_pa example_qa
                (T2 1 1 (fun _ _ => 0)) 0.2 1
                (Some (T2 1 1 (fun _ _ => 0)))) as (_ & H & _).
    apply H; discriminate.
Defined.

(** X18 on a one-cell alignment of value 1. *)
Lemma x18_validation_links_witness :
  (1%nat, 1%nat) ∈ sentence_links (new_full 1 1 1 1) 0 1 1 /\
  length (batch_links example_lengths example_lengths (new_full 1 1 1 1))
  = 1%nat.
Proof.
  destruct (x18_validation_links (new_full 1 1 1 1)
              example_lengths example_lengths 0 1 1)
    as (Hiff & _ & _ & Hlen & _).
  split; [|exact Hlen].
  apply (proj2 Hiff).
  split; [|split]; [cbv; lia | cbv; lia | simpl; lra].
Defined.

(** X19 for a network whose scores are all 2: the decision is 1 and the
    link is extracted. *)
Lemma x19_bernoulli_decision_witness :
  exists A,
    decide_alignment example_ext "bernoulli-RF"
      (BernoulliREINFORCE (Logits (new_full 1 1 1 2))) = Ok A /\
    at3 A 0 0 0 = 1 /\
    (1%nat, 1%nat) ∈ sentence_links A 0 1 1.
Proof.
  assert (Hhalf : 1 / 2 < sigmoid 2) by (apply sigmoid_gt_half; lra).
  destruct (x19_bernoulli_decision example_ext (example_network 2)
              "bernoulli-RF"
              example_tokens example_mask example_lengths
              example_tokens example_mask example_lengths
              (BernoulliREINFORCE (Logits (new_full 1 1 1 2))))
    as (A & HA & _ & H1 & H2 & Hcell & Hlinks & _);
    [left; reflexivity | reflexivity | reflexivity |].
  exists A. split; [exact HA|]. split.
  - rewrite Hcell. simpl.
    destruct (Rlt_dec (1 / 2) (sigmoid 2)); [reflexivity | contradiction].
  - apply (Hlinks 0%nat 1%nat 1%nat). rewrite H1, H2.
    split; [|split]; [cbv; lia | cbv; lia | exact Hhalf].
Defined.

(** X20 on a sentence whose second target position is padding. *)
Lemma x20_surrogate_ignores_padding_witness :
  reinforce_surrogate (1 / 1000000) example_ext
    (example_model "bernoulli-RF" (0, 1 / 2)) example_rf
    (new_full 1 2 2 0) padded_tokens padded_tokens (new_full 1 2 2 1)
    (BernoulliREINFORCE (Logits (new_full 1 2 2 0))) 0
  = sumn 2
      (fun j =>
         if Z.eqb (at2 padded_tokens 0 j) 1 then 0
         else - at2 (cross_entropy (new_full 1 2 2 0) padded_tokens 1) 0 j
              * at2 (sum_last3
                       (log_prob example_ext
                          (BernoulliREINFORCE (Logits (new_full 1 2 2 0)))
                          (new_full 1 2 2 1))) 0 j).
Proof.
  apply (proj1 (x20_surrogate_ignores_padding (1 / 1000000) example_ext
                  (example_model "bernoulli-RF" (0, 1 / 2)) example_rf
                  (new_full 1 2 2 0) padded_tokens padded_tokens
                  (new_full 1 2 2 1)
                  (BernoulliREINFORCE (Logits (new_full 1 2 2 0))) 0
                  eq_refl eq_refl eq_refl)).
Defined.

(** X21 at the padded target position of that sentence. *)
Lemma x21_self_critic_score_witness :
  at2 (cv_self_critic (1 / 1000000) example_ext
         (example_model "bernoulli-RF" (0, 1 / 2))
         padded_tokens padded_tokens
         (BernoulliREINFORCE (Logits (new_full 1 2 2 0)))) 0 1
  = 0.
Proof.
  destruct (x21_self_critic_score (1 / 1000000) example_ext
              (example_model "bernoulli-RF" (0, 1 / 2))
              padded_tokens padded_tokens
              (BernoulliREINFORCE (Logits (new_full 1 2 2 0)))
              "bernoulli-RF" 0 1 eq_refl) as (H & _).
  apply H. reflexivity.
Defined.

(** X22 for the example posterior and prior, both of probability one
    half. *)
Lemma x22_kl_vanishes_witness :
  exists out,
    loss (1 / 1000000) example_ext (example_model "bernoulli-ST" (0, 1 / 2))
         (new_full 1 1 2 0) example_tokens example_tokens (new_full 1 1 1 1)
         example_mask example_mask example_pa example_qa 1 "none" = Ok out /\
    at1 (out_KL out) 0 = 0.
Proof.
  eexists. split; [reflexivity|].
  match goal with
  | |- at1 (out_KL ?o) 0 = 0 =>
      destruct (x22_kl_vanishes (1 / 1000000) example_ext
                  (example_model "bernoulli-ST" (0, 1 / 2))
                  (new_full 1 1 2 0) example_tokens example_tokens
                  (new_full 1 1 1 1) example_mask example_mask example_pa
                  example_qa 1 "none"
                  (kl_bernoulli (Logits (new_full 1 1 1 0))
                                (Probs (new_full 1 1 1 (1 / 2))))
                  o 0%nat eq_refl eq_refl) as (_ & H)
  end.
  apply H; [reflexivity | reflexivity |].
  intros j i _ _. split; [apply sigmoid_range|].
  simpl. symmetry. apply sigmoid_0.
Defined.

(** X23 for the example posterior and prior. *)
Lemma x23_reductions_agree_witness :
  exists t o_mean,
    loss (1 / 1000000) example_ext (example_model "bernoulli-RF" (0, 1 / 2))
         (new_full 1 1 2 0) example_tokens example_tokens (new_full 1 1 1 1)
         example_mask example_mask example_pa example_qa 1 "mean"
    = Ok o_mean /\
    out_loss o_mean = Scalar (mean1 t) /\ size1 t = 1%nat.
Proof.
  destruct (x23_reductions_agree (1 / 1000000) example_ext
              (example_model "bernoulli-RF" (0, 1 / 2))
              (new_full 1 1 2 0) example_tokens example_tokens
              (new_full 1 1 1 1) example_mask example_mask example_pa
              example_qa 1 _ eq_refl)
    as (t & o_mean & o_sum & Ht & Hm & _ & Hlm & _).
  exists t, o_mean. split; [exact Hm|]. split; [exact Hlm|].
  inversion Ht. reflexivity.
Defined.
